(** * Velocity Rush: the simulation core, embedded and verified

    A shallow embedding of the real-time core of the game:
    - [GameLoop]         (src/engine/physics/CollisionDetection.js, second part),
    - [VehiclePhysics]   (src/engine/physics/vehiclePhysics.js),
    - [CollisionSystem]  (src/engine/renderer/renderer.js, second part),
    - [CheckpointSystem] (unnamed/part_001) and the snapshot accessor of
      [GameScene]        (src/scenes/GameScene.js),
    - the checkpoint functions of [TrackBuilder]
      (src/components/game/tracks/CurveSegment.js, second part) and the
      stand-alone tests of [CollisionDetection]
      (src/engine/physics/CollisionDetection.js, first part).

    Numbers.  JavaScript numbers are modelled as exact rationals [Q]: every
    arithmetic operation of the source is the corresponding operation of
    [Q], with no rounding.  Equalities between computed numbers are stated
    with [==] ([Qeq]) unless the two sides are built by the same operations.
    [Math.sqrt], [Math.sin], [Math.cos] and [Math.PI] are not rational; the
    definitions that use them take them as parameters.  Division is the
    total division of [Q], with [x / 0 == 0], where the source yields
    [NaN] or an infinity: the model says nothing about the source at a
    zero divisor.
    Comparisons are decided on the exact values, so a comparison of two
    numbers that are equal as rationals, or closer than the rounding of
    the source's doubles, can come out the other way in the source.

    Objects.  Where the source shares a mutable array or object between
    several holders (the [lapTimes] array, the snapshot objects returned by
    [getRaceState], the colliders' physics records), the model has an explicit
    store and the holders keep locations or indices into it. *)

From Stdlib Require Import QArith Qminmax Qabs Qround Qpower Lia Lqa ZArith List Bool.
From stdpp Require Import base option list strings gmap.
Import ListNotations.

Local Open Scope Q_scope.

(** ** JavaScript comparisons on numbers *)

(** [a <= b] and [a < b] of the source, as booleans. *)
Definition Qleb (a b : Q) : bool := Qle_bool a b.
Definition Qltb (a b : Q) : bool := negb (Qle_bool b a).

(** [x || d] on a number [x]: the number itself unless it is [0]
    ([undefined] is modelled by the caller as [None]). *)
Definition num_or (x d : Q) : Q := if Qeq_bool x 0 then d else x.

(** ** Rational stand-ins for the [Math] functions

    They are used only to run the model on concrete inputs; the theorems
    hold for every choice of the four parameters.  [sqrtA] is exact on the
    rationals whose numerator and denominator, in lowest terms, are perfect
    squares; [sinA] and [cosA] are the first terms of the power series. *)

Module MathApprox.
Definition sqrtA (q : Q) : Q :=
  let r := Qred q in Z.sqrt (Qnum r) # Pos.sqrt (Qden r).
Definition sinA (a : Q) : Q := let r := Qred a in Qred (r - r * r * r / 6).
Definition cosA (a : Q) : Q := let r := Qred a in Qred (1 - r * r / 2).
Definition piA : Q := 355 # 113.
End MathApprox.

(** ** three.js vectors, quaternions, boxes and spheres

    three.js is an external library; the operations below follow its
    [Vector3], [Quaternion], [Box3] and [Sphere] classes.  The JavaScript
    objects are mutable; here every operation returns the new value and the
    callers thread it, following the [clone()] calls of the source. *)

Module Vector3.

Record t : Type := mk { x : Q; y : Q; z : Q }.

Definition zero : t := mk 0 0 0.
Definition add (a b : t) : t := mk (x a + x b) (y a + y b) (z a + z b).
Definition sub (a b : t) : t := mk (x a - x b) (y a - y b) (z a - z b).
Definition subVectors (a b : t) : t := sub a b.
Definition multiplyScalar (a : t) (s : Q) : t := mk (x a * s) (y a * s) (z a * s).
Definition divideScalar (a : t) (s : Q) : t := multiplyScalar a (1 / s).
Definition negate (a : t) : t := mk (- x a) (- y a) (- z a).
Definition dot (a b : t) : Q := x a * x b + y a * y b + z a * z b.
Definition lengthSq (a : t) : Q := x a * x a + y a * y a + z a * z a.
Definition distanceToSquared (a b : t) : Q :=
  let dx := x a - x b in let dy := y a - y b in let dz := z a - z b in
  dx * dx + dy * dy + dz * dz.
(** [reflect(normal)]: [this - normal * (2 * this.dot(normal))]. *)
Definition reflect (a n : t) : t := sub a (multiplyScalar n (2 * dot a n)).

(** Componentwise equality up to [Qeq]. *)
Definition eqv (a b : t) : Prop := x a == x b /\ y a == y b /\ z a == z b.

Section WithSqrt.
Variable sqrtQ : Q -> Q.
Definition length (a : t) : Q := sqrtQ (lengthSq a).
(** [normalize()]: [this.divideScalar(this.length() || 1)]. *)
Definition normalize (a : t) : t := divideScalar a (num_or (length a) 1).
Definition distanceTo (a b : t) : Q := sqrtQ (distanceToSquared a b).
End WithSqrt.

End Vector3.

Module Quaternion.

Record t : Type := mk { x : Q; y : Q; z : Q; w : Q }.

(** [new Quaternion()] is the identity rotation. *)
Definition identity : t := mk 0 0 0 1.

(** [multiplyQuaternions(a, b)]. *)
Definition multiplyQuaternions (a b : t) : t :=
  mk (x a * w b + w a * x b + y a * z b - z a * y b)
     (y a * w b + w a * y b + z a * x b - x a * z b)
     (z a * w b + w a * z b + x a * y b - y a * x b)
     (w a * w b - x a * x b - y a * y b - z a * z b).
Definition multiply (a b : t) : t := multiplyQuaternions a b.
Definition premultiply (a b : t) : t := multiplyQuaternions b a.

(** [Vector3.applyQuaternion(q)]: the product [q * v * q^-1], written out
    as three.js does. *)
Definition applyTo (q : t) (v : Vector3.t) : Vector3.t :=
  let vx := Vector3.x v in let vy := Vector3.y v in let vz := Vector3.z v in
  let ix := w q * vx + y q * vz - z q * vy in
  let iy := w q * vy + z q * vx - x q * vz in
  let iz := w q * vz + x q * vy - y q * vx in
  let iw := - x q * vx - y q * vy - z q * vz in
  Vector3.mk (ix * w q + iw * - x q + iy * - z q - iz * - y q)
             (iy * w q + iw * - y q + iz * - x q - ix * - z q)
             (iz * w q + iw * - z q + ix * - y q - iy * - x q).

Section WithTrig.
Variables sqrtQ sinQ cosQ : Q -> Q.

(** [setFromAxisAngle(axis, angle)]. *)
Definition setFromAxisAngle (axis : Vector3.t) (angle : Q) : t :=
  let halfAngle := angle / 2 in
  let s := sinQ halfAngle in
  mk (Vector3.x axis * s) (Vector3.y axis * s) (Vector3.z axis * s)
     (cosQ halfAngle).

Definition length (q : t) : Q :=
  sqrtQ (x q * x q + y q * y q + z q * z q + w q * w q).

(** [normalize()]: the identity when the length is [0]. *)
Definition normalize (q : t) : t :=
  let l := length q in
  if Qeq_bool l 0 then identity
  else let l' := 1 / l in mk (x q * l') (y q * l') (z q * l') (w q * l').
End WithTrig.

End Quaternion.

(** ** GameLoop: the fixed-timestep scheduler

    Callbacks are opaque to the loop; a callback is identified by a number
    and every invocation is recorded with the argument it received. *)

Module GameLoop.

Definition callback := nat.

Inductive Phase : Type := FixedUpdate | Update | Render.

Inductive Call : Type :=
| Invoke (ph : Phase) (cb : callback) (arg : Q)
| RequestAnimationFrame.

Record t : Type := mk {
  lastTime : Q;
  deltaTime : Q;
  frameCount : Z;
  fpsTime : Q;
  fps : Z;
  isRunning : bool;
  fixedTimeStep : Q;
  maxDeltaTime : Q;
  accumulatedTime : Q;
  timeScale : Q;
  updateCallbacks : list callback;
  renderCallbacks : list callback;
  fixedUpdateCallbacks : list callback;
  animationFrameId : option nat
}.

(** The constructor. *)
Definition new : t :=
  {| lastTime := 0; deltaTime := 0; frameCount := 0; fpsTime := 0; fps := 0;
     isRunning := false;
     fixedTimeStep := 1 / 60;
     maxDeltaTime := 1 # 10;
     accumulatedTime := 0;
     timeScale := 1;
     updateCallbacks := []; renderCallbacks := []; fixedUpdateCallbacks := [];
     animationFrameId := None |}.

Definition setFixedTimeStep (g : t) (timeStep : Q) : t :=
  {| lastTime := lastTime g; deltaTime := deltaTime g;
     frameCount := frameCount g; fpsTime := fpsTime g; fps := fps g;
     isRunning := isRunning g;
     fixedTimeStep := timeStep;
     maxDeltaTime := maxDeltaTime g;
     accumulatedTime := accumulatedTime g;
     timeScale := timeScale g;
     updateCallbacks := updateCallbacks g;
     renderCallbacks := renderCallbacks g;
     fixedUpdateCallbacks := fixedUpdateCallbacks g;
     animationFrameId := animationFrameId g |}.

Definition setTimeScale (g : t) (scale : Q) : t :=
  {| lastTime := lastTime g; deltaTime := deltaTime g;
     frameCount := frameCount g; fpsTime := fpsTime g; fps := fps g;
     isRunning := isRunning g;
     fixedTimeStep := fixedTimeStep g;
     maxDeltaTime := maxDeltaTime g;
     accumulatedTime := accumulatedTime g;
     timeScale := Qmax 0 scale;
     updateCallbacks := updateCallbacks g;
     renderCallbacks := renderCallbacks g;
     fixedUpdateCallbacks := fixedUpdateCallbacks g;
     animationFrameId := animationFrameId g |}.

Definition onFixedUpdate (g : t) (cb : callback) : t :=
  {| lastTime := lastTime g; deltaTime := deltaTime g;
     frameCount := frameCount g; fpsTime := fpsTime g; fps := fps g;
     isRunning := isRunning g;
     fixedTimeStep := fixedTimeStep g;
     maxDeltaTime := maxDeltaTime g;
     accumulatedTime := accumulatedTime g;
     timeScale := timeScale g;
     updateCallbacks := updateCallbacks g;
     renderCallbacks := renderCallbacks g;
     fixedUpdateCallbacks := fixedUpdateCallbacks g ++ [cb];
     animationFrameId := animationFrameId g |}.

(** [start()]: [now] is [performance.now()], [handle] the identifier the
    host returns from [requestAnimationFrame]. *)
Definition start (g : t) (now : Q) (handle : nat) : t :=
  if isRunning g then g
  else
    {| lastTime := now / 1000; deltaTime := deltaTime g;
       frameCount := frameCount g; fpsTime := fpsTime g; fps := fps g;
       isRunning := true;
       fixedTimeStep := fixedTimeStep g;
       maxDeltaTime := maxDeltaTime g;
       accumulatedTime := accumulatedTime g;
       timeScale := timeScale g;
       updateCallbacks := updateCallbacks g;
       renderCallbacks := renderCallbacks g;
       fixedUpdateCallbacks := fixedUpdateCallbacks g;
       animationFrameId := Some handle |}.

(** One round of [for (const callback of cbs) callback(arg)]. *)
Definition invokeAll (ph : Phase) (cbs : list callback) (arg : Q) : list Call :=
  map (fun cb => Invoke ph cb arg) cbs.

(** The loop
    [while (accumulatedTime >= fixedTimeStep) { callbacks; accumulatedTime -= fixedTimeStep }].
    It need not terminate (a step that is not positive never lowers the
    accumulator below itself), so the model is bounded by [fuel]: [None]
    means that the bound was reached with the loop condition still true.
    The result is the accumulator left and the calls made, in order. *)
Fixpoint fixedUpdateLoop (fuel : nat) (step : Q) (cbs : list callback) (acc : Q)
  : option (Q * list Call) :=
  if Qleb step acc then
    match fuel with
    | O => None
    | S fuel' =>
        match fixedUpdateLoop fuel' step cbs (acc - step) with
        | Some (acc', calls) => Some (acc', invokeAll FixedUpdate cbs step ++ calls)
        | None => None
        end
    end
  else Some (acc, []).

(** [onFrame(timestamp)]; [handle] is what the host returns from the
    closing [requestAnimationFrame]. *)
Definition onFrame (fuel : nat) (g : t) (timestamp : Q) (handle : nat)
  : option (t * list Call) :=
  if negb (isRunning g) then Some (g, [])
  else
    let currentTime := timestamp / 1000 in
    let dt := Qmin (currentTime - lastTime g) (maxDeltaTime g) in
    let scaledDeltaTime := dt * timeScale g in
    let frameCount1 := (frameCount g + 1)%Z in
    let fpsTime1 := fpsTime g + dt in
    let '(fps2, frameCount2, fpsTime2) :=
      if Qleb 1 fpsTime1 then (frameCount1, 0%Z, fpsTime1 - 1)
      else (fps g, frameCount1, fpsTime1) in
    let acc1 := accumulatedTime g + scaledDeltaTime in
    match fixedUpdateLoop fuel (fixedTimeStep g) (fixedUpdateCallbacks g) acc1 with
    | None => None
    | Some (acc2, fixedCalls) =>
        Some ({| lastTime := currentTime; deltaTime := dt;
                 frameCount := frameCount2; fpsTime := fpsTime2; fps := fps2;
                 isRunning := isRunning g;
                 fixedTimeStep := fixedTimeStep g;
                 maxDeltaTime := maxDeltaTime g;
                 accumulatedTime := acc2;
                 timeScale := timeScale g;
                 updateCallbacks := updateCallbacks g;
                 renderCallbacks := renderCallbacks g;
                 fixedUpdateCallbacks := fixedUpdateCallbacks g;
                 animationFrameId := Some handle |},
              fixedCalls
                ++ invokeAll Update (updateCallbacks g) scaledDeltaTime
                ++ invokeAll Render (renderCallbacks g) scaledDeltaTime
                ++ [RequestAnimationFrame])
    end.

(** The arguments the fixed-update callbacks received, in order. *)
Definition fixedArgs (calls : list Call) : list Q :=
  omap (fun c => match c with
                 | Invoke FixedUpdate _ arg => Some arg
                 | _ => None
                 end) calls.

(** [n] rounds of the fixed-update callbacks, each with argument [step]. *)
Definition fixedRounds (n : nat) (cbs : list callback) (step : Q) : list Call :=
  concat (replicate n (invokeAll FixedUpdate cbs step)).

(** Fuel that is enough for an accumulator [acc] and a positive [step]. *)
Definition enoughFuel (step acc : Q) : nat := Z.to_nat (Qfloor (acc / step)).

(** [stop()].  The host's [cancelAnimationFrame] is an effect outside the
    loop object; what remains is the flag and the cleared handle. *)
Definition stop (g : t) : t :=
  if negb (isRunning g) then g
  else
    {| lastTime := lastTime g; deltaTime := deltaTime g;
       frameCount := frameCount g; fpsTime := fpsTime g; fps := fps g;
       isRunning := false;
       fixedTimeStep := fixedTimeStep g;
       maxDeltaTime := maxDeltaTime g;
       accumulatedTime := accumulatedTime g;
       timeScale := timeScale g;
       updateCallbacks := updateCallbacks g;
       renderCallbacks := renderCallbacks g;
       fixedUpdateCallbacks := fixedUpdateCallbacks g;
       animationFrameId :=
         match animationFrameId g with
         | Some _ => None
         | None => animationFrameId g
         end |}.

Definition onUpdate (g : t) (cb : callback) : t :=
  {| lastTime := lastTime g; deltaTime := deltaTime g;
     frameCount := frameCount g; fpsTime := fpsTime g; fps := fps g;
     isRunning := isRunning g;
     fixedTimeStep := fixedTimeStep g;
     maxDeltaTime := maxDeltaTime g;
     accumulatedTime := accumulatedTime g;
     timeScale := timeScale g;
     updateCallbacks := updateCallbacks g ++ [cb];
     renderCallbacks := renderCallbacks g;
     fixedUpdateCallbacks := fixedUpdateCallbacks g;
     animationFrameId := animationFrameId g |}.

Definition onRender (g : t) (cb : callback) : t :=
  {| lastTime := lastTime g; deltaTime := deltaTime g;
     frameCount := frameCount g; fpsTime := fpsTime g; fps := fps g;
     isRunning := isRunning g;
     fixedTimeStep := fixedTimeStep g;
     maxDeltaTime := maxDeltaTime g;
     accumulatedTime := accumulatedTime g;
     timeScale := timeScale g;
     updateCallbacks := updateCallbacks g;
     renderCallbacks := renderCallbacks g ++ [cb];
     fixedUpdateCallbacks := fixedUpdateCallbacks g;
     animationFrameId := animationFrameId g |}.

(** [cbs.filter(cb => cb !== callback)]. *)
Definition without (target : callback) (cbs : list callback) : list callback :=
  List.filter (fun cb => negb (Nat.eqb cb target)) cbs.

Definition removeCallback (g : t) (target : callback) : t :=
  {| lastTime := lastTime g; deltaTime := deltaTime g;
     frameCount := frameCount g; fpsTime := fpsTime g; fps := fps g;
     isRunning := isRunning g;
     fixedTimeStep := fixedTimeStep g;
     maxDeltaTime := maxDeltaTime g;
     accumulatedTime := accumulatedTime g;
     timeScale := timeScale g;
     updateCallbacks := without target (updateCallbacks g);
     renderCallbacks := without target (renderCallbacks g);
     fixedUpdateCallbacks := without target (fixedUpdateCallbacks g);
     animationFrameId := animationFrameId g |}.

Definition getFPS (g : t) : Z := fps g.
Definition getDeltaTime (g : t) : Q := deltaTime g.
Definition getElapsedTime (g : t) : Q := lastTime g.

(** The callback a call went to, if it is a callback invocation. *)
Definition callee (c : Call) : option callback :=
  match c with
  | Invoke _ cb _ => Some cb
  | RequestAnimationFrame => None
  end.

(** The calls of a log that did not go to [target]. *)
Definition callsWithout (target : callback) (calls : list Call) : list Call :=
  List.filter (fun c => match callee c with
                        | Some cb => negb (Nat.eqb cb target)
                        | None => true
                        end) calls.

(** The host delivering a sequence of frames, each a timestamp with the
    handle returned by the closing [requestAnimationFrame]. *)
Fixpoint onFrames (fuel : nat) (g : t) (frames : list (Q * nat))
  : option (t * list Call) :=
  match frames with
  | [] => Some (g, [])
  | (timestamp, handle) :: rest =>
      match onFrame fuel g timestamp handle with
      | None => None
      | Some (g1, calls1) =>
          match onFrames fuel g1 rest with
          | None => None
          | Some (g2, calls2) => Some (g2, calls1 ++ calls2)
          end
      end
  end.

(** The scaled time a running loop with last time [last] adds to its
    accumulator over a sequence of frames. *)
Fixpoint scaledTime (last maxDelta scale : Q) (frames : list (Q * nat)) : Q :=
  match frames with
  | [] => 0
  | (timestamp, _) :: rest =>
      Qmin (timestamp / 1000 - last) maxDelta * scale
        + scaledTime (timestamp / 1000) maxDelta scale rest
  end.

(** The number of fixed-update invocations in a log. *)
Definition fixedCalls (calls : list Call) : nat := length (fixedArgs calls).

(** A running loop with one fixed-update callback, started at time 0. *)
Definition loop50 : t := start (onFixedUpdate new 7%nat) 0 1%nat.

End GameLoop.

(** ** VehiclePhysics: the per-vehicle dynamics model *)

Module VehiclePhysics.

Record Config : Type := mkConfig {
  maxSpeed : Q;
  acceleration : Q;
  deceleration : Q;
  braking : Q;
  maxSteeringAngle : Q;
  steeringSpeed : Q;
  steeringReturn : Q;
  suspensionHeight : Q;
  suspensionStiffness : Q;
  suspensionDamping : Q;
  suspensionTravel : Q;
  mass : Q;
  dragCoefficient : Q;
  rollingResistance : Q;
  wheelBase : Q;
  trackWidth : Q;
  wheelRadius : Q
}.

Record Wheel : Type := mkWheel {
  wheelPosition : Vector3.t;
  onGround : bool;
  suspensionForce : Q;
  wheelRotation : Q
}.

Record State : Type := mkState {
  position : Vector3.t;
  rotation : Quaternion.t;
  velocity : Vector3.t;
  angularVelocity : Vector3.t;
  throttle : Q;
  brake : Q;
  steering : Q;
  wheels : list Wheel;
  speedKmh : Q;
  rpm : Q;
  gear : nat
}.

(** The argument of [setControls]: each field may be [undefined]. *)
Record Controls : Type := mkControls {
  c_throttle : option Q;
  c_brake : option Q;
  c_steering : option Q
}.

Record t : Type := mk { config : Config; state : State }.

(** The defaults of the constructor, before the caller's overrides;
    [piQ] stands for [Math.PI]. *)
Definition defaultConfig (piQ : Q) : Config :=
  {| maxSpeed := 200; acceleration := 10; deceleration := 5; braking := 15;
     maxSteeringAngle := piQ / 6;
     steeringSpeed := 5 # 2;
     steeringReturn := 1;
     suspensionHeight := 1 # 2;
     suspensionStiffness := 10;
     suspensionDamping := 8 # 10;
     suspensionTravel := 3 # 10;
     mass := 1200;
     dragCoefficient := 3 # 10;
     rollingResistance := 1 # 10;
     wheelBase := 28 # 10;
     trackWidth := 16 # 10;
     wheelRadius := 35 # 100 |}.

Definition initialWheel (p : Vector3.t) : Wheel :=
  {| wheelPosition := p; onGround := false; suspensionForce := 0; wheelRotation := 0 |}.

(** The state the constructor builds from the (already merged) config:
    front left, front right, rear left, rear right. *)
Definition initialState (c : Config) : State :=
  {| position := Vector3.mk 0 (suspensionHeight c) 0;
     rotation := Quaternion.identity;
     velocity := Vector3.zero;
     angularVelocity := Vector3.zero;
     throttle := 0; brake := 0; steering := 0;
     wheels :=
       [ initialWheel (Vector3.mk (- trackWidth c / 2) 0 (wheelBase c / 2));
         initialWheel (Vector3.mk (trackWidth c / 2) 0 (wheelBase c / 2));
         initialWheel (Vector3.mk (- trackWidth c / 2) 0 (- wheelBase c / 2));
         initialWheel (Vector3.mk (trackWidth c / 2) 0 (- wheelBase c / 2)) ];
     speedKmh := 0; rpm := 0; gear := 1 |}.

Definition new (c : Config) : t := {| config := c; state := initialState c |}.

Definition set_controls (s : State) (th br st : Q) : State :=
  {| position := position s; rotation := rotation s; velocity := velocity s;
     angularVelocity := angularVelocity s;
     throttle := th; brake := br; steering := st;
     wheels := wheels s; speedKmh := speedKmh s; rpm := rpm s; gear := gear s |}.

Definition set_wheels (s : State) (ws : list Wheel) : State :=
  {| position := position s; rotation := rotation s; velocity := velocity s;
     angularVelocity := angularVelocity s;
     throttle := throttle s; brake := brake s; steering := steering s;
     wheels := ws; speedKmh := speedKmh s; rpm := rpm s; gear := gear s |}.

(** The hard-coded frame time of [setControls] ("Assuming 60fps"). *)
Definition steeringFrameTime : Q := 16 # 1000.

(** The steering part of [setControls]: approach [targetSteering] from the
    current value by at most [steeringSpeed * 0.016]. *)
Definition approachSteering (c : Config) (current target : Q) : Q :=
  let targetSteering := Qmax (-1) (Qmin 1 target) in
  if Qltb current targetSteering then
    Qmin targetSteering (current + steeringSpeed c * steeringFrameTime)
  else if Qltb targetSteering current then
    Qmax targetSteering (current - steeringSpeed c * steeringFrameTime)
  else current.

(** [setControls(controls)]. *)
Definition setControls (v : t) (controls : Controls) : t :=
  let s := state v in
  let th := match c_throttle controls with
            | Some x => Qmax (-1) (Qmin 1 x)
            | None => throttle s
            end in
  let br := match c_brake controls with
            | Some x => Qmax 0 (Qmin 1 x)
            | None => brake s
            end in
  let st := match c_steering controls with
            | Some x => approachSteering (config v) (steering s) x
            | None => steering s
            end in
  {| config := config v; state := set_controls s th br st |}.

(** Gravity constant of the source. *)
Definition g981 : Q := 981 # 100.

(** The body of the loop of [updateSuspension] for one wheel.  The ray set
    on [this.raycaster] is never cast and is left out. *)
Definition suspensionOfWheel (c : Config) (s : State)
    (getHeightAt : option (Q -> Q -> Q)) (wheel : Wheel) : Wheel :=
  let upDir := Quaternion.applyTo (rotation s) (Vector3.mk 0 1 0) in
  let wheelPos :=
    Vector3.add (Quaternion.applyTo (rotation s) (wheelPosition wheel)) (position s) in
  let groundHeight :=
    match getHeightAt with
    | Some f => f (Vector3.x wheelPos) (Vector3.z wheelPos)
    | None => 0
    end in
  let restHeight := suspensionHeight c in
  let rayLength := suspensionHeight c + suspensionTravel c in
  let distanceToGround := Vector3.y wheelPos - groundHeight in
  if Qltb distanceToGround rayLength then
    let compressionRatio := 1 - distanceToGround / restHeight in
    let springForce :=
      compressionRatio * suspensionStiffness c * mass c * g981 / 4 in
    let verticalVelocity := Vector3.dot (velocity s) upDir in
    let dampingForce := verticalVelocity * suspensionDamping c in
    {| wheelPosition := wheelPosition wheel; onGround := true;
       suspensionForce := Qmax 0 (springForce - dampingForce);
       wheelRotation := wheelRotation wheel |}
  else
    {| wheelPosition := wheelPosition wheel; onGround := false;
       suspensionForce := 0;
       wheelRotation := wheelRotation wheel |}.

(** [updateSuspension(getHeightAt)]. *)
Definition updateSuspension (v : t) (getHeightAt : option (Q -> Q -> Q)) : t :=
  {| config := config v;
     state := set_wheels (state v)
                (map (suspensionOfWheel (config v) (state v) getHeightAt)
                     (wheels (state v))) |}.

(** The number of wheels that the next [update] finds on the ground. *)
Definition groundedWheels (v : t) (getHeightAt : option (Q -> Q -> Q)) : nat :=
  List.length (List.filter (fun w => onGround w)
                 (wheels (state (updateSuspension v getHeightAt)))).

(** The two accumulators of the wheel loop of [applyForces]. *)
Definition wheelsOnGround (ws : list Wheel) : nat :=
  List.length (List.filter (fun w => onGround w) ws).

Definition totalSuspensionForce (upDir : Vector3.t) (ws : list Wheel) : Vector3.t :=
  fold_left
    (fun acc w =>
       if onGround w then Vector3.add acc (Vector3.multiplyScalar upDir (suspensionForce w))
       else acc)
    ws Vector3.zero.

(** The "natural steering return" step at the end of [applyForces]. *)
Definition steeringReturnStep (c : Config) (dt : Q) (grounded : nat) (st : Q) : Q :=
  if Qltb (1 # 100) (Qabs st) && negb (Nat.eqb grounded 0) then
    let st' := st * (1 - steeringReturn c * dt) in
    if Qltb (Qabs st') (1 # 100) then 0 else st'
  else st.

Section WithMath.
(** [Math.sqrt], [Math.sin], [Math.cos] and [Math.PI]. *)
Variables sqrtQ sinQ cosQ : Q -> Q.
Variable piQ : Q.

(** [applyForces(dt)]. *)
Definition applyForces (v : t) (dt : Q) : t :=
  let c := config v in
  let s := state v in
  let forwardDir := Quaternion.applyTo (rotation s) (Vector3.mk 0 0 1) in
  let upDir := Quaternion.applyTo (rotation s) (Vector3.mk 0 1 0) in
  let gravity := Vector3.mk 0 (- g981 * mass c) 0 in
  let suspension := totalSuspensionForce upDir (wheels s) in
  let grounded := wheelsOnGround (wheels s) in
  let engineForce :=
    if negb (Nat.eqb grounded 0) then
      Vector3.multiplyScalar forwardDir (throttle s * acceleration c * mass c)
    else Vector3.zero in
  let brakeForce :=
    if Qltb 0 (brake s) && Qltb (1 # 10) (Vector3.lengthSq (velocity s)) then
      Vector3.multiplyScalar (Vector3.normalize sqrtQ (velocity s))
                             (- brake s * braking c * mass c)
    else Vector3.zero in
  let steeringTorque :=
    if Qltb (1 # 100) (Qabs (steering s)) && negb (Nat.eqb grounded 0) then
      let steeringAngle := steering s * maxSteeringAngle c in
      Vector3.multiplyScalar upDir
        (steeringAngle * Vector3.length sqrtQ (velocity s) * (1 # 2))
    else Vector3.zero in
  let velocitySq := Vector3.lengthSq (velocity s) in
  let dragForce :=
    if Qltb (1 # 10) velocitySq then
      Vector3.multiplyScalar (Vector3.normalize sqrtQ (velocity s))
                             (- dragCoefficient c * velocitySq)
    else Vector3.zero in
  let rolling :=
    if Qltb (1 # 10) velocitySq && negb (Nat.eqb grounded 0) then
      Vector3.multiplyScalar (Vector3.normalize sqrtQ (velocity s))
                             (- rollingResistance c * mass c * g981)
    else Vector3.zero in
  let totalForce :=
    Vector3.add (Vector3.add (Vector3.add (Vector3.add (Vector3.add
      (Vector3.add Vector3.zero gravity) suspension) engineForce) brakeForce)
      dragForce) rolling in
  let accel := Vector3.divideScalar totalForce (mass c) in
  let velocity' := Vector3.add (velocity s) (Vector3.multiplyScalar accel dt) in
  let angular1 :=
    Vector3.add (angularVelocity s) (Vector3.multiplyScalar steeringTorque dt) in
  let steering' := steeringReturnStep c dt grounded (steering s) in
  let angular2 := Vector3.multiplyScalar angular1 (95 # 100) in
  {| config := c;
     state :=
       {| position := position s; rotation := rotation s;
          velocity := velocity';
          angularVelocity := angular2;
          throttle := throttle s; brake := brake s; steering := steering';
          wheels := wheels s;
          speedKmh := speedKmh s; rpm := rpm s; gear := gear s |} |}.

Definition gearRatios : list Q := [266 # 100; 178 # 100; 13 # 10; 1; 74 # 100; 5 # 10].
Definition finalDrive : Q := 342 # 100.

(** [for (let i = 1; i < gearRatios.length; i++) if (speedKmh > i * 30) gear = i + 1]. *)
Definition selectGear (speed : Q) : nat :=
  fold_left
    (fun gear i => if Qltb (inject_Z (Z.of_nat i) * 30) speed then S i else gear)
    (seq 1 (List.length gearRatios - 1)) 1%nat.

(** [update(deltaTime, getHeightAt)]. *)
Definition update (v : t) (deltaTime : Q) (getHeightAt : option (Q -> Q -> Q)) : t :=
  let dt := Qmin deltaTime (1 # 10) in
  let v1 := updateSuspension v getHeightAt in
  let v2 := applyForces v1 dt in
  let c := config v2 in
  let s := state v2 in
  let position' := Vector3.add (position s) (Vector3.multiplyScalar (velocity s) dt) in
  let angularDelta := Vector3.multiplyScalar (angularVelocity s) dt in
  let rotationDelta :=
    Quaternion.multiply
      (Quaternion.multiply
         (Quaternion.setFromAxisAngle sinQ cosQ (Vector3.mk 1 0 0) (Vector3.x angularDelta))
         (Quaternion.setFromAxisAngle sinQ cosQ (Vector3.mk 0 1 0) (Vector3.y angularDelta)))
      (Quaternion.setFromAxisAngle sinQ cosQ (Vector3.mk 0 0 1) (Vector3.z angularDelta)) in
  let rotation' :=
    Quaternion.normalize sqrtQ (Quaternion.premultiply (rotation s) rotationDelta) in
  let wheelCircumference := 2 * piQ * wheelRadius c in
  let wheelRotationPerMeter := (2 * piQ) / wheelCircumference in
  let distanceTraveled := Vector3.length sqrtQ (velocity s) * dt in
  let wheels' :=
    map (fun w =>
           if onGround w then
             {| wheelPosition := wheelPosition w; onGround := onGround w;
                suspensionForce := suspensionForce w;
                wheelRotation := wheelRotation w + distanceTraveled * wheelRotationPerMeter |}
           else w)
        (wheels s) in
  let speedKmh' := Vector3.length sqrtQ (velocity s) * (36 # 10) in
  let gear' := selectGear speedKmh' in
  let wheelRpm := (speedKmh' / (36 # 10)) * 60 / wheelCircumference in
  let rpm1 := wheelRpm * nth (gear' - 1) gearRatios 0 * finalDrive in
  let rpm' := Qmax 800 (Qmin 8000 rpm1) in
  {| config := c;
     state :=
       {| position := position';
          rotation := rotation';
          velocity := velocity s;
          angularVelocity := angularVelocity s;
          throttle := throttle s; brake := brake s; steering := steering s;
          wheels := wheels';
          speedKmh := speedKmh'; rpm := rpm'; gear := gear' |} |}.

(** [n] successive [update] calls with the same arguments. *)
Fixpoint updates (n : nat) (v : t) (deltaTime : Q) (getHeightAt : option (Q -> Q -> Q)) : t :=
  match n with
  | O => v
  | S n' => updates n' (update v deltaTime getHeightAt) deltaTime getHeightAt
  end.
End WithMath.

(** Flat ground at height 0, given explicitly. *)
Definition flatGround : option (Q -> Q -> Q) := Some (fun _ _ => 0).

(** A vehicle as the constructor builds it (zero velocities, zero
    controls, level), with its body at [height]. *)
Definition restingAt (c : Config) (height : Q) : t :=
  {| config := c;
     state :=
       {| position := Vector3.mk 0 height 0;
          rotation := rotation (initialState c);
          velocity := velocity (initialState c);
          angularVelocity := angularVelocity (initialState c);
          throttle := 0; brake := 0; steering := 0;
          wheels := wheels (initialState c);
          speedKmh := 0; rpm := 0; gear := 1 |} |}.

(** [{ steering: 1 }]. *)
Definition steerRight : Controls :=
  {| c_throttle := None; c_brake := None; c_steering := Some 1 |}.

(** The vehicle of the constructor's defaults and the one update used in
    the examples: 1/60 s over flat ground. *)
Definition defaultVehicle : t := new (defaultConfig MathApprox.piA).
Definition updateA (v : t) (deltaTime : Q) : t :=
  update MathApprox.sqrtA MathApprox.sinA MathApprox.cosA MathApprox.piA
         v deltaTime flatGround.

(** [n] successive [setControls] calls with the same argument. *)
Fixpoint setControlsTimes (n : nat) (v : t) (controls : Controls) : t :=
  match n with
  | O => v
  | S n' => setControlsTimes n' (setControls v controls) controls
  end.

(** What [getTransform()] returns: copies of the position and of the
    rotation, and for each wheel its local position, its rotation angle and
    the steering it is drawn with. *)
Record WheelTransform : Type := mkWheelTransform {
  wt_position : Vector3.t;
  wt_rotation : Q;
  wt_steering : Q
}.

Record Transform : Type := mkTransform {
  tr_position : Vector3.t;
  tr_rotation : Quaternion.t;
  tr_wheels : list WheelTransform
}.

Definition getTransform (v : t) : Transform :=
  let s := state v in
  {| tr_position := position s;
     tr_rotation := rotation s;
     tr_wheels :=
       map (fun wheel =>
              {| wt_position := wheelPosition wheel;
                 wt_rotation := wheelRotation wheel;
                 wt_steering :=
                   if Qltb 0 (Vector3.z (wheelPosition wheel)) then steering s else 0 |})
           (wheels s) |}.

(** What [getPerformanceMetrics()] returns. *)
Record Metrics : Type := mkMetrics {
  m_speedKmh : Q;
  m_rpm : Q;
  m_gear : nat;
  m_wheelsOnGround : nat
}.

Definition getPerformanceMetrics (v : t) : Metrics :=
  let s := state v in
  {| m_speedKmh := speedKmh s;
     m_rpm := rpm s;
     m_gear := gear s;
     m_wheelsOnGround := List.length (List.filter (fun w => onGround w) (wheels s)) |}.

(** The vehicle with another throttle value in its state. *)
Definition withThrottle (v : t) (th : Q) : t :=
  {| config := config v;
     state := set_controls (state v) th (brake (state v)) (steering (state v)) |}.

(** [{ steering: x }]. *)
Definition steerTo (x : Q) : Controls :=
  {| c_throttle := None; c_brake := None; c_steering := Some x |}.

(** A default vehicle dropped from 2 m, above the reach of its suspension. *)
Definition airborneVehicle : t := restingAt (defaultConfig MathApprox.piA) 2.

(** The merged config of [new VehiclePhysics({ steeringSpeed: speed,
    steeringReturn: ret })]: the defaults with the two steering rates
    overridden by the spread of [vehicleConfig]. *)
Definition steeringConfig (speed ret : Q) : Config :=
  let c := defaultConfig MathApprox.piA in
  {| maxSpeed := maxSpeed c; acceleration := acceleration c;
     deceleration := deceleration c; braking := braking c;
     maxSteeringAngle := maxSteeringAngle c;
     steeringSpeed := speed;
     steeringReturn := ret;
     suspensionHeight := suspensionHeight c;
     suspensionStiffness := suspensionStiffness c;
     suspensionDamping := suspensionDamping c;
     suspensionTravel := suspensionTravel c;
     mass := mass c;
     dragCoefficient := dragCoefficient c;
     rollingResistance := rollingResistance c;
     wheelBase := wheelBase c;
     trackWidth := trackWidth c;
     wheelRadius := wheelRadius c |}.

End VehiclePhysics.

(** ** CollisionSystem: pairwise contact detection and the default response

    The scene objects are JavaScript references held by the two collider
    arrays and by each callback's arguments.  The model keeps them in an
    object table; the arrays hold indices into it, and a change of velocity is
    a write to the table.  A custom [onCollision] callback is opaque and
    only recorded; the default response is modelled in full. *)

Module CollisionSystem.

Record Box3 : Type := mkBox { bmin : Vector3.t; bmax : Vector3.t }.
Record Sphere : Type := mkSphere { center : Vector3.t; radius : Q }.

(** [Box3.isEmpty()]. *)
Definition isEmpty (b : Box3) : bool :=
  Qltb (Vector3.x (bmax b)) (Vector3.x (bmin b))
  || Qltb (Vector3.y (bmax b)) (Vector3.y (bmin b))
  || Qltb (Vector3.z (bmax b)) (Vector3.z (bmin b)).

(** [Box3.intersectsBox(box)]. *)
Definition intersectsBox (a b : Box3) : bool :=
  negb (Qltb (Vector3.x (bmax b)) (Vector3.x (bmin a))
        || Qltb (Vector3.x (bmax a)) (Vector3.x (bmin b))
        || Qltb (Vector3.y (bmax b)) (Vector3.y (bmin a))
        || Qltb (Vector3.y (bmax a)) (Vector3.y (bmin b))
        || Qltb (Vector3.z (bmax b)) (Vector3.z (bmin a))
        || Qltb (Vector3.z (bmax a)) (Vector3.z (bmin b))).

(** [Sphere.intersectsSphere(sphere)]. *)
Definition intersectsSphere (a b : Sphere) : bool :=
  let radiusSum := radius a + radius b in
  Qleb (Vector3.distanceToSquared (center b) (center a)) (radiusSum * radiusSum).

(** [userData.physics]: both fields may be missing. *)
Record Physics : Type := mkPhysics {
  velocity : option Vector3.t;
  mass : option Q
}.

Inductive Response : Type :=
| DefaultResponse
| Custom (id : nat).

Record Collider : Type := mkCollider {
  boundingBox : Box3;
  boundingSphere : Sphere;
  onCollision : option Response;
  isStatic : bool
}.

(** A registered scene object.  [worldBox] is the box that
    [Box3.setFromObject(object)] computes from the object's geometry and
    pose at the time of the call. *)
Record Object3D : Type := mkObject {
  worldBox : Box3;
  physics : option Physics;
  collider : Collider
}.

(** One invocation of an [onCollision] callback. *)
Record Call : Type := mkCall {
  self : nat;
  other : nat;
  collisionPoint : Vector3.t;
  collisionNormal : Vector3.t
}.

Record t : Type := mk {
  objects : list Object3D;
  colliders : list nat;
  staticColliders : list nat
}.

Definition set_objects (cs : t) (os : list Object3D) : t :=
  {| objects := os; colliders := colliders cs; staticColliders := staticColliders cs |}.

Definition set_velocity (o : Object3D) (v : Vector3.t) : Object3D :=
  {| worldBox := worldBox o;
     physics := match physics o with
                | Some p => Some {| velocity := Some v; mass := mass p |}
                | None => None
                end;
     collider := collider o |}.

(** [x || d] on an optional number. *)
Definition opt_num_or (x : option Q) (d : Q) : Q :=
  match x with
  | Some q => num_or q d
  | None => d
  end.

(** [mass || Infinity]: [None] is [Infinity]. *)
Definition mass_or_infinity (x : option Q) : option Q :=
  match x with
  | Some q => if Qeq_bool q 0 then None else Some q
  | None => None
  end.

(** [defaultCollisionResponse(self, other, collisionPoint, collisionNormal)].
    [None] is the [TypeError] of a method call on a missing velocity. *)
Definition defaultCollisionResponse (os : list Object3D) (slf oth : nat)
    (point normal : Vector3.t) : option (list Object3D) :=
  oS ← os !! slf;
  oO ← os !! oth;
  match physics oS, physics oO with
  | Some pS, Some pO =>
      v1 ← velocity pS;
      let v2 := default Vector3.zero (velocity pO) in
      let m1 := opt_num_or (mass pS) 1 in
      match mass_or_infinity (mass pO) with
      | Some m2 =>
          let v1Final :=
            Vector3.sub v1
              (Vector3.multiplyScalar normal
                 (2 * m2 / (m1 + m2) * Vector3.dot (Vector3.sub v1 v2) normal)) in
          let v2Final :=
            Vector3.sub v2
              (Vector3.multiplyScalar normal
                 (2 * m1 / (m1 + m2) * Vector3.dot (Vector3.sub v2 v1) normal)) in
          _ ← velocity pO;
          let os1 := <[slf := set_velocity oS (Vector3.multiplyScalar v1Final (8 # 10))]> os in
          oO1 ← os1 !! oth;
          Some (<[oth := set_velocity oO1 (Vector3.multiplyScalar v2Final (8 # 10))]> os1)
      | None =>
          let reflection :=
            Vector3.multiplyScalar (Vector3.reflect v1 normal) (5 # 10) in
          Some (<[slf := set_velocity oS reflection]> os)
      end
  | _, _ => Some os
  end.

(** [if (obj.userData.collider.onCollision) onCollision(obj, other, point, normal)]. *)
Definition trigger (w : list Object3D * list Call) (slf oth : nat)
    (point normal : Vector3.t) : option (list Object3D * list Call) :=
  oS ← w.1 !! slf;
  match onCollision (collider oS) with
  | None => Some w
  | Some DefaultResponse =>
      os' ← defaultCollisionResponse w.1 slf oth point normal;
      Some (os', w.2 ++ [mkCall slf oth point normal])
  | Some (Custom _) => Some (w.1, w.2 ++ [mkCall slf oth point normal])
  end.

Section WithSqrt.
Variable sqrtQ : Q -> Q.

(** [Box3.getBoundingSphere(target)]. *)
Definition getBoundingSphere (b : Box3) : Sphere :=
  if isEmpty b then mkSphere Vector3.zero (-1)
  else mkSphere (Vector3.multiplyScalar (Vector3.add (bmin b) (bmax b)) (1 # 2))
                (Vector3.length sqrtQ (Vector3.sub (bmax b) (bmin b)) * (1 # 2)).

Definition newCollider (o : Object3D) (cb : option Response) (static : bool) : Collider :=
  {| boundingBox := worldBox o;
     boundingSphere := getBoundingSphere (worldBox o);
     onCollision := cb;
     isStatic := static |}.

(** [registerCollider(object, onCollision)]: the object is added to the
    table and its index to [colliders]. *)
Definition registerCollider (cs : t) (box : Box3) (ph : option Physics)
    (cb : option Response) : t :=
  let o := mkObject box ph
             (mkCollider box (getBoundingSphere box)
                (Some (default DefaultResponse cb)) false) in
  {| objects := objects cs ++ [o];
     colliders := colliders cs ++ [List.length (objects cs)];
     staticColliders := staticColliders cs |}.

(** [registerStaticCollider(object)]. *)
Definition registerStaticCollider (cs : t) (box : Box3) (ph : option Physics) : t :=
  let o := mkObject box ph (mkCollider box (getBoundingSphere box) None true) in
  {| objects := objects cs ++ [o];
     colliders := colliders cs;
     staticColliders := staticColliders cs ++ [List.length (objects cs)] |}.

(** [updateCollider(object)]. *)
Definition updateCollider (o : Object3D) : Object3D :=
  {| worldBox := worldBox o;
     physics := physics o;
     collider := {| boundingBox := worldBox o;
                    boundingSphere := getBoundingSphere (worldBox o);
                    onCollision := onCollision (collider o);
                    isStatic := isStatic (collider o) |} |}.

(** The first loop of [update]. *)
Definition updateColliders (os : list Object3D) (idxs : list nat) : list Object3D :=
  fold_left (fun os i => match os !! i with
                         | Some o => <[i := updateCollider o]> os
                         | None => os
                         end) idxs os.

(** The two-phase test. *)
Definition overlap (a b : Object3D) : bool :=
  intersectsSphere (boundingSphere (collider a)) (boundingSphere (collider b))
  && intersectsBox (boundingBox (collider a)) (boundingBox (collider b)).

(** What [update] computes on a hit.  The midpoint is computed on a clone
    of A's centre and dropped; [collisionPoint] stays the fresh
    [new Vector3()]. *)
Definition contactPoint (a b : Object3D) : Vector3.t :=
  let collisionPoint := Vector3.zero in
  let _midpoint :=
    Vector3.multiplyScalar
      (Vector3.add (center (boundingSphere (collider a)))
                   (center (boundingSphere (collider b)))) (1 # 2) in
  collisionPoint.

Definition contactNormal (a b : Object3D) : Vector3.t :=
  Vector3.normalize sqrtQ
    (Vector3.subVectors (center (boundingSphere (collider b)))
                        (center (boundingSphere (collider a)))).

(** The body of the inner loop over the later dynamic colliders. *)
Definition checkDynamic (i : nat) (w : list Object3D * list Call) (j : nat)
  : option (list Object3D * list Call) :=
  objA ← w.1 !! i;
  objB ← w.1 !! j;
  if overlap objA objB then
    let point := contactPoint objA objB in
    let normal := contactNormal objA objB in
    w1 ← trigger w i j point normal;
    trigger w1 j i point (Vector3.negate normal)
  else Some w.

(** The body of the loop over the static colliders. *)
Definition checkStatic (i : nat) (w : list Object3D * list Call) (k : nat)
  : option (list Object3D * list Call) :=
  objA ← w.1 !! i;
  staticObj ← w.1 !! k;
  if overlap objA staticObj then
    trigger w i k (contactPoint objA staticObj) (contactNormal objA staticObj)
  else Some w.

Definition foldM {A B : Type} (f : A -> B -> option A) (l : list B) (a : A) : option A :=
  fold_left (fun acc b => acc ≫= fun a' => f a' b) l (Some a).

(** The outer loop: [cs] is the part of [colliders] from index [i] on. *)
Fixpoint checkFrom (cs statics : list nat) (w : list Object3D * list Call)
  : option (list Object3D * list Call) :=
  match cs with
  | [] => Some w
  | i :: later =>
      w1 ← foldM (checkDynamic i) later w;
      w2 ← foldM (checkStatic i) statics w1;
      checkFrom later statics w2
  end.

(** [update(deltaTime)]: the system after the pass and the callback
    invocations, in order. *)
Definition update (cs : t) (deltaTime : Q) : option (t * list Call) :=
  let os := updateColliders (objects cs) (colliders cs) in
  w ← checkFrom (colliders cs) (staticColliders cs) (os, []);
  Some (set_objects cs w.1, w.2).
End WithSqrt.

(** What [update] passes to a callback: the origin as the point, and as
    the normal the normalised direction between the two centres, taken
    from the first object of the pair to the second (and negated for the
    second object's callback). *)
Definition passedByUpdate (sqrtQ : Q -> Q) (os0 : list Object3D) (c : Call) : Prop :=
  exists a b,
    os0 !! self c = Some a /\ os0 !! other c = Some b /\
    collisionPoint c = Vector3.zero /\
    (collisionNormal c = contactNormal sqrtQ a b
     \/ collisionNormal c = Vector3.negate (contactNormal sqrtQ b a)).

(** The invariant of the loops of [update]: the colliders are those
    computed by the first loop, and every call made so far is as above. *)
Definition collisionInv (sqrtQ : Q -> Q) (os0 : list Object3D)
    (w : list Object3D * list Call) : Prop :=
  map collider w.1 = map collider os0 /\ List.Forall (passedByUpdate sqrtQ os0) w.2.

(** Total momentum of two objects of the table, with the masses the
    default response uses. *)
Definition momentum (os : list Object3D) (i j : nat) : option Vector3.t :=
  oi ← os !! i; oj ← os !! j;
  pi ← physics oi; pj ← physics oj;
  vi ← velocity pi; vj ← velocity pj;
  Some (Vector3.add (Vector3.multiplyScalar vi (opt_num_or (mass pi) 1))
                    (Vector3.multiplyScalar vj (opt_num_or (mass pj) 1))).

(** The midpoint of the two bounding-sphere centres. *)
Definition midpoint (a b : Object3D) : Vector3.t :=
  Vector3.multiplyScalar
    (Vector3.add (center (boundingSphere (collider a)))
                 (center (boundingSphere (collider b)))) (1 # 2).

(** Example scene: two boxes of size 2 x 1 x 2 that overlap, with centres
    (1, 1/2, 1) and (2, 1/2, 1); A has mass 2 and velocity (3, 0, 0), B has
    mass 1 and is at rest. *)
Definition empty : t := {| objects := []; colliders := []; staticColliders := [] |}.
Definition boxA : Box3 := mkBox (Vector3.mk 0 0 0) (Vector3.mk 2 1 2).
Definition boxB : Box3 := mkBox (Vector3.mk 1 0 0) (Vector3.mk 3 1 2).
Definition physicsA : Physics := mkPhysics (Some (Vector3.mk 3 0 0)) (Some 2).
Definition physicsB : Physics := mkPhysics (Some (Vector3.mk 0 0 0)) (Some 1).

(** Both with a custom (recording) callback. *)
Definition pairCustom : t :=
  registerCollider MathApprox.sqrtA
    (registerCollider MathApprox.sqrtA empty boxA (Some physicsA) (Some (Custom 1)))
    boxB (Some physicsB) (Some (Custom 2)).

(** Both with the default response. *)
Definition pairDefault : t :=
  registerCollider MathApprox.sqrtA
    (registerCollider MathApprox.sqrtA empty boxA (Some physicsA) None)
    boxB (Some physicsB) None.

(** The velocity of object [i] of the table. *)
Definition velocityOf (os : list Object3D) (i : nat) : option Vector3.t :=
  o ← os !! i; p ← physics o; velocity p.

(** What no collision response writes: everything of an object but its
    velocity. *)
Definition frame (o : Object3D) : Box3 * Collider * option (option Q) :=
  (worldBox o, collider o, option_map mass (physics o)).

(** An object on which [physics.velocity] can be read when there is a
    [physics]. *)
Definition velocityPresent (o : Object3D) : bool :=
  match physics o with
  | Some p => match velocity p with Some _ => true | None => false end
  | None => true
  end.

(** Every registered index names an object of the table. *)
Definition indicesValid (cs : t) : bool :=
  forallb (fun i => Nat.ltb i (List.length (objects cs)))
          (colliders cs ++ staticColliders cs).

(** The state of the loops of [update] in which no response can fail:
    the table has its length and every velocity that may be read is
    there. *)
Definition safeTable (N : nat) (w : list Object3D * list Call) : Prop :=
  length w.1 = N /\ List.Forall (fun x => velocityPresent x = true) w.1.

(** The invariant of the loops for what a pass does not change and whom it
    calls. *)
Definition passInv (os0 : list Object3D) (dyn every : list nat)
    (w : list Object3D * list Call) : Prop :=
  map frame w.1 = map frame os0 /\
  List.Forall (fun c => In (self c) dyn /\ In (other c) every) w.2.

(** Example scene: the moving box A against a wall that occupies the box
    of B; the wall has physics data without a mass. *)
Definition physicsWall : Physics := mkPhysics None None.
Definition wallScene : t :=
  registerStaticCollider MathApprox.sqrtA
    (registerCollider MathApprox.sqrtA empty boxA (Some physicsA) None)
    boxB (Some physicsWall).

End CollisionSystem.

(** ** A store for the shared JavaScript arrays and objects *)

Module JS.

Abbreviation loc := nat (only parsing).

Inductive Value : Type :=
| VUndefined
| VNull
| VNum (q : Q)
| VBool (b : bool)
| VRef (l : loc).

Inductive Cell : Type :=
| ArrayCell (xs : list Q)
| ObjectCell (props : gmap string Value).

Abbreviation Heap := (gmap nat Cell) (only parsing).

(** A fresh array or object literal. *)
Definition alloc (h : Heap) (c : Cell) : loc * Heap :=
  let l := fresh (dom h) in (l, <[l := c]> h).

Definition readArray (h : Heap) (l : loc) : option (list Q) :=
  match h !! l with
  | Some (ArrayCell xs) => Some xs
  | _ => None
  end.

Definition readObject (h : Heap) (l : loc) : option (gmap string Value) :=
  match h !! l with
  | Some (ObjectCell o) => Some o
  | _ => None
  end.

(** [a.push(x)]. *)
Definition push (h : Heap) (l : loc) (x : Q) : option Heap :=
  xs ← readArray h l;
  Some (<[l := ArrayCell (xs ++ [x])]> h).

(** [o[k] = v]. *)
Definition setProp (h : Heap) (l : loc) (k : string) (v : Value) : option Heap :=
  o ← readObject h l;
  Some (<[l := ObjectCell (<[k := v]> o)]> h).

(** [o[k]]; a missing property reads [undefined]. *)
Definition getProp (h : Heap) (l : loc) (k : string) : option Value :=
  o ← readObject h l;
  Some (default VUndefined (o !! k)).

(** [{ ...o }]: a new object with the same own properties. *)
Definition spread (h : Heap) (l : loc) : option (loc * Heap) :=
  o ← readObject h l;
  Some (alloc h (ObjectCell o)).

Definition ofOptNum (x : option Q) : Value :=
  match x with
  | Some q => VNum q
  | None => VNull
  end.

End JS.

(** ** CheckpointSystem: checkpoint order, lap counting and timing

    The scene objects built by [createCheckpointVisualizations] and the
    colour changes of [checkpointPassed] are rendering only and are left out.
    [performance.now()] is an input ([now]) of the operations that read it.
    The three callbacks are opaque; the model records whether each one was
    supplied and every invocation with its argument. *)

Module CheckpointSystem.

Record Checkpoint : Type := mkCheckpoint {
  position : Vector3.t;
  isStartFinish : bool
}.

Inductive Event : Type :=
| CheckpointPassed (index : nat) (checkpoint : Checkpoint)
| LapCompleted (lap : Z) (lapTime : Q) (bestLapTime : option Q)
| RaceFinished (totalTime : Q) (lapTimes : JS.loc) (bestLapTime : option Q).

Record t : Type := mk {
  checkpoints : list Checkpoint;
  startFinishLine : option Checkpoint;
  currentCheckpoint : nat;
  laps : Z;
  totalLaps : Z;
  lapTimes : JS.loc;
  currentLapTime : Q;
  bestLapTime : option Q;
  raceStartTime : Q;
  raceTime : Q;
  isRaceStarted : bool;
  isRaceFinished : bool;
  onLapCompleted : bool;
  onCheckpointPassed : bool;
  onRaceFinished : bool
}.

(** The options of [init]. *)
Record Options : Type := mkOptions {
  o_totalLaps : option Z;
  o_onLapCompleted : bool;
  o_onCheckpointPassed : bool;
  o_onRaceFinished : bool
}.

(** The constructor; [this.lapTimes = []] allocates the array. *)
Definition new (h : JS.Heap) : t * JS.Heap :=
  let '(l, h') := JS.alloc h (JS.ArrayCell []) in
  ({| checkpoints := []; startFinishLine := None;
      currentCheckpoint := 0; laps := 0; totalLaps := 3;
      lapTimes := l; currentLapTime := 0; bestLapTime := None;
      raceStartTime := 0; raceTime := 0;
      isRaceStarted := false; isRaceFinished := false;
      onLapCompleted := false; onCheckpointPassed := false;
      onRaceFinished := false |}, h').

(** [reset()]: [this.lapTimes = []] allocates a new array; [bestLapTime]
    is not assigned. *)
Definition reset (s : t) (h : JS.Heap) : t * JS.Heap :=
  let '(l, h') := JS.alloc h (JS.ArrayCell []) in
  ({| checkpoints := checkpoints s; startFinishLine := startFinishLine s;
      currentCheckpoint := 0; laps := 0; totalLaps := totalLaps s;
      lapTimes := l; currentLapTime := 0; bestLapTime := bestLapTime s;
      raceStartTime := 0; raceTime := 0;
      isRaceStarted := false; isRaceFinished := false;
      onLapCompleted := onLapCompleted s;
      onCheckpointPassed := onCheckpointPassed s;
      onRaceFinished := onRaceFinished s |}, h').

(** [init(checkpoints, options)], with [options.totalLaps || 3]. *)
Definition init (s : t) (h : JS.Heap) (cps : list Checkpoint) (o : Options)
  : t * JS.Heap :=
  reset
    {| checkpoints := cps;
       startFinishLine := List.find isStartFinish cps;
       currentCheckpoint := currentCheckpoint s; laps := laps s;
       totalLaps := match o_totalLaps o with
                    | Some n => if Z.eqb n 0 then 3%Z else n
                    | None => 3%Z
                    end;
       lapTimes := lapTimes s; currentLapTime := currentLapTime s;
       bestLapTime := bestLapTime s;
       raceStartTime := raceStartTime s; raceTime := raceTime s;
       isRaceStarted := isRaceStarted s; isRaceFinished := isRaceFinished s;
       onLapCompleted := o_onLapCompleted o;
       onCheckpointPassed := o_onCheckpointPassed o;
       onRaceFinished := o_onRaceFinished o |} h.

(** [startRace()]. *)
Definition startRace (s : t) (h : JS.Heap) (now : Q) : t * JS.Heap :=
  let '(s1, h1) := reset s h in
  ({| checkpoints := checkpoints s1; startFinishLine := startFinishLine s1;
      currentCheckpoint := currentCheckpoint s1; laps := laps s1;
      totalLaps := totalLaps s1;
      lapTimes := lapTimes s1; currentLapTime := currentLapTime s1;
      bestLapTime := bestLapTime s1;
      raceStartTime := now; raceTime := raceTime s1;
      isRaceStarted := true; isRaceFinished := isRaceFinished s1;
      onLapCompleted := onLapCompleted s1;
      onCheckpointPassed := onCheckpointPassed s1;
      onRaceFinished := onRaceFinished s1 |}, h1).

(** [isVehicleAtCheckpoint(vehiclePosition, checkpoint)]:
    [vehiclePosition.distanceTo(checkpoint.position) < 10], decided on the
    squares (the distance is the non-negative square root of the squared
    distance, so it is below [10] exactly when the square is below [100]). *)
Definition isVehicleAtCheckpoint (vehiclePosition : Vector3.t) (cp : Checkpoint) : bool :=
  Qltb (Vector3.distanceToSquared vehiclePosition (position cp)) 100.

(** [lapCompleted()]. *)
Definition lapCompleted (s : t) (h : JS.Heap) : option (t * JS.Heap * list Event) :=
  h1 ← JS.push h (lapTimes s) (currentLapTime s);
  let best :=
    match bestLapTime s with
    | None => Some (currentLapTime s)
    | Some b => if Qltb (currentLapTime s) b then Some (currentLapTime s) else Some b
    end in
  xs ← JS.readArray h1 (lapTimes s);
  let ev := if onLapCompleted s
            then [LapCompleted (laps s) (List.last xs 0) best] else [] in
  Some ({| checkpoints := checkpoints s; startFinishLine := startFinishLine s;
           currentCheckpoint := currentCheckpoint s; laps := laps s;
           totalLaps := totalLaps s;
           lapTimes := lapTimes s; currentLapTime := 0;
           bestLapTime := best;
           raceStartTime := raceStartTime s; raceTime := raceTime s;
           isRaceStarted := isRaceStarted s; isRaceFinished := isRaceFinished s;
           onLapCompleted := onLapCompleted s;
           onCheckpointPassed := onCheckpointPassed s;
           onRaceFinished := onRaceFinished s |}, h1, ev).

(** [raceFinished()]. *)
Definition raceFinished (s : t) : t * list Event :=
  ({| checkpoints := checkpoints s; startFinishLine := startFinishLine s;
      currentCheckpoint := currentCheckpoint s; laps := laps s;
      totalLaps := totalLaps s;
      lapTimes := lapTimes s; currentLapTime := currentLapTime s;
      bestLapTime := bestLapTime s;
      raceStartTime := raceStartTime s; raceTime := raceTime s;
      isRaceStarted := isRaceStarted s; isRaceFinished := true;
      onLapCompleted := onLapCompleted s;
      onCheckpointPassed := onCheckpointPassed s;
      onRaceFinished := onRaceFinished s |},
   if onRaceFinished s
   then [RaceFinished (raceTime s) (lapTimes s) (bestLapTime s)] else []).

Definition set_progress (s : t) (cur : nat) (n : Z) : t :=
  {| checkpoints := checkpoints s; startFinishLine := startFinishLine s;
     currentCheckpoint := cur; laps := n;
     totalLaps := totalLaps s;
     lapTimes := lapTimes s; currentLapTime := currentLapTime s;
     bestLapTime := bestLapTime s;
     raceStartTime := raceStartTime s; raceTime := raceTime s;
     isRaceStarted := isRaceStarted s; isRaceFinished := isRaceFinished s;
     onLapCompleted := onLapCompleted s;
     onCheckpointPassed := onCheckpointPassed s;
     onRaceFinished := onRaceFinished s |}.

(** [checkpointPassed()].  [None] is the [TypeError] of reading
    [isStartFinish] of a missing entry. *)
Definition checkpointPassed (s : t) (h : JS.Heap) : option (t * JS.Heap * list Event) :=
  cp ← checkpoints s !! currentCheckpoint s;
  '(s1, h1, ev1) ←
    (if isStartFinish cp && Z.ltb 0 (laps s)
     then lapCompleted s h else Some (s, h, []));
  let ev2 := if onCheckpointPassed s1
             then [CheckpointPassed (currentCheckpoint s1) cp] else [] in
  let cur := ((currentCheckpoint s1 + 1) mod List.length (checkpoints s1))%nat in
  if Nat.eqb cur 0 then
    let s2 := set_progress s1 cur (laps s1 + 1) in
    if Z.leb (totalLaps s2) (laps s2) then
      let '(s3, ev3) := raceFinished s2 in
      Some (s3, h1, ev1 ++ ev2 ++ ev3)
    else Some (s2, h1, ev1 ++ ev2)
  else Some (set_progress s1 cur (laps s1), h1, ev1 ++ ev2).

Definition set_times (s : t) (rt lt : Q) : t :=
  {| checkpoints := checkpoints s; startFinishLine := startFinishLine s;
     currentCheckpoint := currentCheckpoint s; laps := laps s;
     totalLaps := totalLaps s;
     lapTimes := lapTimes s; currentLapTime := lt;
     bestLapTime := bestLapTime s;
     raceStartTime := raceStartTime s; raceTime := rt;
     isRaceStarted := isRaceStarted s; isRaceFinished := isRaceFinished s;
     onLapCompleted := onLapCompleted s;
     onCheckpointPassed := onCheckpointPassed s;
     onRaceFinished := onRaceFinished s |}.

(** [update(deltaTime, vehiclePosition)]. *)
Definition update (s : t) (h : JS.Heap) (now deltaTime : Q)
    (vehiclePosition : Vector3.t) : option (t * JS.Heap * list Event) :=
  if negb (isRaceStarted s) || isRaceFinished s then Some (s, h, [])
  else
    let s1 := set_times s ((now - raceStartTime s) / 1000)
                          (currentLapTime s + deltaTime) in
    match checkpoints s1 !! currentCheckpoint s1 with
    | Some checkpoint =>
        if isVehicleAtCheckpoint vehiclePosition checkpoint
        then checkpointPassed s1 h
        else Some (s1, h, [])
    | None => Some (s1, h, [])
    end.

(** One call of [update]: the clock reading, the time step and the
    vehicle position. *)
Record Tick : Type := mkTick { now : Q; deltaTime : Q; vehiclePosition : Vector3.t }.

(** A sequence of [update] calls; the events are collected in order. *)
Fixpoint run (s : t) (h : JS.Heap) (ticks : list Tick)
  : option (t * JS.Heap * list Event) :=
  match ticks with
  | [] => Some (s, h, [])
  | k :: rest =>
      '(s1, h1, ev1) ← update s h (now k) (deltaTime k) (vehiclePosition k);
      '(s2, h2, ev2) ← run s1 h1 rest;
      Some (s2, h2, ev1 ++ ev2)
  end.

(** The properties of the object literal of [getRaceState()]; [lapTimes]
    is the array of the system itself. *)
Definition raceStateLiteral (s : t) : gmap string JS.Value :=
  <["currentCheckpoint" := JS.VNum (inject_Z (Z.of_nat (currentCheckpoint s)))]>
  (<["totalCheckpoints" := JS.VNum (inject_Z (Z.of_nat (List.length (checkpoints s))))]>
  (<["currentLap" := JS.VNum (inject_Z (laps s + 1))]>
  (<["totalLaps" := JS.VNum (inject_Z (totalLaps s))]>
  (<["currentLapTime" := JS.VNum (currentLapTime s)]>
  (<["bestLapTime" := JS.ofOptNum (bestLapTime s)]>
  (<["lapTimes" := JS.VRef (lapTimes s)]>
  (<["raceTime" := JS.VNum (raceTime s)]>
  (<["isRaceStarted" := JS.VBool (isRaceStarted s)]>
  (<["isRaceFinished" := JS.VBool (isRaceFinished s)]> ∅))))))))).

(** [getRaceState()]: a new object with these properties. *)
Definition getRaceState (s : t) (h : JS.Heap) : JS.loc * JS.Heap :=
  JS.alloc h (JS.ObjectCell (raceStateLiteral s)).

(** Is a lap-completed or race-finished callback invocation? *)
Definition isLapOrRaceEvent (e : Event) : bool :=
  match e with
  | CheckpointPassed _ _ => false
  | LapCompleted _ _ _ => true
  | RaceFinished _ _ _ => true
  end.

Definition isLapCompleted (e : Event) : bool :=
  match e with
  | LapCompleted _ _ _ => true
  | _ => false
  end.

(** Does this call of [update] pass the current checkpoint, and is that
    checkpoint a start/finish one? *)
Definition crossesStartFinish (s : t) (k : Tick) : bool :=
  isRaceStarted s && negb (isRaceFinished s) &&
  match checkpoints s !! currentCheckpoint s with
  | Some cp => isVehicleAtCheckpoint (vehiclePosition k) cp && isStartFinish cp
  | None => false
  end.

(** No call of the sequence crosses a start/finish checkpoint. *)
Fixpoint noStartFinishCrossing (s : t) (h : JS.Heap) (ticks : list Tick) : bool :=
  match ticks with
  | [] => true
  | k :: rest =>
      negb (crossesStartFinish s k) &&
      match update s h (now k) (deltaTime k) (vehiclePosition k) with
      | Some (s1, h1, _) => noStartFinishCrossing s1 h1 rest
      | None => true
      end
  end.

(** Before the first crossing of a start/finish checkpoint: no lap time
    is recorded, and every start/finish checkpoint is still ahead in the
    first round. *)
Definition beforeFirstCrossing (s : t) (h : JS.Heap) : Prop :=
  JS.readArray h (lapTimes s) = Some [] /\
  forall i cp, checkpoints s !! i = Some cp -> isStartFinish cp = true ->
               (currentCheckpoint s <= i)%nat /\ laps s = 0%Z.

(** The ticks pass the given checkpoints one after the other: each
    vehicle position is within the threshold of its checkpoint. *)
Definition visits (ticks : list Tick) (cps : list Checkpoint) : Prop :=
  List.Forall2 (fun k cp => isVehicleAtCheckpoint (vehiclePosition k) cp = true)
               ticks cps.

(** The usual track: the start/finish line is checkpoint 0 and no other
    checkpoint is one. *)
Definition startFinishFirst (cps : list Checkpoint) : Prop :=
  forall i cp, cps !! i = Some cp -> isStartFinish cp = Nat.eqb i 0.

(** The best-lap rule of [lapCompleted], run over a list of lap times. *)
Definition bestOf (b : option Q) (times : list Q) : option Q :=
  fold_left (fun b t => match b with
                        | None => Some t
                        | Some b' => if Qltb t b' then Some t else Some b'
                        end) times b.

(** Is the race on: started and not finished? *)
Definition isRunning (s : t) : bool := isRaceStarted s && negb (isRaceFinished s).

(** Does this call of [update] pass the current checkpoint? *)
Definition passes (s : t) (k : Tick) : bool :=
  isRunning s &&
  match checkpoints s !! currentCheckpoint s with
  | Some cp => isVehicleAtCheckpoint (vehiclePosition k) cp
  | None => false
  end.

Definition isRaceFinishedEvent (e : Event) : bool :=
  match e with
  | RaceFinished _ _ _ => true
  | _ => false
  end.

(** The sum of a list of times. *)
Definition sumQ (xs : list Q) : Q := fold_right Qplus 0 xs.

(** The time steps of the calls of a sequence that find the race on. *)
Fixpoint activeTime (s : t) (h : JS.Heap) (ticks : list Tick) : Q :=
  match ticks with
  | [] => 0
  | k :: rest =>
      (if isRunning s then deltaTime k else 0)
      + match update s h (now k) (deltaTime k) (vehiclePosition k) with
        | Some (s1, h1, _) => activeTime s1 h1 rest
        | None => 0
        end
  end.

(** Example tracks and runs.  The checkpoints lie on the x axis, 100
    apart; every callback is supplied; the race starts at clock 0 and each
    update advances the clock by one second. *)
Definition checkpointAt (x : Q) (startFinish : bool) : Checkpoint :=
  mkCheckpoint (Vector3.mk x 0 0) startFinish.

Definition track4 : list Checkpoint :=
  [checkpointAt 0 true; checkpointAt 100 false; checkpointAt 200 false;
   checkpointAt 300 false].

Definition track1 : list Checkpoint := [checkpointAt 0 true].

Definition initialised (cps : list Checkpoint) (n : Z) : t * JS.Heap :=
  let '(s, h) := new ∅ in
  init s h cps (mkOptions (Some n) true true true).

Definition started (cps : list Checkpoint) (n : Z) : t * JS.Heap :=
  startRace (initialised cps n).1 (initialised cps n).2 0.

(** The [i]-th update, with the vehicle at [x] on the x axis. *)
Definition tickAt (i : Z) (x : Q) : Tick :=
  mkTick (inject_Z (1000 * i)) 1 (Vector3.mk x 0 0).

(** Positions at checkpoints 0,1,2,3,0,1,2,3,0, each 3 units off. *)
Definition ticks9 : list Tick :=
  [tickAt 1 3; tickAt 2 103; tickAt 3 203; tickAt 4 303;
   tickAt 5 3; tickAt 6 103; tickAt 7 203; tickAt 8 303; tickAt 9 3].

Definition tick10 : Tick := tickAt 10 103.

(** The system and the store after the first five of these updates: one
    lap of 5 s is recorded. *)
Definition afterFirstLap : t * JS.Heap :=
  match run (started track4 2).1 (started track4 2).2 (take 5 ticks9) with
  | Some (s, h, _) => (s, h)
  | None => started track4 2
  end.

End CheckpointSystem.

(** ** The track builder's checkpoints (src/components/game/tracks, [TrackBuilder]) *)

Module TrackBuilder.

(** A positioned segment, as far as the builder's checkpoint functions read
    it: [getEntryPoint()] and [getExitPoint()]. *)
Record Segment : Type := mkSegment {
  entryPoint : Vector3.t;
  exitPoint : Vector3.t
}.

(** An entry of [checkpoints].  [addCheckpoint] writes [position], [index]
    and [segmentIndex]; [addStartFinishLine] writes [position] and
    [isStartFinish]; a property that is not written is [undefined]. *)
Record Entry : Type := mkEntry {
  position : Vector3.t;
  index : option nat;
  segmentIndex : option Z;
  isStartFinish : option bool
}.

(** The builder, with the [console.error] messages it has written. *)
Record t : Type := mk {
  segments : list Segment;
  checkpoints : list Entry;
  console : list string
}.

(** [Vector3.lerpVectors(v1, v2, alpha)]. *)
Definition lerpVectors (v1 v2 : Vector3.t) (alpha : Q) : Vector3.t :=
  Vector3.mk (Vector3.x v1 + (Vector3.x v2 - Vector3.x v1) * alpha)
             (Vector3.y v1 + (Vector3.y v2 - Vector3.y v1) * alpha)
             (Vector3.z v1 + (Vector3.z v2 - Vector3.z v1) * alpha).

(** [segmentIndex < 0 || segmentIndex >= this.segments.length]. *)
Definition invalidIndex (b : t) (segmentIndex : Z) : bool :=
  Z.ltb segmentIndex 0 || Z.leb (Z.of_nat (List.length (segments b))) segmentIndex.

Definition logError (b : t) (message : string) : t :=
  {| segments := segments b; checkpoints := checkpoints b;
     console := console b ++ [message] |}.

(** [addCheckpoint(segmentIndex, position = 0.5)]; the segment index is
    an integer, as at every call of the source. *)
Definition addCheckpoint (b : t) (segmentIndex : Z) (position : option Q) : t :=
  if invalidIndex b segmentIndex then logError b "Invalid segment index for checkpoint"
  else
    match segments b !! Z.to_nat segmentIndex with
    | Some segment =>
        let checkpointPosition :=
          lerpVectors (entryPoint segment) (exitPoint segment) (default (1 # 2) position) in
        let checkpoint :=
          {| position := checkpointPosition;
             index := Some (List.length (checkpoints b));
             segmentIndex := Some segmentIndex;
             isStartFinish := None |} in
        {| segments := segments b; checkpoints := checkpoints b ++ [checkpoint];
           console := console b |}
    | None => b
    end.

(** [addStartFinishLine(segmentIndex, position = 0.5)]: the line is put in
    front ([unshift]). *)
Definition addStartFinishLine (b : t) (segmentIndex : Z) (position : option Q) : t :=
  if invalidIndex b segmentIndex
  then logError b "Invalid segment index for start/finish line"
  else
    match segments b !! Z.to_nat segmentIndex with
    | Some segment =>
        let linePosition :=
          lerpVectors (entryPoint segment) (exitPoint segment) (default (1 # 2) position) in
        let startFinishLine :=
          {| position := linePosition; index := None; segmentIndex := None;
             isStartFinish := Some true |} in
        {| segments := segments b; checkpoints := startFinishLine :: checkpoints b;
           console := console b |}
    | None => b
    end.

(** [clear()], as far as segments and checkpoints go. *)
Definition clear (b : t) : t :=
  {| segments := []; checkpoints := []; console := console b |}.

Definition getCheckpoints (b : t) : list Entry := checkpoints b.

(** The checkpoint part of the four [build...Track] functions: once the
    segments are added, the start/finish line is put on segment 0 and a
    checkpoint on each of the listed segments, all at 0.5. *)
Definition placeCheckpoints (b : t) (segmentIndices : list Z) : t :=
  fold_left (fun b' i => addCheckpoint b' i (Some (1 # 2))) segmentIndices
            (addStartFinishLine b 0 (Some (1 # 2))).

Definition ovalCheckpoints : list Z := [2; 4; 6]%Z.
Definition circuitCheckpoints : list Z := [2; 4; 6; 8; 10]%Z.
Definition mountainCheckpoints : list Z := [2; 4; 6; 8]%Z.

(** Eight segments laid along the x axis, 100 apart, for the examples. *)
Definition straightRow : t :=
  {| segments :=
       map (fun i => mkSegment (Vector3.mk (inject_Z (100 * Z.of_nat i)) 0 0)
                               (Vector3.mk (inject_Z (100 * Z.of_nat i + 100)) 0 0))
           (seq 0 8);
     checkpoints := []; console := [] |}.

End TrackBuilder.

(** ** The stand-alone collision tests (src/engine/physics/CollisionDetection.js, first part) *)

Module CollisionDetection.

(** The object [checkCheckpointCollision] returns on a hit. *)
Record CheckpointHit : Type := mkCheckpointHit {
  hitCheckpoint : CheckpointSystem.Checkpoint;
  hitIndex : nat;
  hitDistance : Q
}.

Section WithSqrt.
Variable sqrtQ : Q -> Q.

(** [checkCheckpointCollision(vehicle, checkpoints, nextCheckpointIndex)].
    [vehicle] is the world position of the vehicle's mesh, [None] for a
    missing vehicle; the list may be missing too; the result [None] is
    [null]. *)
Definition checkCheckpointCollision (vehicle : option Vector3.t)
    (checkpoints : option (list CheckpointSystem.Checkpoint))
    (nextCheckpointIndex : nat) : option CheckpointHit :=
  match vehicle, checkpoints with
  | Some vehiclePosition, Some cps =>
      if Nat.eqb (List.length cps) 0 then None
      else
        match cps !! nextCheckpointIndex with
        | None => None
        | Some checkpoint =>
            let distance :=
              Vector3.distanceTo sqrtQ vehiclePosition
                (CheckpointSystem.position checkpoint) in
            if Qltb distance 10
            then Some {| hitCheckpoint := checkpoint;
                         hitIndex := nextCheckpointIndex;
                         hitDistance := distance |}
            else None
        end
  | _, _ => None
  end.
End WithSqrt.

(** The test of one edge in [isPointInPolygon], from vertex [pj] to vertex
    [pi]: [((zi > point.z) !== (zj > point.z)) &&
    (point.x < (xj - xi) * (point.z - zi) / (zj - zi) + xi)]. *)
Definition intersect (point pi pj : Vector3.t) : bool :=
  let xi := Vector3.x pi in
  let zi := Vector3.z pi in
  let xj := Vector3.x pj in
  let zj := Vector3.z pj in
  negb (Bool.eqb (Qltb (Vector3.z point) zi) (Qltb (Vector3.z point) zj))
  && Qltb (Vector3.x point) ((xj - xi) * (Vector3.z point - zi) / (zj - zi) + xi).

(** [isPointInPolygon(point, polygon)]: the loop
    [for (let i = 0, j = polygon.length - 1; i < polygon.length; j = i++)];
    the state is [(j, inside)].  Both indices stay within the array. *)
Definition isPointInPolygon (point : Vector3.t) (polygon : list Vector3.t) : bool :=
  snd (fold_left
         (fun (st : nat * bool) (i : nat) =>
            let '(j, inside) := st in
            (i, if intersect point (nth i polygon Vector3.zero)
                                   (nth j polygon Vector3.zero)
                then negb inside else inside))
         (seq 0 (List.length polygon))
         ((List.length polygon - 1)%nat, false)).

(** The rectangle with corners [(x0, z0)] and [(x1, z1)] in the XZ plane,
    at height [y]. *)
Definition rectangle (x0 x1 z0 z1 y : Q) : list Vector3.t :=
  [Vector3.mk x0 y z0; Vector3.mk x1 y z0; Vector3.mk x1 y z1; Vector3.mk x0 y z1].

End CollisionDetection.

(** ** GameScene: the outward race state

    [this.raceState] is an object of the store.  The accessor, the two
    handlers that store lap times and the hand-over of the track's
    checkpoints are modelled. *)

Module GameScene.

Record t : Type := mk { raceState : JS.loc }.

(** [getRaceState()]: [{ ...this.raceState }]. *)
Definition getRaceState (g : t) (h : JS.Heap) : option (JS.loc * JS.Heap) :=
  JS.spread h (raceState g).

(** [handleLapCompleted(lapData)], up to the timer it sets at its end
    (the timer's callback runs later and only clears the [lapCompleted]
    flag).  [cs] is [this.checkpointSystem]; [notify] tells whether
    [onRaceStateChanged] is set.  The result is the store and the
    snapshots passed to that callback.  [None] is a [TypeError]. *)
Definition handleLapCompleted (g : t) (cs : CheckpointSystem.t) (notify : bool)
    (h : JS.Heap) (lap : Z) (lapTime : Q) (bestLapTime : option Q)
  : option (JS.Heap * list JS.loc) :=
  h1 ← JS.setProp h (raceState g) "currentLap" (JS.VNum (inject_Z (lap + 1)));
  h2 ← JS.setProp h1 (raceState g) "lastLapTime" (JS.VNum lapTime);
  h3 ← JS.setProp h2 (raceState g) "bestLapTime" (JS.ofOptNum bestLapTime);
  h4 ← JS.setProp h3 (raceState g) "lapCompleted" (JS.VBool true);
  xs ← JS.readArray h4 (CheckpointSystem.lapTimes cs);
  let copy := JS.alloc h4 (JS.ArrayCell xs) in
  h5 ← JS.setProp copy.2 (raceState g) "lapTimes" (JS.VRef copy.1);
  if notify then
    snapshot ← getRaceState g h5;
    Some (snapshot.2, [snapshot.1])
  else Some (h5, []).

(** [handleRaceFinished(raceData)]. *)
Definition handleRaceFinished (g : t) (notify : bool) (h : JS.Heap)
    (totalTime : Q) (lapTimes : JS.loc) (bestLapTime : option Q)
  : option (JS.Heap * list JS.loc) :=
  h1 ← JS.setProp h (raceState g) "isRaceFinished" (JS.VBool true);
  h2 ← JS.setProp h1 (raceState g) "raceTime" (JS.VNum totalTime);
  h3 ← JS.setProp h2 (raceState g) "lapTimes" (JS.VRef lapTimes);
  h4 ← JS.setProp h3 (raceState g) "bestLapTime" (JS.ofOptNum bestLapTime);
  if notify then
    snapshot ← getRaceState g h4;
    Some (snapshot.2, [snapshot.1])
  else Some (h4, []).

(** What [setupCheckpoints] hands to [CheckpointSystem.init]: the entries
    of the track builder, of which the checkpoint system reads the
    position and whether [isStartFinish] is truthy. *)
Definition checkpointOfEntry (e : TrackBuilder.Entry) : CheckpointSystem.Checkpoint :=
  CheckpointSystem.mkCheckpoint (TrackBuilder.position e)
    (match TrackBuilder.isStartFinish e with
     | Some b => b
     | None => false
     end).

Definition checkpointsOfTrack (b : TrackBuilder.t) : list CheckpointSystem.Checkpoint :=
  map checkpointOfEntry (TrackBuilder.getCheckpoints b).

(** A scene whose [raceState] is a new, empty object, beside the
    checkpoint system after its first lap. *)
Definition sceneAfterFirstLap : t * JS.Heap :=
  let r := JS.alloc CheckpointSystem.afterFirstLap.2 (JS.ObjectCell ∅) in
  ({| raceState := r.1 |}, r.2).

End GameScene.
(** * Properties *)

(** ** Comparisons *)

Lemma Qleb_true (a b : Q) : Qleb a b = true <-> a <= b.
Proof. unfold Qleb. apply Qle_bool_iff. Qed.

Lemma Qleb_false (a b : Q) : Qleb a b = false <-> b < a.
Proof.
  unfold Qleb. split; intros H.
  - apply Qnot_le_lt. intros Hle. apply Qle_bool_iff in Hle. congruence.
  - destruct (Qle_bool a b) eqn:E; [|reflexivity].
    apply Qle_bool_iff in E. exfalso. apply (Qlt_not_le _ _ H E).
Qed.

Lemma Qltb_true (a b : Q) : Qltb a b = true <-> a < b.
Proof.
  unfold Qltb. rewrite negb_true_iff. apply (Qleb_false b a).
Qed.

Lemma Qltb_false (a b : Q) : Qltb a b = false <-> b <= a.
Proof.
  unfold Qltb. rewrite negb_false_iff. apply (Qleb_true b a).
Qed.

(** ** The game loop *)

Section GameLoopFacts.
Import GameLoop.

Lemma fixedUpdateLoop_more_fuel fuel step cbs acc r :
  fixedUpdateLoop fuel step cbs acc = Some r ->
  fixedUpdateLoop (S fuel) step cbs acc = Some r.
Proof.
  revert acc r. induction fuel as [|fuel IH]; intros acc r H.
  - simpl in *. destruct (Qleb step acc); [discriminate|assumption].
  - cbn [fixedUpdateLoop] in H.
    change (fixedUpdateLoop (S (S fuel)) step cbs acc)
      with (if Qleb step acc
            then match fixedUpdateLoop (S fuel) step cbs (acc - step) with
                 | Some (acc', calls) =>
                     Some (acc', invokeAll FixedUpdate cbs step ++ calls)
                 | None => None
                 end
            else Some (acc, [])).
    destruct (Qleb step acc); [|assumption].
    destruct (fixedUpdateLoop fuel step cbs (acc - step)) as [r'|] eqn:E;
      [|discriminate].
    rewrite (IH _ _ E). assumption.
Qed.

Lemma fixedUpdateLoop_fuel_le fuel fuel' step cbs acc r :
  (fuel <= fuel')%nat ->
  fixedUpdateLoop fuel step cbs acc = Some r ->
  fixedUpdateLoop fuel' step cbs acc = Some r.
Proof.
  induction 1 as [|m Hle IH]; intros H; [assumption|].
  apply fixedUpdateLoop_more_fuel, IH, H.
Qed.

(** With a positive step the loop ends: it runs [n] rounds, where [n] is
    the number of whole steps in the accumulator. *)
Lemma fixedUpdateLoop_spec fuel step cbs acc :
  0 < step ->
  acc < inject_Z (Z.of_nat fuel + 1) * step ->
  exists n acc',
    fixedUpdateLoop fuel step cbs acc = Some (acc', fixedRounds n cbs step) /\
    acc' == acc - inject_Z (Z.of_nat n) * step /\
    acc' < step /\
    ((0 < n)%nat -> inject_Z (Z.of_nat n) * step <= acc).
Proof.
  intros Hstep. revert acc.
  induction fuel as [|fuel IH]; intros acc Hacc.
  - exists 0%nat, acc. cbn [fixedUpdateLoop].
    assert (Hlt : acc < step).
    { change (inject_Z (Z.of_nat 0 + 1)) with 1 in Hacc. lra. }
    apply Qleb_false in Hlt. rewrite Hlt.
    apply Qleb_false in Hlt.
    repeat split; [ | assumption | lia ].
    change (inject_Z (Z.of_nat 0)) with 0. lra.
  - cbn [fixedUpdateLoop].
    destruct (Qleb step acc) eqn:E.
    + apply Qleb_true in E.
      destruct (IH (acc - step)) as (n & acc' & Hrun & Heq & Hlt & Hn).
      { rewrite Nat2Z.inj_succ in Hacc.
        replace (Z.succ (Z.of_nat fuel) + 1)%Z with ((Z.of_nat fuel + 1) + 1)%Z in Hacc by lia.
        rewrite inject_Z_plus in Hacc.
        change (inject_Z 1) with 1 in Hacc. lra. }
      exists (S n), acc'. rewrite Hrun.
      assert (HS : inject_Z (Z.of_nat (S n)) == inject_Z (Z.of_nat n) + 1).
      { rewrite Nat2Z.inj_succ. unfold Z.succ. rewrite inject_Z_plus. reflexivity. }
      repeat split.
      * rewrite Heq, HS. lra.
      * assumption.
      * intros _. rewrite HS.
        destruct n as [|n].
        -- change (inject_Z (Z.of_nat 0)) with 0. lra.
        -- assert (Hn' := Hn ltac:(lia)). lra.
    + exists 0%nat, acc. apply Qleb_false in E.
      repeat split; [ | assumption | lia ].
      change (inject_Z (Z.of_nat 0)) with 0. lra.
Qed.

Lemma enoughFuel_bound step acc :
  0 < step -> acc < inject_Z (Z.of_nat (enoughFuel step acc) + 1) * step.
Proof.
  intros Hstep. unfold enoughFuel.
  assert (H1 := Qlt_floor (acc / step)).
  assert (H2 : inject_Z (Qfloor (acc / step) + 1)
               <= inject_Z (Z.of_nat (Z.to_nat (Qfloor (acc / step))) + 1)).
  { rewrite <- Zle_Qle. lia. }
  assert (H3 : acc / step < inject_Z (Z.of_nat (Z.to_nat (Qfloor (acc / step))) + 1)).
  { eapply Qlt_le_trans; eassumption. }
  apply (Qmult_lt_compat_r _ _ step Hstep) in H3.
  assert (H4 : acc / step * step == acc) by (field; lra).
  rewrite H4 in H3. exact H3.
Qed.

Lemma fixedArgs_app l1 l2 : fixedArgs (l1 ++ l2) = fixedArgs l1 ++ fixedArgs l2.
Proof. unfold fixedArgs. apply omap_app. Qed.

Lemma fixedArgs_invokeAll_fixed cbs step :
  fixedArgs (invokeAll FixedUpdate cbs step) = replicate (length cbs) step.
Proof. induction cbs as [|cb cbs IH]; simpl; [reflexivity|]. f_equal. exact IH. Qed.

Lemma fixedArgs_invokeAll_other ph cbs arg :
  ph <> FixedUpdate -> fixedArgs (invokeAll ph cbs arg) = [].
Proof.
  intros Hph. induction cbs as [|cb cbs IH]; simpl; [reflexivity|].
  destruct ph; [congruence|exact IH|exact IH].
Qed.

Lemma fixedArgs_fixedRounds n cbs step :
  fixedArgs (fixedRounds n cbs step) = replicate (n * length cbs) step.
Proof.
  unfold fixedRounds. induction n as [|n IH]; simpl; [reflexivity|].
  rewrite fixedArgs_app, fixedArgs_invokeAll_fixed, IH.
  symmetry. apply replicate_add.
Qed.
End GameLoopFacts.

Section GameLoopClaims.
Import GameLoop.

(** C8.  One frame of a running loop whose fixed step is positive.  The
    raw frame delta is clamped to [maxDeltaTime] (0.1 s in the
    constructor); the clamped delta times the time scale is added to the
    accumulator; the fixed-update callbacks then run [n] rounds, where [n]
    is the number of whole steps in the accumulator (what is left is below
    one step), and every fixed-update callback invocation receives exactly
    [fixedTimeStep] (1/60 s in the constructor), whatever the time scale
    is: the time scale enters the accumulated time only, and
    [setTimeScale] leaves [fixedTimeStep] alone.  The frame returns with
    any fuel from [enoughFuel] on. *)
Theorem C8_onFrame_fixed_steps (g : GameLoop.t) (timestamp : Q) (handle : nat) :
  isRunning g = true ->
  0 < fixedTimeStep g ->
  let raw := timestamp / 1000 - lastTime g in
  let dt := Qmin raw (maxDeltaTime g) in
  let acc1 := accumulatedTime g + dt * timeScale g in
  let step := fixedTimeStep g in
  exists (n : nat) (g' : GameLoop.t) (calls : list Call),
    (forall fuel, (enoughFuel step acc1 <= fuel)%nat ->
       onFrame fuel g timestamp handle = Some (g', calls)) /\
    deltaTime g' = dt /\ dt <= maxDeltaTime g /\
    calls = fixedRounds n (fixedUpdateCallbacks g) step
              ++ invokeAll Update (updateCallbacks g) (dt * timeScale g)
              ++ invokeAll Render (renderCallbacks g) (dt * timeScale g)
              ++ [RequestAnimationFrame] /\
    fixedArgs calls = replicate (n * length (fixedUpdateCallbacks g)) step /\
    accumulatedTime g' == acc1 - inject_Z (Z.of_nat n) * step /\
    accumulatedTime g' < step /\
    ((0 < n)%nat -> inject_Z (Z.of_nat n) * step <= acc1) /\
    fixedTimeStep g' = step /\ timeScale g' = timeScale g /\
    (forall scale, fixedTimeStep (setTimeScale g scale) = step).
Proof.
  intros Hrun Hstep raw dt acc1 step.
  destruct (fixedUpdateLoop_spec (enoughFuel step acc1) step
              (fixedUpdateCallbacks g) acc1 Hstep (enoughFuel_bound _ _ Hstep))
    as (n & acc' & Hloop & Hacc & Hlt & Hn).
  pose (res := onFrame (enoughFuel step acc1) g timestamp handle).
  assert (Hres : exists g',
             res = Some (g', fixedRounds n (fixedUpdateCallbacks g) step
              ++ invokeAll Update (updateCallbacks g) (dt * timeScale g)
              ++ invokeAll Render (renderCallbacks g) (dt * timeScale g)
              ++ [RequestAnimationFrame])
             /\ deltaTime g' = dt /\ accumulatedTime g' = acc'
             /\ fixedTimeStep g' = step /\ timeScale g' = timeScale g).
  { unfold res, onFrame. rewrite Hrun. cbn [negb].
    fold raw. fold dt. fold acc1. fold step.
    destruct (Qleb 1 (fpsTime g + dt)); rewrite Hloop;
      eexists; (split; [reflexivity|]); cbn; repeat split; reflexivity. }
  destruct Hres as (g' & Hres & Hdt & Hacc' & Hfs & Hts).
  exists n, g', (fixedRounds n (fixedUpdateCallbacks g) step
              ++ invokeAll Update (updateCallbacks g) (dt * timeScale g)
              ++ invokeAll Render (renderCallbacks g) (dt * timeScale g)
              ++ [RequestAnimationFrame]).
  repeat split.
  - intros fuel Hfuel. unfold onFrame. rewrite Hrun. cbn [negb].
    fold raw. fold dt. fold acc1. fold step.
    rewrite (fixedUpdateLoop_fuel_le _ _ _ _ _ _ Hfuel Hloop).
    unfold res, onFrame in Hres. rewrite Hrun in Hres. cbn [negb] in Hres.
    fold raw in Hres. fold dt in Hres. fold acc1 in Hres. fold step in Hres.
    rewrite Hloop in Hres. exact Hres.
  - exact Hdt.
  - apply Q.le_min_r.
  - rewrite !fixedArgs_app, fixedArgs_fixedRounds.
    rewrite !fixedArgs_invokeAll_other by congruence.
    cbn. rewrite app_nil_r. reflexivity.
  - rewrite Hacc'. exact Hacc.
  - rewrite Hacc'. exact Hlt.
  - exact Hn.
  - exact Hfs.
  - exact Hts.
Qed.

(** The frame 50 ms after the start of a loop with one fixed-update
    callback. *)
Lemma C8_onFrame_fixed_steps_witness :
  isRunning loop50 = true /\ 0 < fixedTimeStep loop50 /\
  exists n g' calls,
    onFrame 3 loop50 50 2%nat = Some (g', calls) /\
    fixedArgs calls = replicate (n * 1) (1 / 60).
Proof.
  split; [reflexivity|]. split; [reflexivity|].
  destruct (C8_onFrame_fixed_steps loop50 50 2%nat eq_refl eq_refl)
    as (n & g' & calls & Hrun & _ & _ & _ & Hargs & _).
  exists n, g', calls. split; [|exact Hargs].
  apply Hrun. vm_compute. lia.
Defined.

(** The same frame, evaluated: three fixed ticks of 1/60 s, none left. *)
Example onFrame_loop50 :
  option_map (fun r => (fixedArgs r.2, Qred (accumulatedTime r.1), Qred (deltaTime r.1)))
             (onFrame 3 loop50 50 2%nat)
  = Some ([1 # 60; 1 # 60; 1 # 60], 0, 1 # 20).
Proof. vm_compute. reflexivity. Qed.

(** Twice the time scale after a long stall: the delta is capped at 0.1 s,
    twelve ticks run, each still of 1/60 s. *)
Example onFrame_scaled :
  option_map (fun r => (fixedArgs r.2, Qred (deltaTime r.1)))
             (onFrame 12 (setTimeScale loop50 2) 5000 2%nat)
  = Some (replicate 12 (1 # 60), 1 # 10).
Proof. vm_compute. reflexivity. Qed.

(** Too little fuel: the model does not invent a result. *)
Example onFrame_out_of_fuel : onFrame 2 loop50 50 2%nat = None.
Proof. vm_compute. reflexivity. Qed.

End GameLoopClaims.

(** ** Vehicle dynamics *)

Section VehicleFacts.
Import VehiclePhysics.

(** [setControls] with a steering input moves the steering toward the
    clamped target and stops at it. *)
Lemma approachSteering_between (c : Config) (current target : Q) :
  0 <= steeringSpeed c ->
  let T := Qmax (-1) (Qmin 1 target) in
  let s' := approachSteering c current target in
  Qmin current T <= s' /\ s' <= Qmax current T.
Proof.
  intros Hsp T s'. unfold s', approachSteering. fold T.
  assert (Hstep : 0 <= steeringSpeed c * steeringFrameTime).
  { apply Qmult_le_0_compat; [assumption|]. unfold steeringFrameTime. lra. }
  set (d := steeringSpeed c * steeringFrameTime) in *.
  destruct (Qltb current T) eqn:E1.
  - apply Qltb_true in E1.
    destruct (Q.min_spec current T) as [[Ha Hm]|[Ha Hm]];
    destruct (Q.max_spec current T) as [[Hb HM]|[Hb HM]];
    destruct (Q.min_spec T (current + d)) as [[Hc Hn]|[Hc Hn]];
    rewrite Hm, HM, Hn; split; lra.
  - apply Qltb_false in E1.
    destruct (Qltb T current) eqn:E2.
    + apply Qltb_true in E2.
      destruct (Q.min_spec current T) as [[Ha Hm]|[Ha Hm]];
      destruct (Q.max_spec current T) as [[Hb HM]|[Hb HM]];
      destruct (Q.max_spec T (current - d)) as [[Hc Hn]|[Hc Hn]];
      rewrite Hm, HM, Hn; split; lra.
    + split; [apply Q.le_min_l | apply Q.le_max_l].
Qed.

Lemma clamp_unit (x : Q) : -1 <= Qmax (-1) (Qmin 1 x) /\ Qmax (-1) (Qmin 1 x) <= 1.
Proof.
  split; [apply Q.le_max_l|].
  apply Q.max_lub; [lra | apply Q.le_min_l].
Qed.

Lemma Qabs_le_iff (x b : Q) : Qabs x <= b <-> - b <= x /\ x <= b.
Proof. apply Qabs_Qle_condition. Qed.

Lemma approachSteering_unit (c : Config) (current target : Q) :
  0 <= steeringSpeed c ->
  Qabs current <= 1 ->
  Qabs (approachSteering c current target) <= 1.
Proof.
  intros Hsp Hcur. apply Qabs_le_iff in Hcur. apply Qabs_le_iff.
  destruct (approachSteering_between c current target Hsp) as [Hlo Hhi].
  destruct (clamp_unit target) as [HT1 HT2].
  set (T := Qmax (-1) (Qmin 1 target)) in *.
  assert (H1 : -1 <= Qmin current T) by (apply Q.min_glb; lra).
  assert (H2 : Qmax current T <= 1) by (apply Q.max_lub; lra).
  split; lra.
Qed.

Lemma Qabs_cases (x : Q) : (0 <= x /\ Qabs x == x) \/ (x < 0 /\ Qabs x == - x).
Proof.
  destruct (Qlt_le_dec x 0) as [H|H].
  - right. split; [exact H|]. apply Qabs_neg. lra.
  - left. split; [exact H|]. apply Qabs_pos. exact H.
Qed.

(** One [setControls] call shortens the distance of the steering to the
    clamped target by [steeringSpeed * 0.016], or closes it. *)
Lemma approachSteering_distance (c : Config) (current target : Q) :
  0 <= steeringSpeed c ->
  let T := Qmax (-1) (Qmin 1 target) in
  Qabs (approachSteering c current target - T)
  == Qmax 0 (Qabs (current - T) - steeringSpeed c * steeringFrameTime).
Proof.
  intros Hs T. unfold approachSteering. fold T.
  assert (Hd : 0 <= steeringSpeed c * steeringFrameTime).
  { apply Qmult_le_0_compat; [exact Hs|]. unfold steeringFrameTime. lra. }
  set (d := steeringSpeed c * steeringFrameTime) in *. clearbody d T.
  destruct (Qltb current T) eqn:E1.
  - apply Qltb_true in E1.
    destruct (Q.min_spec T (current + d)) as [[H1 H2]|[H1 H2]];
      destruct (Qabs_cases (Qmin T (current + d) - T)) as [[A1 A2]|[A1 A2]];
      destruct (Qabs_cases (current - T)) as [[B1 B2]|[B1 B2]];
      destruct (Q.max_spec 0 (Qabs (current - T) - d)) as [[M1 M2]|[M1 M2]];
      lra.
  - apply Qltb_false in E1.
    destruct (Qltb T current) eqn:E2.
    + apply Qltb_true in E2.
      destruct (Q.max_spec T (current - d)) as [[H1 H2]|[H1 H2]];
        destruct (Qabs_cases (Qmax T (current - d) - T)) as [[A1 A2]|[A1 A2]];
        destruct (Qabs_cases (current - T)) as [[B1 B2]|[B1 B2]];
        destruct (Q.max_spec 0 (Qabs (current - T) - d)) as [[M1 M2]|[M1 M2]];
        lra.
    + apply Qltb_false in E2.
      destruct (Qabs_cases (current - T)) as [[B1 B2]|[B1 B2]];
        destruct (Q.max_spec 0 (Qabs (current - T) - d)) as [[M1 M2]|[M1 M2]];
        lra.
Qed.

Lemma setControls_steering (v : t) (controls : Controls) :
  steering (state (setControls v controls))
  = match c_steering controls with
    | Some x => approachSteering (config v) (steering (state v)) x
    | None => steering (state v)
    end.
Proof. reflexivity. Qed.

Lemma setControls_config (v : t) (controls : Controls) :
  config (setControls v controls) = config v.
Proof. reflexivity. Qed.

(** The natural steering return never enlarges the steering when the
    factor [1 - steeringReturn * dt] lies between -1 and 1. *)
Lemma steeringReturnStep_abs (c : Config) (dt : Q) (grounded : nat) (st : Q) :
  0 <= steeringReturn c * dt -> steeringReturn c * dt <= 2 ->
  Qabs (steeringReturnStep c dt grounded st) <= Qabs st.
Proof.
  intros H0 H1. unfold steeringReturnStep.
  destruct (Qltb (1 # 100) (Qabs st) && negb (Nat.eqb grounded 0)); [|lra].
  destruct (Qltb (Qabs (st * (1 - steeringReturn c * dt))) (1 # 100)).
  - apply Qabs_nonneg.
  - rewrite Qabs_Qmult.
    assert (Hf : Qabs (1 - steeringReturn c * dt) <= 1)
      by (apply Qabs_le_iff; split; lra).
    assert (Hs := Qabs_nonneg st).
    assert (Hg := Qabs_nonneg (1 - steeringReturn c * dt)).
    set (a := Qabs st) in *. set (b := Qabs (1 - steeringReturn c * dt)) in *.
    nra.
Qed.
End VehicleFacts.
Section VehicleRest.
Import VehiclePhysics.
Variables sqrtQ sinQ cosQ : Q -> Q.
Variable piQ : Q.

Lemma update_steering (v : t) (deltaTime : Q) (ground : option (Q -> Q -> Q)) :
  steering (state (update sqrtQ sinQ cosQ piQ v deltaTime ground))
  = steeringReturnStep (config v) (Qmin deltaTime (1 # 10))
      (groundedWheels v ground) (steering (state v)).
Proof. reflexivity. Qed.

Lemma update_config (v : t) (deltaTime : Q) (ground : option (Q -> Q -> Q)) :
  config (update sqrtQ sinQ cosQ piQ v deltaTime ground) = config v.
Proof. reflexivity. Qed.

Lemma update_velocity (v : t) (deltaTime : Q) (ground : option (Q -> Q -> Q)) :
  velocity (state (update sqrtQ sinQ cosQ piQ v deltaTime ground))
  = velocity (state (applyForces sqrtQ (updateSuspension v ground)
                       (Qmin deltaTime (1 # 10)))).
Proof. reflexivity. Qed.

Lemma applyTo_identity (p : Vector3.t) :
  Vector3.eqv (Quaternion.applyTo Quaternion.identity p) p.
Proof. unfold Vector3.eqv, Quaternion.applyTo. cbn. repeat split; ring. Qed.

(** One wheel of a level vehicle that does not move, over flat ground:
    within the ray length the wheel is on the ground and, when the spring
    term [F] is not negative, [F] is its suspension force; beyond the ray
    length it is off the ground with no force. *)
Lemma suspensionOfWheel_level (c : Config) (s : State)
    (ground : option (Q -> Q -> Q)) (w : Wheel) :
  rotation s = Quaternion.identity ->
  velocity s = Vector3.zero ->
  Vector3.y (wheelPosition w) == 0 ->
  (ground = None \/ ground = flatGround) ->
  let height := Vector3.y (position s) in
  let F := (1 - height / suspensionHeight c) * suspensionStiffness c * mass c * g981 / 4 in
  0 <= F ->
  let w' := suspensionOfWheel c s ground w in
  (height < suspensionHeight c + suspensionTravel c ->
     onGround w' = true /\ suspensionForce w' == F)
  /\ (suspensionHeight c + suspensionTravel c <= height ->
     onGround w' = false /\ suspensionForce w' == 0).
Proof.
  intros Hrot Hvel Hy Hg height F HF w'.
  unfold w', suspensionOfWheel. rewrite Hrot, Hvel.
  set (wheelPos := Vector3.add _ (position s)).
  set (groundHeight := match ground with Some f => _ | None => 0 end).
  assert (Hgh : groundHeight = 0).
  { unfold groundHeight. destruct Hg as [-> | ->]; reflexivity. }
  rewrite Hgh.
  assert (Hwy : Vector3.y wheelPos == height).
  { unfold wheelPos, height.
    destruct (applyTo_identity (wheelPosition w)) as (_ & Hy' & _).
    cbn [Vector3.add Vector3.y]. rewrite Hy', Hy. ring. }
  destruct (Qltb (Vector3.y wheelPos - 0) (suspensionHeight c + suspensionTravel c))
    eqn:E.
  - apply Qltb_true in E. split; [intros _ | intros Hge; lra].
    cbn [onGround suspensionForce]. split; [reflexivity|].
    assert (Hdot : Vector3.dot Vector3.zero
                     (Quaternion.applyTo Quaternion.identity (Vector3.mk 0 1 0)) == 0)
      by (unfold Vector3.dot; cbn; ring).
    rewrite Hdot.
    assert (Hin : (1 - (Vector3.y wheelPos - 0) / suspensionHeight c)
                   * suspensionStiffness c * mass c * g981 / 4
                   - 0 * suspensionDamping c == F).
    { unfold F. rewrite Hwy. unfold Qminus, Qdiv. ring. }
    rewrite Hin. apply Q.max_r. exact HF.
  - apply Qltb_false in E. split; [intros Hlt; lra | intros _].
    cbn [onGround suspensionForce]. split; reflexivity.
Qed.

Lemma totalSuspensionForce_uniform (u : Vector3.t) (ws : list Wheel) (F : Q) :
  Forall (fun w => onGround w = true -> suspensionForce w == F) ws ->
  Vector3.eqv (totalSuspensionForce u ws)
    (Vector3.multiplyScalar u (inject_Z (Z.of_nat (wheelsOnGround ws)) * F)).
Proof.
  intros Hall. unfold totalSuspensionForce.
  assert (Hgen : forall acc,
    Vector3.eqv
      (fold_left (fun acc w =>
         if onGround w
         then Vector3.add acc (Vector3.multiplyScalar u (suspensionForce w))
         else acc) ws acc)
      (Vector3.add acc
         (Vector3.multiplyScalar u (inject_Z (Z.of_nat (wheelsOnGround ws)) * F)))).
  { induction Hall as [|w ws Hw Hws IH]; intros acc.
    - unfold Vector3.eqv. cbn. repeat split; ring.
    - cbn [fold_left]. unfold wheelsOnGround. cbn [List.filter].
      destruct (onGround w) eqn:Eg.
      + specialize (Hw eq_refl).
        destruct (IH (Vector3.add acc (Vector3.multiplyScalar u (suspensionForce w))))
          as (Hx & Hy & Hz).
        fold (wheelsOnGround ws). cbn [List.length].
        rewrite Nat2Z.inj_succ. unfold Z.succ. rewrite inject_Z_plus.
        unfold wheelsOnGround in *.
        unfold Vector3.eqv. rewrite Hx, Hy, Hz. cbn. rewrite Hw.
        change (inject_Z 1) with 1. repeat split; ring.
      + apply IH. }
  destruct (Hgen Vector3.zero) as (Hx & Hy & Hz).
  unfold Vector3.eqv. rewrite Hx, Hy, Hz. cbn. repeat split; ring.
Qed.

Lemma wheelsOnGround_all (ws : list Wheel) :
  Forall (fun w => onGround w = true) ws -> wheelsOnGround ws = length ws.
Proof.
  unfold wheelsOnGround. induction 1 as [|w ws Hw _ IH]; [reflexivity|].
  cbn [List.filter]. rewrite Hw. cbn. f_equal. exact IH.
Qed.

(** The velocity after one update of a level vehicle that does not move
    and has no input, over flat ground. *)
Lemma rest_velocity (c : Config) (height deltaTime : Q)
    (ground : option (Q -> Q -> Q)) :
  ~ mass c == 0 ->
  (ground = None \/ ground = flatGround) ->
  let F := (1 - height / suspensionHeight c) * suspensionStiffness c * mass c * g981 / 4 in
  0 <= F ->
  height < suspensionHeight c + suspensionTravel c \/ F == 0 ->
  Vector3.eqv
    (velocity (state (update sqrtQ sinQ cosQ piQ (restingAt c height) deltaTime ground)))
    (Vector3.mk 0 ((- g981 * mass c + 4 * F) / mass c * Qmin deltaTime (1 # 10)) 0).
Proof.
  intros Hm Hg F HF Hcase.
  rewrite update_velocity.
  set (dt := Qmin deltaTime (1 # 10)).
  set (v1 := updateSuspension (restingAt c height) ground).
  assert (Hws : wheels (state v1)
                = map (suspensionOfWheel c (state (restingAt c height)) ground)
                      (wheels (initialState c))) by reflexivity.
  assert (Hlevel : forall w, In w (wheels (initialState c)) ->
            let w' := suspensionOfWheel c (state (restingAt c height)) ground w in
            (height < suspensionHeight c + suspensionTravel c ->
               onGround w' = true /\ suspensionForce w' == F)
            /\ (suspensionHeight c + suspensionTravel c <= height ->
               onGround w' = false /\ suspensionForce w' == 0)).
  { intros w Hin.
    apply (suspensionOfWheel_level c (state (restingAt c height)) ground w);
      [reflexivity | reflexivity | | exact Hg | exact HF].
    cbn in Hin. destruct Hin as [<-|[<-|[<-|[<-|[]]]]]; reflexivity. }
  assert (Hsum : Vector3.eqv
            (totalSuspensionForce
               (Quaternion.applyTo (rotation (state v1)) (Vector3.mk 0 1 0))
               (wheels (state v1)))
            (Vector3.mk 0 (4 * F) 0)).
  { set (u := Quaternion.applyTo (rotation (state v1)) (Vector3.mk 0 1 0)).
    assert (Hu : Vector3.x u == 0 /\ Vector3.y u == 1 /\ Vector3.z u == 0)
      by apply (applyTo_identity (Vector3.mk 0 1 0)).
    clearbody u. destruct Hu as (Hux & Huy & Huz).
    destruct Hcase as [Hlt | HF0].
    - destruct (totalSuspensionForce_uniform u (wheels (state v1)) F)
        as (Hx & Hy & Hz).
      { rewrite Hws. apply List.Forall_forall. intros w' Hin'.
        apply in_map_iff in Hin'. destruct Hin' as (w & <- & Hin).
        intros _. apply (Hlevel w Hin). exact Hlt. }
      rewrite wheelsOnGround_all in Hx, Hy, Hz.
      2,3,4: rewrite Hws; apply List.Forall_forall; intros w' Hin';
        apply in_map_iff in Hin'; destruct Hin' as (w & <- & Hin);
        apply (Hlevel w Hin); exact Hlt.
      assert (Hlen : length (wheels (state v1)) = 4%nat) by reflexivity.
      rewrite Hlen in Hx, Hy, Hz.
      unfold Vector3.eqv. rewrite Hx, Hy, Hz. cbn [Vector3.multiplyScalar Vector3.x Vector3.y Vector3.z].
      rewrite Hux, Huy, Huz. change (inject_Z (Z.of_nat 4)) with 4.
      repeat split; ring.
    - destruct (totalSuspensionForce_uniform u (wheels (state v1)) 0)
        as (Hx & Hy & Hz).
      { rewrite Hws. apply List.Forall_forall. intros w' Hin'.
        apply in_map_iff in Hin'. destruct Hin' as (w & <- & Hin).
        intros Hon.
        destruct (Qlt_le_dec height (suspensionHeight c + suspensionTravel c)) as [Hlt|Hge].
        + destruct (Hlevel w Hin) as [H1 _]. destruct (H1 Hlt) as [_ Hf].
          rewrite Hf. exact HF0.
        + destruct (Hlevel w Hin) as [_ H2]. destruct (H2 Hge) as [_ Hf]. exact Hf. }
      unfold Vector3.eqv. rewrite Hx, Hy, Hz. cbn [Vector3.multiplyScalar Vector3.x Vector3.y Vector3.z].
      rewrite HF0. repeat split; ring. }
  unfold applyForces.
  set (susp := totalSuspensionForce _ (wheels (state v1))) in *.
  clearbody susp.
  destruct Hsum as (Hsx & Hsy & Hsz).
  cbn [Vector3.x Vector3.y Vector3.z] in Hsx, Hsy, Hsz.
  change (velocity (state v1)) with Vector3.zero.
  change (throttle (state v1)) with 0.
  change (brake (state v1)) with 0.
  change (config v1) with c.
  change (Vector3.lengthSq Vector3.zero) with (0 * 0 + 0 * 0 + 0 * 0).
  change (Qltb 0 0) with false. cbn [andb].
  change (Qltb (1 # 10) (0 * 0 + 0 * 0 + 0 * 0)) with false. cbn [andb].
  set (fwd := Quaternion.applyTo (rotation (state v1)) (Vector3.mk 0 0 1)).
  set (grounded := wheelsOnGround (wheels (state v1))).
  clearbody fwd grounded.
  destruct (negb (Nat.eqb grounded 0));
    unfold Vector3.eqv; cbn [state velocity Vector3.add Vector3.multiplyScalar
      Vector3.divideScalar Vector3.zero Vector3.x Vector3.y Vector3.z];
    rewrite Hsx, Hsy, Hsz; repeat split; field; exact Hm.
Qed.

(** The suspension forces that [update] leaves on the wheels are those
    of its suspension pass. *)
Lemma update_suspensionForces (v : t) (deltaTime : Q) (ground : option (Q -> Q -> Q)) :
  map suspensionForce (wheels (state (update sqrtQ sinQ cosQ piQ v deltaTime ground)))
  = map suspensionForce
        (map (suspensionOfWheel (config v) (state v) ground) (wheels (state v))).
Proof.
  unfold update, applyForces, updateSuspension. cbn [state wheels set_wheels config].
  rewrite List.map_map. apply List.map_ext. intros w.
  destruct (onGround w); reflexivity.
Qed.

(** Outside its guard the steering return leaves the steering alone. *)
Lemma steeringReturnStep_idle (c : Config) (dt : Q) (grounded : nat) (st : Q) :
  grounded = 0%nat \/ Qabs st <= 1 # 100 ->
  steeringReturnStep c dt grounded st = st.
Proof.
  intros H. unfold steeringReturnStep. destruct H as [-> | H].
  - cbn [Nat.eqb negb]. rewrite andb_false_r. reflexivity.
  - apply Qltb_false in H. rewrite H. reflexivity.
Qed.

(** With a wheel on the ground the step either multiplies the steering
    by [1 - steeringReturn * dt] or leaves it within the dead zone. *)
Lemma steeringReturnStep_cases (c : Config) (dt : Q) (grounded : nat) (st : Q) :
  grounded <> 0%nat ->
  steeringReturnStep c dt grounded st == st * (1 - steeringReturn c * dt)
  \/ Qabs (steeringReturnStep c dt grounded st) <= 1 # 100.
Proof.
  intros Hg. unfold steeringReturnStep.
  assert (Eg : negb (Nat.eqb grounded 0) = true)
    by (apply negb_true_iff, Nat.eqb_neq, Hg).
  rewrite Eg, andb_true_r.
  destruct (Qltb (1 # 100) (Qabs st)) eqn:E.
  - destruct (Qltb (Qabs (st * (1 - steeringReturn c * dt))) (1 # 100)).
    + right. change (Qabs 0) with 0. lra.
    + left. reflexivity.
  - right. apply Qltb_false in E. exact E.
Qed.

Lemma updates_config (n : nat) (v : t) (deltaTime : Q) (ground : option (Q -> Q -> Q)) :
  config (updates sqrtQ sinQ cosQ piQ n v deltaTime ground) = config v.
Proof.
  revert v. induction n as [|n IH]; intros v; [reflexivity|].
  cbn [updates]. rewrite IH. apply update_config.
Qed.

(** Within the dead zone of 0.01 the steering stays where it is. *)
Lemma updates_steering_dead_zone (n : nat) (v : t) (deltaTime : Q)
    (ground : option (Q -> Q -> Q)) :
  Qabs (steering (state v)) <= 1 # 100 ->
  steering (state (updates sqrtQ sinQ cosQ piQ n v deltaTime ground))
  = steering (state v).
Proof.
  revert v. induction n as [|n IH]; intros v Hs; [reflexivity|].
  cbn [updates].
  assert (H1 : steering (state (update sqrtQ sinQ cosQ piQ v deltaTime ground))
               = steering (state v)).
  { rewrite update_steering. apply steeringReturnStep_idle. right. exact Hs. }
  rewrite IH; [exact H1|]. rewrite H1. exact Hs.
Qed.

(** Successive updates never enlarge the steering when the factor
    [1 - steeringReturn * dt] lies between -1 and 1. *)
Lemma updates_steering_abs (n : nat) (v : t) (deltaTime : Q)
    (ground : option (Q -> Q -> Q)) :
  0 <= steeringReturn (config v) * Qmin deltaTime (1 # 10) ->
  steeringReturn (config v) * Qmin deltaTime (1 # 10) <= 2 ->
  Qabs (steering (state (updates sqrtQ sinQ cosQ piQ n v deltaTime ground)))
  <= Qabs (steering (state v)).
Proof.
  revert v. induction n as [|n IH]; intros v H0 H2; [cbn [updates]; lra|].
  cbn [updates].
  set (v1 := update sqrtQ sinQ cosQ piQ v deltaTime ground).
  assert (Hc : config v1 = config v) by apply update_config.
  eapply Qle_trans; [apply IH; rewrite Hc; assumption|].
  unfold v1. rewrite update_steering. apply steeringReturnStep_abs; assumption.
Qed.

(** Successive updates with a wheel on the ground each time multiply the
    steering by [1 - steeringReturn * dt] each, until it is within the
    dead zone of 0.01. *)
Lemma updates_steering_geometric (n : nat) (v : t) (deltaTime : Q)
    (ground : option (Q -> Q -> Q)) :
  (forall k, (k < n)%nat ->
     groundedWheels (updates sqrtQ sinQ cosQ piQ k v deltaTime ground) ground <> 0%nat) ->
  steering (state (updates sqrtQ sinQ cosQ piQ n v deltaTime ground))
  == steering (state v)
     * (1 - steeringReturn (config v) * Qmin deltaTime (1 # 10)) ^ Z.of_nat n
  \/ Qabs (steering (state (updates sqrtQ sinQ cosQ piQ n v deltaTime ground)))
     <= 1 # 100.
Proof.
  revert v. induction n as [|n IH]; intros v Hg.
  - left. cbn [updates]. change (Z.of_nat 0) with 0%Z.
    rewrite Qpower_0_r, Qmult_1_r. reflexivity.
  - cbn [updates].
    set (v1 := update sqrtQ sinQ cosQ piQ v deltaTime ground).
    assert (Hc : config v1 = config v) by apply update_config.
    assert (Hg1 : forall k, (k < n)%nat ->
              groundedWheels (updates sqrtQ sinQ cosQ piQ k v1 deltaTime ground) ground
              <> 0%nat).
    { intros k Hk. apply (Hg (S k)). lia. }
    assert (Hg0 : groundedWheels v ground <> 0%nat) by (apply (Hg 0%nat); lia).
    assert (Hs1 : steering (state v1)
                  = steeringReturnStep (config v) (Qmin deltaTime (1 # 10))
                      (groundedWheels v ground) (steering (state v)))
      by apply update_steering.
    destruct (steeringReturnStep_cases (config v) (Qmin deltaTime (1 # 10))
                (groundedWheels v ground) (steering (state v)) Hg0) as [Hstep|Hdead].
    + destruct (IH v1 Hg1) as [Hl|Hr]; [left|right; exact Hr].
      rewrite Hc, Hs1 in Hl.
      set (f := 1 - steeringReturn (config v) * Qmin deltaTime (1 # 10)) in *.
      assert (Hp : f ^ Z.of_nat (S n) == f ^ Z.of_nat n * f).
      { rewrite Nat2Z.inj_succ. unfold Z.succ.
        rewrite Qpower_plus' by lia. rewrite Qpower_1_r. reflexivity. }
      rewrite Hp, Hl, Hstep. ring.
    + right. rewrite <- Hs1 in Hdead.
      rewrite (updates_steering_dead_zone n v1 deltaTime ground Hdead). exact Hdead.
Qed.

(** C5.  The steering scenario, evaluated: 24 [setControls] calls (0.4 s
    at 60 Hz) with a steering target of 1 and [steeringSpeed = 2.5] leave
    the steering at 24/25 = 0.96, not at 1; each call adds
    [2.5 * 0.016 = 0.04], so 1 is reached with the 25th call.  No call
    takes the steering above the target. *)
Theorem C5_steering_after_24_calls :
  steering (state (setControlsTimes 24 defaultVehicle steerRight)) == 24 # 25 /\
  ~ steering (state (setControlsTimes 24 defaultVehicle steerRight)) == 1 /\
  steering (state (setControlsTimes 25 defaultVehicle steerRight)) == 1 /\
  forall n, steering (state (setControlsTimes n defaultVehicle steerRight)) <= 1.
Proof.
  split; [vm_compute; reflexivity|].
  split; [vm_compute; discriminate|].
  split; [vm_compute; reflexivity|].
  intros n.
  assert (Hgen : forall v, config v = config defaultVehicle ->
            Qabs (steering (state v)) <= 1 ->
            Qabs (steering (state (setControlsTimes n v steerRight))) <= 1).
  { induction n as [|n IH]; intros v Hc Hs; [exact Hs|].
    cbn [setControlsTimes]. apply IH; [rewrite setControls_config; exact Hc|].
    rewrite setControls_steering. cbn [steerRight c_steering].
    apply approachSteering_unit; [|exact Hs].
    rewrite Hc. cbn. lra. }
  assert (H0 : Qabs (steering (state defaultVehicle)) <= 1)
    by (vm_compute; discriminate).
  apply (Hgen defaultVehicle eq_refl), Qabs_le_iff in H0. lra.
Qed.

(** C6 (as stated), refuted: the vehicle of the constructor stands at its
    rest suspension height with zero velocities and zero controls; one
    update of 1/60 s over flat ground gives it a velocity of
    [(0, -0.1635, 0)], so the magnitude grows from 0. *)
Lemma C6_counterexample :
  (1 # 60) <= (1 # 10) /\
  velocity (state defaultVehicle) = Vector3.zero /\
  Vector3.eqv (velocity (state (updateA defaultVehicle (1 # 60))))
              (Vector3.mk 0 (- (1635 # 10000)) 0) /\
  ~ Vector3.lengthSq (velocity (state (updateA defaultVehicle (1 # 60))))
    <= Vector3.lengthSq (velocity (state defaultVehicle)).
Proof.
  split; [lra|]. split; [reflexivity|].
  split; [vm_compute; repeat split; reflexivity|].
  vm_compute. intros H. apply H. reflexivity.
Qed.

(** C6 (amended).  A vehicle as the constructor builds it (level, zero
    velocities, zero controls, at its rest suspension height; its mass
    and its suspension height are not zero) over flat ground at height 0:
    at the rest height the springs are not compressed, so [update] leaves
    every wheel with suspension force 0, and the vehicle falls freely
    for the step: its velocity becomes [(0, -9.81 * min(dt, 0.1), 0)],
    of squared length [(9.81 * min(dt, 0.1))^2], for every [dt]. *)
Theorem C6_rest_height_free_fall (c : Config) (deltaTime : Q)
    (ground : option (Q -> Q -> Q)) :
  ~ suspensionHeight c == 0 -> ~ mass c == 0 ->
  (ground = None \/ ground = flatGround) ->
  let dt := Qmin deltaTime (1 # 10) in
  let v' := update sqrtQ sinQ cosQ piQ (new c) deltaTime ground in
  List.Forall (fun w => suspensionForce w == 0) (wheels (state v')) /\
  Vector3.eqv (velocity (state v')) (Vector3.mk 0 (- g981 * dt) 0) /\
  Vector3.lengthSq (velocity (state v')) == (g981 * dt) * (g981 * dt).
Proof.
  intros Hh Hm Hg dt v'.
  assert (E : (1 - suspensionHeight c / suspensionHeight c)
              * suspensionStiffness c * mass c * g981 / 4 == 0) by (field; exact Hh).
  assert (Hv : Vector3.eqv (velocity (state v')) (Vector3.mk 0 (- g981 * dt) 0)).
  { unfold v'. change (new c) with (restingAt c (suspensionHeight c)).
    destruct (rest_velocity c (suspensionHeight c) deltaTime ground Hm Hg)
      as (Hx & Hy & Hz).
    - rewrite E. lra.
    - right. exact E.
    - unfold Vector3.eqv. rewrite Hx, Hy, Hz. cbn [Vector3.x Vector3.y Vector3.z].
      repeat split; try reflexivity. fold dt. rewrite E. field. exact Hm. }
  split; [|split; [exact Hv|]].
  - apply (proj1 (List.Forall_map suspensionForce (fun q => q == 0) _)).
    unfold v'. rewrite update_suspensionForces.
    apply (proj2 (List.Forall_map suspensionForce (fun q => q == 0) _)).
    apply (proj2 (List.Forall_map _ (fun w => suspensionForce w == 0) _)).
    apply List.Forall_forall. intros w Hin.
    destruct (suspensionOfWheel_level c (state (new c)) ground w) as [Hlt Hge];
      [reflexivity | reflexivity | | exact Hg | rewrite E; lra |].
    { cbn in Hin. destruct Hin as [<-|[<-|[<-|[<-|[]]]]]; reflexivity. }
    change (config (new c)) with c.
    destruct (Qlt_le_dec (Vector3.y (position (state (new c))))
                (suspensionHeight c + suspensionTravel c)) as [H|H].
    + destruct (Hlt H) as [_ Hf]. rewrite Hf. exact E.
    + destruct (Hge H) as [_ Hf]. exact Hf.
  - destruct Hv as (Hx & Hy & Hz). unfold Vector3.lengthSq.
    rewrite Hx, Hy, Hz. cbn [Vector3.x Vector3.y Vector3.z]. ring.
Qed.

(** C10 (amended).  For a vehicle whose [steeringSpeed] is not negative
    and a step for which [steeringReturn * min(dt, 0.1)] lies in [0, 2]
    (the factor [1 - steeringReturn * dt] lies between -1 and 1), every
    operation keeps [|steering| <= 1].  [setControls] clamps the target
    to [-1, 1] and moves the steering toward it without passing it: the
    new value lies between the old one and the target, and its distance
    to the target is the old distance less [steeringSpeed * 0.016], or 0;
    without a steering input the steering is unchanged.  [update]
    multiplies the steering by [1 - steeringReturn * dt] when a wheel is
    on the ground and [|steering| > 0.01], sets it to exactly 0 when the
    product is below 0.01 in magnitude, and leaves it unchanged
    otherwise, so its magnitude never grows in [update].  Over [n]
    successive updates with a wheel on the ground and no [setControls]
    call the magnitude never grows, and the steering is the initial one
    times [(1 - steeringReturn * dt)^n] unless it has come within 0.01 of
    the centre. *)
Theorem C10_steering_bounded_and_self_centering
    (v : t) (controls : Controls) (deltaTime : Q)
    (ground : option (Q -> Q -> Q)) (n : nat) :
  let c := config v in
  let dt := Qmin deltaTime (1 # 10) in
  let d := steeringSpeed c * steeringFrameTime in
  let f := 1 - steeringReturn c * dt in
  0 <= steeringSpeed c ->
  0 <= steeringReturn c * dt -> steeringReturn c * dt <= 2 ->
  Qabs (steering (state v)) <= 1 ->
  (forall k, (k < n)%nat ->
     groundedWheels (updates sqrtQ sinQ cosQ piQ k v deltaTime ground) ground <> 0%nat) ->
  (Qabs (steering (state (setControls v controls))) <= 1 /\
   (c_steering controls = None ->
    steering (state (setControls v controls)) = steering (state v)) /\
   forall x, c_steering controls = Some x ->
     let target := Qmax (-1) (Qmin 1 x) in
     let s' := steering (state (setControls v controls)) in
     -1 <= target /\ target <= 1 /\
     Qmin (steering (state v)) target <= s' /\
     s' <= Qmax (steering (state v)) target /\
     Qabs (s' - target) == Qmax 0 (Qabs (steering (state v) - target) - d)) /\
  (let v' := update sqrtQ sinQ cosQ piQ v deltaTime ground in
   Qabs (steering (state v')) <= Qabs (steering (state v)) /\
   Qabs (steering (state v')) <= 1 /\
   (groundedWheels v ground <> 0%nat -> 1 # 100 < Qabs (steering (state v)) ->
    steering (state v')
    = let s' := steering (state v) * f in
      if Qltb (Qabs s') (1 # 100) then 0 else s') /\
   (groundedWheels v ground = 0%nat \/ Qabs (steering (state v)) <= 1 # 100 ->
    steering (state v') = steering (state v))) /\
  (let vn := updates sqrtQ sinQ cosQ piQ n v deltaTime ground in
   Qabs (steering (state vn)) <= Qabs (steering (state v)) /\
   (steering (state vn) == steering (state v) * f ^ Z.of_nat n \/
    Qabs (steering (state vn)) <= 1 # 100)).
Proof.
  intros c dt d f Hsp Hx0 Hx2 Hs Hg.
  split; [|split].
  - split; [|split].
    + rewrite setControls_steering. destruct (c_steering controls) as [x|].
      * apply approachSteering_unit; assumption.
      * exact Hs.
    + intros Hnone. rewrite setControls_steering, Hnone. reflexivity.
    + intros x Hx target s'. unfold s'. rewrite setControls_steering, Hx.
      destruct (clamp_unit x) as [HT1 HT2].
      destruct (approachSteering_between c (steering (state v)) x Hsp) as [Hlo Hhi].
      split; [exact HT1|]. split; [exact HT2|]. split; [exact Hlo|].
      split; [exact Hhi|].
      exact (approachSteering_distance c (steering (state v)) x Hsp).
  - intros v'. unfold v'. rewrite update_steering.
    assert (Hle : Qabs (steeringReturnStep (config v) (Qmin deltaTime (1 # 10))
                          (groundedWheels v ground) (steering (state v)))
                  <= Qabs (steering (state v)))
      by (apply steeringReturnStep_abs; assumption).
    split; [exact Hle|]. split; [eapply Qle_trans; eassumption|]. split.
    + intros Hgw Hbig. unfold steeringReturnStep.
      apply Qltb_true in Hbig. rewrite Hbig.
      assert (Eg : negb (Nat.eqb (groundedWheels v ground) 0) = true)
        by (apply negb_true_iff, Nat.eqb_neq, Hgw).
      rewrite Eg. reflexivity.
    + apply steeringReturnStep_idle.
  - intros vn. split.
    + apply updates_steering_abs; assumption.
    + apply updates_steering_geometric. exact Hg.
Qed.
End VehicleRest.

(** The default vehicle as the constructor builds it, one update of 1/60 s
    over flat ground. *)
Lemma C6_rest_height_free_fall_witness :
  Vector3.eqv
    (VehiclePhysics.velocity (VehiclePhysics.state
       (VehiclePhysics.updateA VehiclePhysics.defaultVehicle (1 # 60))))
    (Vector3.mk 0 (- VehiclePhysics.g981 * Qmin (1 # 60) (1 # 10)) 0).
Proof.
  assert (H1 : ~ VehiclePhysics.suspensionHeight
                   (VehiclePhysics.defaultConfig MathApprox.piA) == 0) by discriminate.
  assert (H2 : ~ VehiclePhysics.mass (VehiclePhysics.defaultConfig MathApprox.piA) == 0)
    by discriminate.
  exact (proj1 (proj2 (C6_rest_height_free_fall MathApprox.sqrtA MathApprox.sinA
                  MathApprox.cosA MathApprox.piA
                  (VehiclePhysics.defaultConfig MathApprox.piA) (1 # 60)
                  VehiclePhysics.flatGround H1 H2 (or_intror eq_refl)))).
Defined.

(** C10 (as stated), refuted at three inputs.  The default vehicle at
    full lock (steering 1, four wheels on the ground) and one update with
    the step -1: the factor is [1 - 1 * (-1) = 2] and the steering becomes
    2.  A vehicle built with [steeringReturn = 25], at full lock, and one
    update with the capped step 0.1: the factor is -1.5 and the steering
    becomes -1.5.  A vehicle built with [steeringSpeed = -2.5] and 26
    [setControls] calls with the steering input 1: every call moves the
    steering away from the target, to -1.04.  Each time the magnitude
    has grown beyond 1. *)
Lemma C10_counterexample :
  let v := VehiclePhysics.setControlsTimes 25 VehiclePhysics.defaultVehicle
             VehiclePhysics.steerRight in
  let w := VehiclePhysics.setControlsTimes 25
             (VehiclePhysics.new (VehiclePhysics.steeringConfig (5 # 2) 25))
             VehiclePhysics.steerRight in
  let u := VehiclePhysics.new (VehiclePhysics.steeringConfig (- (5 # 2)) 1) in
  (VehiclePhysics.steering (VehiclePhysics.state v) == 1 /\
   VehiclePhysics.groundedWheels v VehiclePhysics.flatGround = 4%nat /\
   VehiclePhysics.steering (VehiclePhysics.state (VehiclePhysics.updateA v (- 1))) == 2 /\
   ~ Qabs (VehiclePhysics.steering (VehiclePhysics.state (VehiclePhysics.updateA v (- 1))))
     <= 1) /\
  (VehiclePhysics.steering (VehiclePhysics.state w) == 1 /\
   VehiclePhysics.groundedWheels w VehiclePhysics.flatGround = 4%nat /\
   VehiclePhysics.steering (VehiclePhysics.state (VehiclePhysics.updateA w (1 # 10)))
     == - (3 # 2) /\
   ~ Qabs (VehiclePhysics.steering (VehiclePhysics.state (VehiclePhysics.updateA w (1 # 10))))
     <= 1) /\
  (VehiclePhysics.steering (VehiclePhysics.state u) == 0 /\
   VehiclePhysics.steering (VehiclePhysics.state
     (VehiclePhysics.setControlsTimes 26 u VehiclePhysics.steerRight)) == - (26 # 25) /\
   ~ Qabs (VehiclePhysics.steering (VehiclePhysics.state
             (VehiclePhysics.setControlsTimes 26 u VehiclePhysics.steerRight))) <= 1).
Proof.
  intros v w u. unfold VehiclePhysics.updateA. rewrite !update_steering.
  repeat match goal with |- _ /\ _ => split end;
    vm_compute; first [reflexivity | intros H; apply H; reflexivity].
Qed.

(** The default vehicle after ten steering inputs (steering 0.4), one
    update of 1/60 s over flat ground. *)
Lemma C10_steering_bounded_and_self_centering_witness :
  let v := VehiclePhysics.setControlsTimes 10 VehiclePhysics.defaultVehicle
             VehiclePhysics.steerRight in
  Qabs (VehiclePhysics.steering (VehiclePhysics.state
          (VehiclePhysics.update MathApprox.sqrtA MathApprox.sinA MathApprox.cosA
             MathApprox.piA v (1 # 60) VehiclePhysics.flatGround)))
  <= 1.
Proof.
  intros v.
  assert (H1 : 0 <= VehiclePhysics.steeringSpeed (VehiclePhysics.config v))
    by (vm_compute; discriminate).
  assert (H2 : 0 <= VehiclePhysics.steeringReturn (VehiclePhysics.config v)
                    * Qmin (1 # 60) (1 # 10))
    by (vm_compute; discriminate).
  assert (H3 : VehiclePhysics.steeringReturn (VehiclePhysics.config v)
               * Qmin (1 # 60) (1 # 10) <= 2)
    by (vm_compute; discriminate).
  assert (H5 : Qabs (VehiclePhysics.steering (VehiclePhysics.state v)) <= 1)
    by (vm_compute; discriminate).
  assert (Hg : forall k, (k < 1)%nat ->
            VehiclePhysics.groundedWheels
              (VehiclePhysics.updates MathApprox.sqrtA MathApprox.sinA MathApprox.cosA
                 MathApprox.piA k v (1 # 60) VehiclePhysics.flatGround)
              VehiclePhysics.flatGround <> 0%nat).
  { intros k Hk. destruct k as [|k]; [vm_compute; discriminate | lia]. }
  exact (proj1 (proj2 (proj1 (proj2
           (C10_steering_bounded_and_self_centering MathApprox.sqrtA MathApprox.sinA
              MathApprox.cosA MathApprox.piA v VehiclePhysics.steerRight (1 # 60)
              VehiclePhysics.flatGround 1 H1 H2 H3 H5 Hg))))).
Defined.

(** ** The collision system *)

Section CollisionFacts.
Import CollisionSystem.
Variable sqrtQ : Q -> Q.

Lemma foldM_inv {A B : Type} (Inv : A -> Prop) (f : A -> B -> option A)
    (l : list B) (a a' : A) :
  (forall x b x', Inv x -> f x b = Some x' -> Inv x') ->
  Inv a -> foldM f l a = Some a' -> Inv a'.
Proof.
  intros Hstep. unfold foldM.
  assert (Hgen : forall (acc : option A),
            (forall x, acc = Some x -> Inv x) ->
            fold_left (fun acc b => acc ≫= fun x => f x b) l acc = Some a' -> Inv a').
  { induction l as [|b l IH]; intros acc Hacc Hrun.
    - cbn in Hrun. apply Hacc, Hrun.
    - cbn [fold_left] in Hrun. apply (IH (acc ≫= fun x => f x b)); [|exact Hrun].
      intros x Hx. destruct acc as [y|]; cbn in Hx; [|discriminate].
      apply (Hstep y b x); [apply Hacc; reflexivity | exact Hx]. }
  intros Ha Hrun. apply (Hgen (Some a)); [|exact Hrun].
  intros x [= <-]. exact Ha.
Qed.

(** The default response leaves every collider as it is. *)
Lemma set_velocity_collider (o : Object3D) (v : Vector3.t) :
  collider (set_velocity o v) = collider o.
Proof. reflexivity. Qed.

Lemma insert_same_collider (os : list Object3D) (i : nat) (o o' : Object3D) :
  os !! i = Some o -> collider o' = collider o ->
  map collider (<[i := o']> os) = map collider os.
Proof.
  intros Hi Hc.
  change (collider <$> <[i := o']> os = collider <$> os).
  rewrite list_fmap_insert, Hc. apply list_insert_id.
  rewrite list_lookup_fmap, Hi. reflexivity.
Qed.

Lemma defaultCollisionResponse_colliders (os os' : list Object3D) (s o : nat)
    (p n : Vector3.t) :
  defaultCollisionResponse os s o p n = Some os' ->
  map collider os' = map collider os.
Proof.
  unfold defaultCollisionResponse. intros H.
  destruct (os !! s) as [oS|] eqn:ES; cbn in H; [|discriminate].
  destruct (os !! o) as [oO|] eqn:EO; cbn in H; [|discriminate].
  destruct (physics oS) as [pS|]; [|injection H as <-; reflexivity].
  destruct (physics oO) as [pO|]; [|injection H as <-; reflexivity].
  destruct (velocity pS) as [v1|]; cbn in H; [|discriminate].
  destruct (mass_or_infinity (mass pO)) as [m2|].
  - destruct (velocity pO) as [v2|]; cbn in H; [|discriminate].
    match type of H with
    | context [<[s := ?x]> os] => set (os1 := <[s := x]> os) in *
    end.
    assert (H1 : map collider os1 = map collider os)
      by (apply (insert_same_collider os s oS); [exact ES | reflexivity]).
    destruct (os1 !! o) as [oO1|] eqn:EO1; cbn in H; [|discriminate].
    injection H as <-.
    rewrite (insert_same_collider os1 o oO1); [exact H1 | exact EO1 | reflexivity].
  - injection H as <-.
    apply (insert_same_collider os s oS); [exact ES | reflexivity].
Qed.

Lemma lookup_same_collider (os os0 : list Object3D) (i : nat) (a : Object3D) :
  map collider os = map collider os0 -> os !! i = Some a ->
  exists a', os0 !! i = Some a' /\ collider a' = collider a.
Proof.
  intros Hmap Hi.
  assert (H : (collider <$> os0) !! i = Some (collider a)).
  { change (collider <$> os0) with (map collider os0). rewrite <- Hmap.
    change (map collider os) with (collider <$> os).
    rewrite list_lookup_fmap, Hi. reflexivity. }
  rewrite list_lookup_fmap in H.
  destruct (os0 !! i) as [a'|]; cbn in H; [|discriminate].
  exists a'. split; [reflexivity|]. congruence.
Qed.

Lemma contactNormal_collider (a b a' b' : Object3D) :
  collider a' = collider a -> collider b' = collider b ->
  contactNormal sqrtQ a' b' = contactNormal sqrtQ a b.
Proof. unfold contactNormal. intros -> ->. reflexivity. Qed.

Lemma trigger_inv (os0 : list Object3D) (w w' : list Object3D * list Call)
    (s o : nat) (p n : Vector3.t) :
  collisionInv sqrtQ os0 w ->
  passedByUpdate sqrtQ os0 (mkCall s o p n) ->
  trigger w s o p n = Some w' ->
  collisionInv sqrtQ os0 w'.
Proof.
  intros [Hmap Hcalls] Hcall. unfold trigger. intros H.
  destruct (w.1 !! s) as [oS|]; cbn in H; [|discriminate].
  destruct (onCollision (collider oS)) as [[|id]|].
  - destruct (defaultCollisionResponse w.1 s o p n) as [os'|] eqn:E;
      cbn in H; [|discriminate].
    injection H as <-. split; cbn [fst snd].
    + rewrite (defaultCollisionResponse_colliders _ _ _ _ _ _ E). exact Hmap.
    + apply List.Forall_app. split; [exact Hcalls|]. constructor; [exact Hcall|constructor].
  - injection H as <-. split; cbn [fst snd]; [exact Hmap|].
    apply List.Forall_app. split; [exact Hcalls|]. constructor; [exact Hcall|constructor].
  - injection H as <-. split; assumption.
Qed.

Lemma checkDynamic_inv (os0 : list Object3D) (i j : nat)
    (w w' : list Object3D * list Call) :
  collisionInv sqrtQ os0 w -> checkDynamic sqrtQ i w j = Some w' -> collisionInv sqrtQ os0 w'.
Proof.
  intros Hinv. unfold checkDynamic. intros H.
  destruct (w.1 !! i) as [objA|] eqn:EA; cbn in H; [|discriminate].
  destruct (w.1 !! j) as [objB|] eqn:EB; cbn in H; [|discriminate].
  destruct (overlap objA objB); [|injection H as <-; exact Hinv].
  destruct (lookup_same_collider _ _ _ _ (proj1 Hinv) EA) as (a0 & Ha0 & Hca).
  destruct (lookup_same_collider _ _ _ _ (proj1 Hinv) EB) as (b0 & Hb0 & Hcb).
  destruct (trigger w i j (contactPoint objA objB) (contactNormal sqrtQ objA objB))
    as [w1|] eqn:E1; cbn in H; [|discriminate].
  assert (Hinv1 : collisionInv sqrtQ os0 w1).
  { eapply trigger_inv; [exact Hinv| |exact E1].
    exists a0, b0. cbn. repeat split; try assumption.
    left. symmetry. apply contactNormal_collider; assumption. }
  eapply trigger_inv; [exact Hinv1| |exact H].
  exists b0, a0. cbn. repeat split; try assumption.
  right. f_equal. symmetry. apply contactNormal_collider; assumption.
Qed.

Lemma checkStatic_inv (os0 : list Object3D) (i k : nat)
    (w w' : list Object3D * list Call) :
  collisionInv sqrtQ os0 w -> checkStatic sqrtQ i w k = Some w' -> collisionInv sqrtQ os0 w'.
Proof.
  intros Hinv. unfold checkStatic. intros H.
  destruct (w.1 !! i) as [objA|] eqn:EA; cbn in H; [|discriminate].
  destruct (w.1 !! k) as [objS|] eqn:ES; cbn in H; [|discriminate].
  destruct (overlap objA objS); [|injection H as <-; exact Hinv].
  destruct (lookup_same_collider _ _ _ _ (proj1 Hinv) EA) as (a0 & Ha0 & Hca).
  destruct (lookup_same_collider _ _ _ _ (proj1 Hinv) ES) as (s0 & Hs0 & Hcs).
  eapply trigger_inv; [exact Hinv| |exact H].
  exists a0, s0. cbn. repeat split; try assumption.
  left. symmetry. apply contactNormal_collider; assumption.
Qed.

Lemma checkFrom_inv (os0 : list Object3D) (cs statics : list nat)
    (w w' : list Object3D * list Call) :
  collisionInv sqrtQ os0 w -> checkFrom sqrtQ cs statics w = Some w' -> collisionInv sqrtQ os0 w'.
Proof.
  revert w. induction cs as [|i later IH]; intros w Hinv H.
  - injection H as <-. exact Hinv.
  - cbn [checkFrom] in H.
    destruct (foldM (checkDynamic sqrtQ i) later w) as [w1|] eqn:E1;
      cbn in H; [|discriminate].
    destruct (foldM (checkStatic sqrtQ i) statics w1) as [w2|] eqn:E2;
      cbn in H; [|discriminate].
    apply (IH w2); [|exact H].
    apply (foldM_inv (collisionInv sqrtQ os0) _ _ _ _
             (fun x b x' Hx Hf => checkStatic_inv os0 i b x x' Hx Hf)
             (foldM_inv (collisionInv sqrtQ os0) _ _ _ _
                (fun x b x' Hx Hf => checkDynamic_inv os0 i b x x' Hx Hf) Hinv E1)
             E2).
Qed.

(** Every callback invocation of one [update] pass receives the origin as
    the collision point, and as the normal the normalised direction
    between the two bounding-sphere centres (from the first to the second
    object of the pair; negated for the second object's callback). *)
Lemma update_calls (cs cs' : CollisionSystem.t) (deltaTime : Q) (calls : list Call) :
  update sqrtQ cs deltaTime = Some (cs', calls) ->
  List.Forall (passedByUpdate sqrtQ (updateColliders sqrtQ (objects cs) (colliders cs))) calls.
Proof.
  unfold update. intros H.
  destruct (checkFrom sqrtQ (colliders cs) (staticColliders cs)
              (updateColliders sqrtQ (objects cs) (colliders cs), []))
    as [w|] eqn:E; cbn in H; [|discriminate].
  injection H as _ <-.
  refine (proj2 (checkFrom_inv _ _ _ _ _ _ E)).
  split; [reflexivity | constructor].
Qed.

Lemma num_or_pos (m d : Q) : 0 < m -> num_or m d = m.
Proof.
  intros Hm. unfold num_or.
  destruct (Qeq_bool m 0) eqn:E; [|reflexivity].
  apply Qeq_bool_iff in E. lra.
Qed.

Lemma mass_or_infinity_pos (m : Q) : 0 < m -> mass_or_infinity (Some m) = Some m.
Proof.
  intros Hm. unfold mass_or_infinity.
  destruct (Qeq_bool m 0) eqn:E; [|reflexivity].
  apply Qeq_bool_iff in E. lra.
Qed.

(** One invocation of the default response on two distinct dynamic
    objects with positive masses scales their total momentum by 0.8,
    whatever the normal is. *)
Lemma defaultCollisionResponse_momentum (os : list Object3D) (s o : nat)
    (oS oO : Object3D) (v1 v2 : Vector3.t) (m1 m2 : Q) (p n : Vector3.t) :
  s <> o ->
  os !! s = Some oS -> os !! o = Some oO ->
  physics oS = Some (mkPhysics (Some v1) (Some m1)) ->
  physics oO = Some (mkPhysics (Some v2) (Some m2)) ->
  0 < m1 -> 0 < m2 ->
  exists os' P P',
    defaultCollisionResponse os s o p n = Some os' /\
    momentum os s o = Some P /\ momentum os' s o = Some P' /\
    Vector3.eqv P' (Vector3.multiplyScalar P (8 # 10)).
Proof.
  intros Hne HS HO HpS HpO Hm1 Hm2.
  assert (Hls : (s < length os)%nat) by (apply lookup_lt_is_Some; eauto).
  assert (Hlo : (o < length os)%nat) by (apply lookup_lt_is_Some; eauto).
  unfold defaultCollisionResponse, momentum.
  rewrite HS, HO. cbn [mbind option_bind]. rewrite HpS, HpO.
  cbn [mbind option_bind velocity mass default opt_num_or].
  rewrite (mass_or_infinity_pos m2 Hm2), !(num_or_pos _ _ Hm1), (num_or_pos _ _ Hm2).
  match goal with
  | |- context [<[s := ?x]> os] => set (oS' := x)
  end.
  assert (HO1 : <[s := oS']> os !! o = Some oO)
    by (rewrite list_lookup_insert_ne; [exact HO | exact Hne]).
  rewrite HO1. cbn [mbind option_bind].
  match goal with
  | |- context [<[o := ?x]> (<[s := oS']> os)] => set (oO' := x)
  end.
  eexists _, _, _. split; [reflexivity|]. split; [reflexivity|].
  assert (HS' : <[o := oO']> (<[s := oS']> os) !! s = Some oS').
  { rewrite list_lookup_insert_ne by congruence.
    apply list_lookup_insert_eq. exact Hls. }
  assert (HO' : <[o := oO']> (<[s := oS']> os) !! o = Some oO').
  { apply list_lookup_insert_eq. rewrite length_insert. exact Hlo. }
  rewrite HS', HO'. cbn [mbind option_bind].
  unfold oS', oO', set_velocity. rewrite HpS, HpO.
  cbn [physics velocity mass mbind option_bind opt_num_or].
  rewrite !(num_or_pos _ _ Hm1), (num_or_pos _ _ Hm2).
  split; [reflexivity|].
  unfold Vector3.eqv, Vector3.dot.
  cbn [Vector3.add Vector3.sub Vector3.multiplyScalar Vector3.x Vector3.y Vector3.z].
  unfold id. split; [|split]; field; lra.
Qed.
End CollisionFacts.

Section CollisionClaims.
Import CollisionSystem.

(** C3.  The pass over the two overlapping boxes, evaluated: the centres
    are (1, 1/2, 1) and (2, 1/2, 1), so the midpoint is (3/2, 1/2, 1), but
    both callbacks receive the origin as the collision point; the normals
    they receive are the normalised direction between the centres,
    (1, 0, 0) for A and its negation for B. *)
Theorem C3_collision_point_is_origin :
  exists (cs' : CollisionSystem.t) (a b : Object3D) (calls : list Call),
    update MathApprox.sqrtA pairCustom (1 # 60) = Some (cs', calls) /\
    objects cs' !! 0%nat = Some a /\ objects cs' !! 1%nat = Some b /\
    overlap a b = true /\
    Vector3.eqv (midpoint a b) (Vector3.mk (3 # 2) (1 # 2) 1) /\
    map (fun c => (self c, other c, collisionPoint c)) calls
    = [(0%nat, 1%nat, Vector3.zero); (1%nat, 0%nat, Vector3.zero)] /\
    ~ Vector3.eqv Vector3.zero (midpoint a b) /\
    List.Forall2 Vector3.eqv (map collisionNormal calls)
      [Vector3.mk 1 0 0; Vector3.mk (-1) 0 0].
Proof.
  eexists _, _, _, _.
  split; [vm_compute; reflexivity|].
  split; [reflexivity|]. split; [reflexivity|].
  split; [vm_compute; reflexivity|].
  split; [vm_compute; repeat split; reflexivity|].
  split; [reflexivity|].
  split; [vm_compute; intros (H & _); discriminate|].
  repeat constructor; vm_compute; reflexivity.
Qed.

(** C4.  The pass over the same two boxes with the default response on
    both sides, evaluated.  Before: A (mass 2) moves at (3, 0, 0), B
    (mass 1) is at rest, total momentum (6, 0, 0).  The response runs once
    as A's callback and once more as B's callback, each time on both
    bodies; after the pass the velocities are 0.64 times the old ones
    ((48/25, 0, 0) and 0) and the total momentum is (96/25, 0, 0), which
    is 0.64 and not 0.8 times the old one.  B's normal is the negation of
    A's. *)
Theorem C4_momentum_after_one_pass :
  exists (cs' : CollisionSystem.t) (calls : list Call) (P P' vA vB : Vector3.t),
    update MathApprox.sqrtA pairDefault (1 # 60) = Some (cs', calls) /\
    momentum (objects pairDefault) 0 1 = Some P /\
    momentum (objects cs') 0 1 = Some P' /\
    velocityOf (objects cs') 0 = Some vA /\
    velocityOf (objects cs') 1 = Some vB /\
    Vector3.eqv P (Vector3.mk 6 0 0) /\
    Vector3.eqv P' (Vector3.mk (96 # 25) 0 0) /\
    Vector3.eqv P' (Vector3.multiplyScalar P (64 # 100)) /\
    ~ Vector3.eqv P' (Vector3.multiplyScalar P (8 # 10)) /\
    Vector3.eqv vA (Vector3.mk (48 # 25) 0 0) /\
    Vector3.eqv vB Vector3.zero /\
    exists nA nB,
      map (fun c => (self c, other c, collisionNormal c)) calls
      = [(0%nat, 1%nat, nA); (1%nat, 0%nat, nB)] /\
      nB = Vector3.negate nA.
Proof.
  eexists _, _, _, _, _, _.
  split; [vm_compute; reflexivity|].
  split; [vm_compute; reflexivity|].
  split; [vm_compute; reflexivity|].
  split; [vm_compute; reflexivity|].
  split; [vm_compute; reflexivity|].
  split; [vm_compute; repeat split; reflexivity|].
  split; [vm_compute; repeat split; reflexivity|].
  split; [vm_compute; repeat split; reflexivity|].
  split; [vm_compute; intros (H & _); discriminate|].
  split; [vm_compute; repeat split; reflexivity|].
  split; [vm_compute; repeat split; reflexivity|].
  eexists _, _. split; reflexivity.
Qed.

(** The same response invoked once, as the specification words it:
    momentum (6, 0, 0) becomes (24/5, 0, 0), 0.8 times the old one. *)
Example defaultCollisionResponse_once :
  exists os' P',
    defaultCollisionResponse (objects pairDefault) 0 1 Vector3.zero (Vector3.mk 1 0 0)
    = Some os' /\
    momentum os' 0 1 = Some P' /\
    Vector3.eqv P' (Vector3.mk (24 # 5) 0 0).
Proof.
  eexists _, _. split; [vm_compute; reflexivity|].
  split; [vm_compute; reflexivity|]. vm_compute. repeat split; reflexivity.
Qed.
End CollisionClaims.

(** ** The checkpoint and lap state machine *)

Section CheckpointFacts.
Import CheckpointSystem.

(** Projections of the updated records. *)
Ltac cp_simpl :=
  cbn [checkpoints startFinishLine currentCheckpoint laps totalLaps lapTimes
       currentLapTime bestLapTime raceStartTime raceTime isRaceStarted
       isRaceFinished onLapCompleted onCheckpointPassed onRaceFinished
       set_times set_progress raceFinished fst snd mbind option_bind] in *.

(** The proximity test on squares agrees with the test of the source,
    [distanceTo(...) < 10], for every square-root function that returns
    the non-negative root of the squared distance at hand. *)
Lemma isVehicleAtCheckpoint_distance (sqrtQ : Q -> Q) (p : Vector3.t) (cp : Checkpoint) :
  let d2 := Vector3.distanceToSquared p (position cp) in
  0 <= sqrtQ d2 -> sqrtQ d2 * sqrtQ d2 == d2 ->
  Qltb (Vector3.distanceTo sqrtQ p (position cp)) 10 = isVehicleAtCheckpoint p cp.
Proof.
  intros d2 Hnn Hsq. unfold isVehicleAtCheckpoint, Vector3.distanceTo. fold d2.
  set (r := sqrtQ d2) in *.
  destruct (Qltb d2 100) eqn:E.
  - apply Qltb_true in E. apply Qltb_true. nra.
  - apply Qltb_false in E. apply Qltb_false. nra.
Qed.

Lemma alloc_readArray (h : JS.Heap) (xs : list Q) :
  JS.readArray (JS.alloc h (JS.ArrayCell xs)).2 (JS.alloc h (JS.ArrayCell xs)).1
  = Some xs.
Proof.
  unfold JS.alloc, JS.readArray. cbv zeta. cbn [fst snd].
  rewrite lookup_insert_eq. reflexivity.
Qed.

Lemma alloc_fresh (h : JS.Heap) (c : JS.Cell) : h !! (JS.alloc h c).1 = None.
Proof.
  unfold JS.alloc. cbv zeta. cbn [fst]. apply not_elem_of_dom. apply is_fresh.
Qed.

Lemma alloc_old (h : JS.Heap) (c : JS.Cell) (l : JS.loc) :
  is_Some (h !! l) -> (JS.alloc h c).2 !! l = h !! l.
Proof.
  intros Hl. pose proof (alloc_fresh h c) as Hf.
  unfold JS.alloc in *. cbv zeta in *. cbn [fst snd] in *.
  apply lookup_insert_ne. intros <-.
  rewrite Hf in Hl. destruct Hl as [? ?]. discriminate.
Qed.

(** [startRace] leaves the system at checkpoint 0 of lap 0 with a new,
    empty [lapTimes] array. *)
Lemma startRace_state (s : t) (h : JS.Heap) (now0 : Q) :
  let r := startRace s h now0 in
  checkpoints r.1 = checkpoints s /\ currentCheckpoint r.1 = 0%nat /\
  laps r.1 = 0%Z /\ isRaceStarted r.1 = true /\ isRaceFinished r.1 = false /\
  JS.readArray r.2 (lapTimes r.1) = Some [].
Proof.
  unfold startRace, reset.
  pose proof (alloc_readArray h []) as Ha.
  destruct (JS.alloc h (JS.ArrayCell [])) as [l h'] eqn:E.
  cbn [fst snd] in *. repeat split; try reflexivity. exact Ha.
Qed.

Lemma startRace_beforeFirstCrossing (s : t) (h : JS.Heap) (now0 : Q) :
  beforeFirstCrossing (startRace s h now0).1 (startRace s h now0).2.
Proof.
  destruct (startRace_state s h now0) as (_ & Hc & Hl & _ & _ & Ha).
  split; [exact Ha|]. intros i cp _ _. rewrite Hc, Hl. split; [lia|reflexivity].
Qed.

(** A call of [update] that does not cross a start/finish checkpoint
    returns, leaves the store alone and fires no lap-completed event. *)
Lemma update_quiet (s : t) (h : JS.Heap) (k : Tick) :
  beforeFirstCrossing s h ->
  crossesStartFinish s k = false ->
  exists s' ev,
    update s h (now k) (deltaTime k) (vehiclePosition k) = Some (s', h, ev) /\
    beforeFirstCrossing s' h /\
    forallb (fun e => negb (isLapCompleted e)) ev = true.
Proof.
  intros Hb Hq. pose proof Hb as [Harr Hsf]. unfold update, crossesStartFinish in *.
  destruct (isRaceStarted s) eqn:Est; cbn [negb orb andb] in *;
    [|exists s, []; split; [reflexivity | split; [exact Hb | reflexivity]]].
  destruct (isRaceFinished s) eqn:Efin; cbn [negb orb andb] in *;
    [exists s, []; split; [reflexivity | split; [exact Hb | reflexivity]]|].
  set (s1 := set_times s _ _).
  change (checkpoints s1) with (checkpoints s).
  change (currentCheckpoint s1) with (currentCheckpoint s).
  assert (Hb1 : beforeFirstCrossing s1 h) by exact Hb.
  destruct (checkpoints s !! currentCheckpoint s) as [cp|] eqn:Ecp;
    [|exists s1, []; split; [reflexivity | split; [exact Hb1 | reflexivity]]].
  destruct (isVehicleAtCheckpoint (vehiclePosition k) cp); cbn [andb] in Hq;
    [|exists s1, []; split; [reflexivity | split; [exact Hb1 | reflexivity]]].
  unfold checkpointPassed. subst s1. cp_simpl.
  rewrite Ecp. cp_simpl. rewrite Hq. cbn [andb]. cp_simpl.
  assert (Hlt : (currentCheckpoint s < length (checkpoints s))%nat)
    by (apply lookup_lt_is_Some; eauto).
  destruct (Nat.eqb ((currentCheckpoint s + 1) mod length (checkpoints s)) 0) eqn:Ewrap.
  - (* the round ends here: no start/finish checkpoint in the list *)
    apply Nat.eqb_eq in Ewrap.
    assert (Hnone : forall i cp', checkpoints s !! i = Some cp' ->
              isStartFinish cp' = true -> False).
    { intros i cp' Hi Hcp'. destruct (Hsf i cp' Hi Hcp') as [Hle _].
      assert (Hi' : (i < length (checkpoints s))%nat)
        by (apply lookup_lt_is_Some; eauto).
      assert (Hne : i <> currentCheckpoint s) by (intros ->; congruence).
      rewrite Nat.mod_small in Ewrap by lia. lia. }
    destruct (Z.leb (totalLaps s) (laps s + 1)); eexists _, _;
      (split; [reflexivity|]);
      (split; [split; [exact Harr | intros i cp' Hi Hcp'; destruct (Hnone i cp' Hi Hcp')]|]);
      cbn; destruct (onCheckpointPassed s); cbn; try destruct (onRaceFinished s);
      reflexivity.
  - apply Nat.eqb_neq in Ewrap.
    eexists _, _. split; [reflexivity|]. split.
    + split; [exact Harr|]. intros i cp' Hi Hcp'. cp_simpl.
      destruct (Hsf i cp' Hi Hcp') as [Hle Hl].
      assert (Hi' : (i < length (checkpoints s))%nat)
        by (apply lookup_lt_is_Some; eauto).
      assert (Hne : i <> currentCheckpoint s) by (intros ->; congruence).
      rewrite Nat.mod_small by lia. split; [lia | exact Hl].
    + cbn. destruct (onCheckpointPassed s); reflexivity.
Qed.

(** A run without a start/finish crossing returns and keeps the system
    before its first crossing. *)
Lemma run_quiet (ticks : list Tick) (s : t) (h : JS.Heap) :
  beforeFirstCrossing s h ->
  noStartFinishCrossing s h ticks = true ->
  exists s' ev,
    run s h ticks = Some (s', h, ev) /\
    beforeFirstCrossing s' h /\
    forallb (fun e => negb (isLapCompleted e)) ev = true.
Proof.
  revert s. induction ticks as [|k rest IH]; intros s Hb Hq.
  - exists s, []. split; [reflexivity | split; [exact Hb | reflexivity]].
  - cbn [noStartFinishCrossing] in Hq. apply andb_true_iff in Hq as [Hk Hrest].
    apply negb_true_iff in Hk.
    destruct (update_quiet s h k Hb Hk) as (s1 & ev1 & Hup & Hb1 & Hev1).
    rewrite Hup in Hrest.
    destruct (IH s1 Hb1 Hrest) as (s2 & ev2 & Hrun & Hb2 & Hev2).
    exists s2, (ev1 ++ ev2). cbn [run]. rewrite Hup. cbn [mbind option_bind].
    rewrite Hrun. cbn [mbind option_bind].
    split; [reflexivity|]. split; [exact Hb2|].
    rewrite forallb_app, Hev1, Hev2. reflexivity.
Qed.

Lemma push_readArray (h : JS.Heap) (l : JS.loc) (xs : list Q) (x : Q) :
  JS.readArray h l = Some xs ->
  exists h', JS.push h l x = Some h' /\ JS.readArray h' l = Some (xs ++ [x]).
Proof.
  intros Hr. unfold JS.push. rewrite Hr. cbn [mbind option_bind].
  eexists. split; [reflexivity|]. unfold JS.readArray.
  rewrite lookup_insert_eq. reflexivity.
Qed.

(** One update that passes the current checkpoint [cp]: what becomes of
    the progress fields, of the recorded lap times and of the best lap. *)
Lemma update_crossing (s : t) (h : JS.Heap) (k : Tick) (cp : Checkpoint) (xs : list Q) :
  isRaceStarted s = true -> isRaceFinished s = false ->
  checkpoints s !! currentCheckpoint s = Some cp ->
  isVehicleAtCheckpoint (vehiclePosition k) cp = true ->
  JS.readArray h (lapTimes s) = Some xs ->
  let next := ((currentCheckpoint s + 1) mod length (checkpoints s))%nat in
  let closes := isStartFinish cp && Z.ltb 0 (laps s) in
  let new := if closes then [currentLapTime s + deltaTime k] else [] in
  exists s' h' ev,
    update s h (now k) (deltaTime k) (vehiclePosition k) = Some (s', h', ev) /\
    checkpoints s' = checkpoints s /\ totalLaps s' = totalLaps s /\
    lapTimes s' = lapTimes s /\ onLapCompleted s' = onLapCompleted s /\
    isRaceStarted s' = true /\
    currentCheckpoint s' = next /\
    laps s' = (if Nat.eqb next 0 then laps s + 1 else laps s)%Z /\
    isRaceFinished s' = Nat.eqb next 0 && Z.leb (totalLaps s) (laps s + 1) /\
    JS.readArray h' (lapTimes s') = Some (xs ++ new) /\
    bestLapTime s' = bestOf (bestLapTime s) new /\
    length (List.filter isLapCompleted ev)
    = (if closes && onLapCompleted s then 1 else 0)%nat.
Proof.
  intros Hst Hfin Hcp Hat Harr. cbv zeta.
  unfold update. rewrite Hst, Hfin. cbn [negb orb]. cp_simpl.
  rewrite Hcp, Hat. unfold checkpointPassed. cp_simpl. rewrite Hcp. cp_simpl.
  destruct (isStartFinish cp && Z.ltb 0 (laps s)) eqn:Ecl.
  - destruct (push_readArray h (lapTimes s) xs (currentLapTime s + deltaTime k) Harr)
      as (h' & Hpush & Hread).
    unfold lapCompleted. cp_simpl. rewrite Hpush. cp_simpl. rewrite Hread. cp_simpl.
    set (next := ((currentCheckpoint s + 1) mod length (checkpoints s))%nat).
    clearbody next.
    destruct (Nat.eqb next 0) eqn:En; cp_simpl.
    + destruct (Z.leb (totalLaps s) (laps s + 1)) eqn:El; cp_simpl;
        eexists _, _, _; (split; [reflexivity|]); cp_simpl;
        repeat (split; [first [reflexivity | exact Hst | exact Hread | exact Hfin]|]);
        rewrite andb_true_l; destruct (onLapCompleted s), (onCheckpointPassed s);
        cbn; try destruct (onRaceFinished s); reflexivity.
    + eexists _, _, _; (split; [reflexivity|]); cp_simpl;
        repeat (split; [first [reflexivity | exact Hst | exact Hread | exact Hfin]|]);
        rewrite andb_true_l; destruct (onLapCompleted s), (onCheckpointPassed s);
        reflexivity.
  - cp_simpl. rewrite app_nil_r.
    set (next := ((currentCheckpoint s + 1) mod length (checkpoints s))%nat).
    clearbody next.
    destruct (Nat.eqb next 0) eqn:En; cp_simpl.
    + destruct (Z.leb (totalLaps s) (laps s + 1)) eqn:El; cp_simpl;
        eexists _, _, _; (split; [reflexivity|]); cp_simpl;
        repeat (split; [first [reflexivity | exact Hst | exact Harr | exact Hfin]|]);
        destruct (onCheckpointPassed s); cbn; try destruct (onRaceFinished s);
        reflexivity.
    + eexists _, _, _; (split; [reflexivity|]); cp_simpl;
        repeat (split; [first [reflexivity | exact Hst | exact Harr | exact Hfin]|]);
        destruct (onCheckpointPassed s); reflexivity.
Qed.

Lemma bestOf_app (b : option Q) (xs ys : list Q) :
  bestOf b (xs ++ ys) = bestOf (bestOf b xs) ys.
Proof. unfold bestOf. apply fold_left_app. Qed.

(** The best lap is the smallest of the earlier best and the times. *)
Lemma bestOf_min (xs : list Q) (b : option Q) :
  match bestOf b xs with
  | Some m => (b = Some m \/ In m xs)
              /\ (forall b', b = Some b' -> m <= b')
              /\ List.Forall (fun x => m <= x) xs
  | None => b = None /\ xs = []
  end.
Proof.
  revert b. induction xs as [|x xs IH]; intros b.
  - cbn. destruct b as [m|]; [|split; reflexivity].
    split; [left; reflexivity|]. split; [|constructor].
    intros b' [= <-]. lra.
  - change (bestOf b (x :: xs))
      with (bestOf (match b with
                    | None => Some x
                    | Some b' => if Qltb x b' then Some x else Some b'
                    end) xs).
    specialize (IH (match b with
                    | None => Some x
                    | Some b' => if Qltb x b' then Some x else Some b'
                    end)).
    destruct (bestOf _ xs) as [m|]; [|destruct b as [b'|]; [destruct (Qltb x b')|];
                                       destruct IH; discriminate].
    destruct IH as (Hin & Hle & Hall).
    destruct b as [b'|].
    + destruct (Qltb x b') eqn:E.
      * apply Qltb_true in E. assert (Hmx := Hle x eq_refl).
        split; [destruct Hin as [[= <-]|Hin]; [right; left; reflexivity | right; right; exact Hin]|].
        split; [intros b'' [= <-]; lra | constructor; assumption].
      * apply Qltb_false in E. assert (Hmb := Hle b' eq_refl).
        split; [destruct Hin as [[= <-]|Hin]; [left; reflexivity | right; right; exact Hin]|].
        split; [intros b'' [= <-]; lra | constructor; [lra | assumption]].
    + assert (Hmx := Hle x eq_refl).
      split; [destruct Hin as [[= <-]|Hin]; [right; left; reflexivity | right; right; exact Hin]|].
      split; [intros b'' [=] | constructor; assumption].
Qed.

(** The rest of a race.  The system is at checkpoint [c] of a round with
    [m] more rounds to go before [laps] reaches [totalLaps]; the ticks pass
    the remaining checkpoints in order.  The race then ends finished, and
    the lap times recorded on the way are one per start/finish crossing
    with [laps > 0]: [m] of them, and one more when the run starts on the
    line with a lap already counted. *)
Lemma run_laps (ticks : list Tick) :
  forall (s : t) (h : JS.Heap) (c m : nat) (xs : list Q),
    startFinishFirst (checkpoints s) ->
    isRaceStarted s = true -> isRaceFinished s = false ->
    currentCheckpoint s = c -> (c < length (checkpoints s))%nat ->
    (0 <= laps s)%Z ->
    totalLaps s = (laps s + 1 + Z.of_nat m)%Z ->
    JS.readArray h (lapTimes s) = Some xs ->
    visits ticks (drop c (checkpoints s) ++ concat (replicate m (checkpoints s))) ->
    exists s' h' ev xs',
      run s h ticks = Some (s', h', ev) /\
      isRaceFinished s' = true /\ laps s' = totalLaps s /\
      JS.readArray h' (lapTimes s') = Some (xs ++ xs') /\
      length xs' = (m + (if Nat.eqb c 0 && Z.ltb 0 (laps s) then 1 else 0))%nat /\
      bestLapTime s' = bestOf (bestLapTime s) xs' /\
      length (List.filter isLapCompleted ev)
      = (if onLapCompleted s then length xs' else 0)%nat.
Proof.
  induction ticks as [|k rest IH]; intros s h c m xs Hsf Hst Hfin Hc Hlt Hl0 Htot Harr Hvis.
  - exfalso. destruct (lookup_lt_is_Some_2 _ _ Hlt) as [cp Hcp].
    rewrite (drop_S _ _ _ Hcp) in Hvis. inversion Hvis.
  - destruct (lookup_lt_is_Some_2 _ _ Hlt) as [cp Hcp].
    rewrite (drop_S _ _ _ Hcp) in Hvis. cbn [app] in Hvis.
    inversion Hvis as [|k' cp' rest' tl Hat Hrest]; subst k' cp' rest' tl.
    rewrite <- Hc in Hcp.
    destruct (update_crossing s h k cp xs Hst Hfin Hcp Hat Harr)
      as (s1 & h1 & ev1 & Hup & Hcps & Htl & Hlt1 & Hon & Hst1 & Hcur & Hlaps & Hfin1
          & Harr1 & Hbest1 & Hev1).
    rewrite Hc in Hcp. rewrite (Hsf c cp Hcp) in *. rewrite Hc in *.
    set (new := if Nat.eqb c 0 && Z.ltb 0 (laps s)
                then [currentLapTime s + deltaTime k] else []) in *.
    assert (Hnew : length new = if Nat.eqb c 0 && Z.ltb 0 (laps s) then 1%nat else 0%nat)
      by (unfold new; destruct (Nat.eqb c 0 && Z.ltb 0 (laps s)); reflexivity).
    cbn [run]. rewrite Hup. cbn [mbind option_bind].
    destruct (Nat.lt_ge_cases (S c) (length (checkpoints s))) as [Hin|Hlast].
    + (* inside the round *)
      replace (c + 1)%nat with (S c) in * by lia.
      rewrite Nat.mod_small in Hcur, Hlaps, Hfin1 by exact Hin.
      cbn [Nat.eqb andb] in Hlaps, Hfin1.
      assert (P1 : startFinishFirst (checkpoints s1)) by (rewrite Hcps; exact Hsf).
      assert (P2 : (S c < length (checkpoints s1))%nat) by (rewrite Hcps; exact Hin).
      assert (P3 : (0 <= laps s1)%Z) by lia.
      assert (P4 : totalLaps s1 = (laps s1 + 1 + Z.of_nat m)%Z) by lia.
      assert (P5 : visits rest (drop (S c) (checkpoints s1)
                                ++ concat (replicate m (checkpoints s1))))
        by (rewrite Hcps; exact Hrest).
      destruct (IH s1 h1 (S c) m (xs ++ new) P1 Hst1 Hfin1 Hcur P2 P3 P4 Harr1 P5)
        as (s' & h' & ev & xs' & Hrun & Hf & Hl & Ha & Hn & Hb & He).
      rewrite Hrun. cbn [mbind option_bind].
      exists s', h', (ev1 ++ ev), (new ++ xs').
      split; [reflexivity|]. split; [exact Hf|]. split; [congruence|].
      split; [rewrite app_assoc; exact Ha|].
      split; [rewrite length_app, Hn, Hnew; cbn [Nat.eqb andb]; lia|].
      split; [rewrite bestOf_app, <- Hbest1; exact Hb|].
      rewrite List.filter_app, length_app, Hev1, He, Hon, length_app, Hnew.
      destruct (Nat.eqb c 0 && Z.ltb 0 (laps s)), (onLapCompleted s); reflexivity.
    + (* the last checkpoint of the round *)
      assert (HN : S c = length (checkpoints s)) by lia.
      replace (c + 1)%nat with (length (checkpoints s)) in * by lia.
      rewrite Nat.Div0.mod_same in Hcur, Hlaps, Hfin1.
      cbn [Nat.eqb andb] in Hlaps, Hfin1.
      rewrite HN, drop_all in Hrest. cbn [app] in Hrest.
      destruct m as [|m'].
      * (* the race ends here *)
        cbn in Hrest. inversion Hrest; subst rest.
        cbn [run mbind option_bind].
        exists s1, h1, (ev1 ++ []), new.
        split; [reflexivity|].
        split; [rewrite Hfin1; apply Z.leb_le; lia|]. split; [lia|].
        split; [exact Harr1|]. split; [rewrite Hnew; reflexivity|].
        split; [exact Hbest1|].
        rewrite app_nil_r, Hev1, Hnew.
        destruct (Nat.eqb c 0 && Z.ltb 0 (laps s)), (onLapCompleted s); reflexivity.
      * (* one more round, starting on the line *)
        cbn [replicate concat] in Hrest.
        assert (P1 : startFinishFirst (checkpoints s1)) by (rewrite Hcps; exact Hsf).
        assert (P0 : isRaceFinished s1 = false)
          by (rewrite Hfin1; apply Z.leb_gt; lia).
        assert (P2 : (0 < length (checkpoints s1))%nat) by (rewrite Hcps; lia).
        assert (P3 : (0 <= laps s1)%Z) by lia.
        assert (P4 : totalLaps s1 = (laps s1 + 1 + Z.of_nat m')%Z) by lia.
        assert (P5 : visits rest (drop 0 (checkpoints s1)
                                  ++ concat (replicate m' (checkpoints s1))))
          by (rewrite Hcps, drop_0; exact Hrest).
        destruct (IH s1 h1 0%nat m' (xs ++ new) P1 Hst1 P0 Hcur P2 P3 P4 Harr1 P5)
          as (s' & h' & ev & xs' & Hrun & Hf & Hl & Ha & Hn & Hb & He).
        rewrite Hrun. cbn [mbind option_bind].
        assert (Hpos : Z.ltb 0 (laps s1) = true) by (apply Z.ltb_lt; lia).
        exists s', h', (ev1 ++ ev), (new ++ xs').
        split; [reflexivity|]. split; [exact Hf|]. split; [congruence|].
        split; [rewrite app_assoc; exact Ha|].
        split; [rewrite length_app, Hn, Hnew, Hpos; cbn [Nat.eqb andb]; lia|].
        split; [rewrite bestOf_app, <- Hbest1; exact Hb|].
        rewrite List.filter_app, length_app, Hev1, He, Hon, length_app, Hnew.
        destruct (Nat.eqb c 0 && Z.ltb 0 (laps s)), (onLapCompleted s); reflexivity.
Qed.

(** A whole race on a track with the line at checkpoint 0: passing all
    checkpoints in order [totalLaps] times ends the race, with
    [totalLaps - 1] lap times recorded (the last lap is never closed:
    the race is finished when the index wraps, before the line is
    crossed again), and with [bestLapTime] the smallest of these and of
    the best lap the system had before [startRace]. *)
Lemma race_lap_times (s : t) (h : JS.Heap) (now0 : Q) (ticks : list Tick) (n : nat) :
  startFinishFirst (checkpoints s) -> checkpoints s <> [] ->
  totalLaps s = Z.of_nat (S n) ->
  visits ticks (concat (replicate (S n) (checkpoints s))) ->
  exists s' h' ev xs,
    run (startRace s h now0).1 (startRace s h now0).2 ticks = Some (s', h', ev) /\
    isRaceFinished s' = true /\ laps s' = totalLaps s /\
    JS.readArray h' (lapTimes s') = Some xs /\ length xs = n /\
    bestLapTime s' = bestOf (bestLapTime s) xs /\
    length (List.filter isLapCompleted ev) = (if onLapCompleted s then n else 0)%nat.
Proof.
  intros Hsf Hne Htot Hvis.
  destruct (startRace_state s h now0) as (Hcps & Hcur & Hlaps & Hst & Hfin & Harr).
  set (s0 := (startRace s h now0).1) in *. set (h0 := (startRace s h now0).2) in *.
  assert (Hlen : (0 < length (checkpoints s0))%nat).
  { rewrite Hcps. destruct (checkpoints s); [congruence | cbn; lia]. }
  assert (Htot0 : totalLaps s0 = (laps s0 + 1 + Z.of_nat n)%Z).
  { change (totalLaps s0) with (totalLaps s). rewrite Htot, Hlaps. lia. }
  assert (P1 : startFinishFirst (checkpoints s0)) by (rewrite Hcps; exact Hsf).
  assert (P3 : (0 <= laps s0)%Z) by (rewrite Hlaps; lia).
  assert (P5 : visits ticks (drop 0 (checkpoints s0)
                             ++ concat (replicate n (checkpoints s0))))
    by (rewrite Hcps, drop_0; exact Hvis).
  destruct (run_laps ticks s0 h0 0%nat n [] P1 Hst Hfin Hcur Hlen P3 Htot0 Harr P5)
    as (s' & h' & ev & xs & Hrun & Hf & Hl & Ha & Hn & Hb & He).
  exists s', h', ev, xs. split; [exact Hrun|]. split; [exact Hf|].
  split; [exact Hl|]. split; [exact Ha|].
  rewrite Hlaps in Hn. cbn in Hn. rewrite Nat.add_0_r in Hn.
  split; [exact Hn|]. split; [exact Hb|].
  rewrite He, Hn. reflexivity.
Qed.

(** C1.  The two-lap scenario on four checkpoints, evaluated.  The vehicle
    is fed to checkpoints 0,1,2,3,0,1,2,3,0.  The race is not finished
    after the 7th update and is finished after the 8th (passing
    checkpoint 3 wraps the index and raises [laps] to 2); the 9th update
    is already a no-op.  After the 9 updates [lapTimes] holds one entry
    (the first lap, 5 s), not two; [bestLapTime] is that entry; one
    lap-completed and one race-finished event have fired; a 10th update
    changes nothing and fires nothing. *)
Theorem C1_two_lap_scenario :
  let s0 := (started track4 2).1 in
  let h0 := (started track4 2).2 in
  exists s7 h7 ev7 s8 h8 ev8 s9 h9 ev9,
    run s0 h0 (take 7 ticks9) = Some (s7, h7, ev7) /\ isRaceFinished s7 = false /\
    run s0 h0 (take 8 ticks9) = Some (s8, h8, ev8) /\ isRaceFinished s8 = true /\
    run s0 h0 ticks9 = Some (s9, h9, ev9) /\ isRaceFinished s9 = true /\
    (s9, h9, ev9) = (s8, h8, ev8) /\
    laps s9 = 2%Z /\ totalLaps s9 = 2%Z /\
    JS.readArray h9 (lapTimes s9) = Some [5] /\
    bestLapTime s9 = Some 5 /\
    List.filter isLapOrRaceEvent ev9
    = [LapCompleted 1 5 (Some 5); RaceFinished (8000 / 1000) (lapTimes s9) (Some 5)] /\
    update s9 h9 (now tick10) (deltaTime tick10) (vehiclePosition tick10)
    = Some (s9, h9, []).
Proof.
  intros s0 h0.
  eexists _, _, _, _, _, _, _, _, _.
  split; [vm_compute; reflexivity|]. split; [reflexivity|].
  split; [vm_compute; reflexivity|]. split; [reflexivity|].
  split; [vm_compute; reflexivity|]. split; [reflexivity|].
  split; [reflexivity|].
  split; [reflexivity|]. split; [reflexivity|].
  split; [vm_compute; reflexivity|]. split; [reflexivity|].
  split; [vm_compute; reflexivity|].
  vm_compute. reflexivity.
Qed.

(** [reset()] does not clear [bestLapTime]: after the race above,
    [startRace] gives an empty [lapTimes] and keeps the best lap of 5 s. *)
Example bestLapTime_survives_startRace :
  exists s9 h9 ev9,
    run (started track4 2).1 (started track4 2).2 ticks9 = Some (s9, h9, ev9) /\
    bestLapTime (startRace s9 h9 20000).1 = Some 5 /\
    JS.readArray (startRace s9 h9 20000).2 (lapTimes (startRace s9 h9 20000).1)
    = Some [].
Proof.
  eexists _, _, _. split; [vm_compute; reflexivity|].
  split; [reflexivity | vm_compute; reflexivity].
Qed.

(** C7 (as stated), refuted: on a track whose only checkpoint is the
    start/finish line, the first crossing after [startRace] wraps the
    checkpoint index and the laps counter becomes 1. *)
Lemma C7_counterexample :
  let s0 := (started track1 3).1 in
  let h0 := (started track1 3).2 in
  let k := tickAt 1 3 in
  laps s0 = 0%Z /\
  crossesStartFinish s0 k = true /\
  exists s1 h1 ev1,
    update s0 h0 (now k) (deltaTime k) (vehiclePosition k) = Some (s1, h1, ev1) /\
    laps s1 = 1%Z /\ laps s1 <> 0%Z.
Proof.
  intros s0 h0 k. split; [reflexivity|]. split; [vm_compute; reflexivity|].
  eexists _, _, _. split; [vm_compute; reflexivity|].
  split; [reflexivity | discriminate].
Qed.

(** C7 (amended).  After [startRace], through any updates that cross no
    start/finish checkpoint, the first crossing of a start/finish
    checkpoint closes no lap: [laps] is 0 when it happens, [lapTimes]
    stays empty and no lap-completed event has fired or fires.  The laps
    counter stays 0 at that crossing when the checkpoint crossed is not the
    last one of the list (as with the start/finish line at index 0 of two
    or more checkpoints); when it is the last one, the index wraps and
    the counter becomes 1. *)
Theorem C7_first_crossing_closes_no_lap (s : t) (h : JS.Heap) (now0 : Q)
    (pre : list Tick) (k : Tick) :
  let s0 := (startRace s h now0).1 in
  let h0 := (startRace s h now0).2 in
  noStartFinishCrossing s0 h0 pre = true ->
  exists s1 ev1,
    run s0 h0 pre = Some (s1, h0, ev1) /\
    (crossesStartFinish s1 k = true ->
     exists s2 ev2,
       update s1 h0 (now k) (deltaTime k) (vehiclePosition k) = Some (s2, h0, ev2) /\
       laps s1 = 0%Z /\
       JS.readArray h0 (lapTimes s2) = Some [] /\
       forallb (fun e => negb (isLapCompleted e)) (ev1 ++ ev2) = true /\
       laps s2 = (if (currentCheckpoint s1 + 1 <? length (checkpoints s1))%nat
                  then 0 else 1)%Z).
Proof.
  intros s0 h0 Hpre.
  destruct (run_quiet pre s0 h0 (startRace_beforeFirstCrossing s h now0) Hpre)
    as (s1 & ev1 & Hrun & Hb1 & Hev1).
  exists s1, ev1. split; [exact Hrun|]. intros Hk.
  destruct Hb1 as [Harr Hsf].
  unfold crossesStartFinish in Hk.
  destruct (isRaceStarted s1) eqn:Est; [|discriminate].
  destruct (isRaceFinished s1) eqn:Efin; [discriminate|].
  destruct (checkpoints s1 !! currentCheckpoint s1) as [cp|] eqn:Ecp; [|discriminate].
  cbn [negb andb] in Hk. apply andb_true_iff in Hk as [Hat Hcp].
  destruct (Hsf _ _ Ecp Hcp) as [_ Hl].
  assert (Hlt : (currentCheckpoint s1 < length (checkpoints s1))%nat)
    by (apply lookup_lt_is_Some; eauto).
  unfold update. rewrite Est, Efin. cbn [negb orb]. cp_simpl.
  rewrite Ecp, Hat. unfold checkpointPassed. cp_simpl.
  rewrite Ecp. cp_simpl. rewrite Hcp, Hl. cbn [andb Z.ltb Z.compare]. cp_simpl.
  destruct (Nat.ltb_spec (currentCheckpoint s1 + 1) (length (checkpoints s1)))
    as [Hin|Hlast].
  - rewrite Nat.mod_small by exact Hin.
    replace (Nat.eqb (currentCheckpoint s1 + 1) 0) with false
      by (symmetry; apply Nat.eqb_neq; lia).
    eexists _, _. split; [reflexivity|]. cp_simpl. rewrite ?Hl.
    split; [reflexivity|]. split; [exact Harr|]. split; [|reflexivity].
    rewrite forallb_app, Hev1. cbn. destruct (onCheckpointPassed s1); reflexivity.
  - replace (currentCheckpoint s1 + 1)%nat with (length (checkpoints s1)) by lia.
    rewrite Nat.Div0.mod_same. cbn [Nat.eqb]. cp_simpl.
    destruct (Z.leb (totalLaps s1) (laps s1 + 1)); eexists _, _;
      (split; [reflexivity|]); cp_simpl; rewrite ?Hl;
      (split; [reflexivity|]); (split; [exact Harr|]); (split; [|reflexivity]);
      rewrite forallb_app, Hev1; cbn;
      destruct (onCheckpointPassed s1); cbn; try destruct (onRaceFinished s1);
      reflexivity.
Qed.

(** The same for the track of four checkpoints: an update far from the
    line, then the first crossing. *)
Lemma C7_first_crossing_closes_no_lap_witness :
  let s0 := (startRace (initialised track4 2).1 (initialised track4 2).2 0).1 in
  let h0 := (startRace (initialised track4 2).1 (initialised track4 2).2 0).2 in
  let k := tickAt 2 3 in
  exists s1 ev1 s2 ev2,
    run s0 h0 [tickAt 1 50] = Some (s1, h0, ev1) /\
    update s1 h0 (now k) (deltaTime k) (vehiclePosition k) = Some (s2, h0, ev2) /\
    laps s2 = 0%Z /\ JS.readArray h0 (lapTimes s2) = Some [].
Proof.
  intros s0 h0 k.
  destruct (C7_first_crossing_closes_no_lap (initialised track4 2).1
              (initialised track4 2).2 0 [tickAt 1 50] k)
    as (s1 & ev1 & Hrun & Hcross); [vm_compute; reflexivity|].
  fold s0 h0 in Hrun, Hcross.
  assert (Hs1 : Some (s1, h0, ev1) = run s0 h0 [tickAt 1 50]) by (symmetry; exact Hrun).
  vm_compute in Hs1. injection Hs1 as Hs1 _.
  destruct Hcross as (s2 & ev2 & Hup & _ & Harr & _ & Hlaps).
  { rewrite Hs1. vm_compute. reflexivity. }
  exists s1, ev1, s2, ev2. split; [exact Hrun|]. split; [exact Hup|].
  split; [|exact Harr]. rewrite Hlaps, Hs1. reflexivity.
Defined.

(** C9.  With no checkpoint at [currentCheckpoint] (an empty list, or an
    index without an entry), [update] raises no error, fires no event and
    leaves the store and the whole progression state as they are; while
    the race is started and not finished it writes [raceTime] and
    [currentLapTime] and nothing else, otherwise it changes nothing. *)
Theorem C9_update_without_checkpoint (s : t) (h : JS.Heap) (clock dt : Q)
    (pos : Vector3.t) :
  checkpoints s !! currentCheckpoint s = None ->
  exists s',
    update s h clock dt pos = Some (s', h, []) /\
    currentCheckpoint s' = currentCheckpoint s /\ laps s' = laps s /\
    lapTimes s' = lapTimes s /\ bestLapTime s' = bestLapTime s /\
    isRaceFinished s' = isRaceFinished s /\ isRaceStarted s' = isRaceStarted s /\
    checkpoints s' = checkpoints s /\ totalLaps s' = totalLaps s /\
    s' = (if isRaceStarted s && negb (isRaceFinished s)
          then set_times s ((clock - raceStartTime s) / 1000) (currentLapTime s + dt)
          else s).
Proof.
  intros Hnone. unfold update.
  destruct (isRaceStarted s) eqn:Est; cbn [negb orb andb];
    [|exists s; rewrite Est; repeat split; reflexivity].
  destruct (isRaceFinished s) eqn:Efin; cbn [negb orb andb];
    [exists s; rewrite Est, Efin; repeat split; reflexivity|].
  cp_simpl. rewrite Hnone.
  eexists. split; [reflexivity|]. cp_simpl. rewrite Est, Efin.
  repeat split; reflexivity.
Qed.

(** A started race on an empty checkpoint list. *)
Lemma C9_update_without_checkpoint_witness :
  let s0 := (started [] 3).1 in
  let h0 := (started [] 3).2 in
  exists s', update s0 h0 1000 1 Vector3.zero = Some (s', h0, [])
             /\ laps s' = laps s0 /\ currentLapTime s' = 0 + 1.
Proof.
  intros s0 h0.
  destruct (C9_update_without_checkpoint s0 h0 1000 1 Vector3.zero eq_refl)
    as (s' & Hup & _ & Hl & _ & _ & _ & _ & _ & _ & Hs').
  exists s'. split; [exact Hup|]. split; [exact Hl|].
  rewrite Hs'. reflexivity.
Defined.
End CheckpointFacts.

(** ** The race-state snapshots *)

Section SnapshotFacts.
Import CheckpointSystem.

Lemma alloc_readObject (h : JS.Heap) (o : gmap string JS.Value) :
  JS.readObject (JS.alloc h (JS.ObjectCell o)).2 (JS.alloc h (JS.ObjectCell o)).1
  = Some o.
Proof.
  unfold JS.alloc, JS.readObject. cbv zeta. cbn [fst snd].
  rewrite lookup_insert_eq. reflexivity.
Qed.

Lemma raceStateLiteral_lapTimes (s : t) :
  raceStateLiteral s !! "lapTimes" = Some (JS.VRef (lapTimes s)).
Proof. reflexivity. Qed.

(** C2 (as stated), refuted: after the first lap [lapTimes] is [[5]].
    Two snapshots are taken with no update in between and 99 is pushed
    onto the [lapTimes] of the first one; the array of the system and
    the [lapTimes] of the second snapshot then read [[5; 99]]. *)
Lemma C2_counterexample :
  let s := afterFirstLap.1 in
  let h := afterFirstLap.2 in
  let o1 := (getRaceState s h).1 in
  let h1 := (getRaceState s h).2 in
  let o2 := (getRaceState s h1).1 in
  let h2 := (getRaceState s h1).2 in
  JS.readArray h2 (lapTimes s) = Some [5] /\
  exists a1 a2 h3,
    JS.getProp h2 o1 "lapTimes" = Some (JS.VRef a1) /\
    JS.getProp h2 o2 "lapTimes" = Some (JS.VRef a2) /\
    JS.push h2 a1 99 = Some h3 /\
    JS.readArray h3 (lapTimes s) = Some [5; 99] /\
    JS.readArray h3 a2 = Some [5; 99] /\
    JS.readArray h3 (lapTimes s) <> JS.readArray h2 (lapTimes s).
Proof.
  intros s h o1 h1 o2 h2.
  split; [vm_compute; reflexivity|].
  eexists _, _, _.
  split; [vm_compute; reflexivity|]. split; [vm_compute; reflexivity|].
  split; [vm_compute; reflexivity|]. split; [vm_compute; reflexivity|].
  split; [vm_compute; reflexivity|]. vm_compute. discriminate.
Qed.

(** C2 (amended).  [getRaceState()] returns a new object each time: two
    calls with no update in between give two distinct objects with equal
    properties and leave the rest of the store alone, and assigning a
    property of one returned snapshot changes neither the other snapshot
    nor anything else in the store.  The snapshot is shallow: its
    [lapTimes] property is the system's own array in both snapshots, so a
    [push] onto it through a snapshot is a push onto the array of the
    state machine.  [GameScene.getRaceState()] likewise copies the
    properties of [raceState] into a new object, references included. *)
Theorem C2_getRaceState_shallow_snapshot (s : t) (h : JS.Heap) (xs : list Q) :
  JS.readArray h (lapTimes s) = Some xs ->
  let o1 := (getRaceState s h).1 in
  let h1 := (getRaceState s h).2 in
  let o2 := (getRaceState s h1).1 in
  let h2 := (getRaceState s h1).2 in
  (o1 <> o2 /\ h !! o1 = None /\ h !! o2 = None /\
   JS.readObject h2 o1 = Some (raceStateLiteral s) /\
   JS.readObject h2 o2 = Some (raceStateLiteral s) /\
   forall l, is_Some (h !! l) -> h2 !! l = h !! l) /\
  (forall (k : string) (v : JS.Value),
     exists h3, JS.setProp h2 o1 k v = Some h3 /\
                JS.readObject h3 o2 = Some (raceStateLiteral s) /\
                forall l, l <> o1 -> h3 !! l = h2 !! l) /\
  (JS.getProp h2 o1 "lapTimes" = Some (JS.VRef (lapTimes s)) /\
   JS.getProp h2 o2 "lapTimes" = Some (JS.VRef (lapTimes s)) /\
   JS.readArray h2 (lapTimes s) = Some xs /\
   forall x, exists h3, JS.push h2 (lapTimes s) x = Some h3 /\
                        JS.readArray h3 (lapTimes s) = Some (xs ++ [x])) /\
  (forall (g : GameScene.t) (props : gmap string JS.Value),
     JS.readObject h (GameScene.raceState g) = Some props ->
     exists o h', GameScene.getRaceState g h = Some (o, h') /\
                  h !! o = None /\ JS.readObject h' o = Some props /\
                  forall l, is_Some (h !! l) -> h' !! l = h !! l).
Proof.
  intros Harr o1 h1 o2 h2.
  assert (Hf1 : h !! o1 = None) by apply alloc_fresh.
  assert (Hf2 : h1 !! o2 = None) by apply alloc_fresh.
  assert (Ho1 : h1 !! o1 = Some (JS.ObjectCell (raceStateLiteral s))).
  { unfold h1, o1, getRaceState, JS.alloc. cbv zeta. cbn [fst snd].
    apply lookup_insert_eq. }
  assert (Hne : o1 <> o2) by (intros E; rewrite <- E, Ho1 in Hf2; discriminate).
  assert (Hh1 : forall l, l <> o1 -> h1 !! l = h !! l).
  { intros l Hl. unfold h1, o1, getRaceState, JS.alloc. cbv zeta. cbn [fst snd].
    apply lookup_insert_ne. intros E. apply Hl. symmetry. exact E. }
  assert (Hh2 : forall l, l <> o2 -> h2 !! l = h1 !! l).
  { intros l Hl. unfold h2, o2, getRaceState, JS.alloc. cbv zeta. cbn [fst snd].
    apply lookup_insert_ne. intros E. apply Hl. symmetry. exact E. }
  assert (Ho2 : h2 !! o2 = Some (JS.ObjectCell (raceStateLiteral s))).
  { unfold h2, o2, getRaceState, JS.alloc. cbv zeta. cbn [fst snd].
    apply lookup_insert_eq. }
  assert (Hf2' : h !! o2 = None) by (rewrite <- (Hh1 o2) by congruence; exact Hf2).
  assert (Hold : forall l, is_Some (h !! l) -> h2 !! l = h !! l).
  { intros l [c Hl].
    assert (l <> o1) by (intros ->; congruence).
    assert (l <> o2) by (intros ->; congruence).
    rewrite Hh2, Hh1 by assumption. reflexivity. }
  assert (Hr1 : JS.readObject h2 o1 = Some (raceStateLiteral s)).
  { unfold JS.readObject. rewrite Hh2, Ho1 by exact Hne. reflexivity. }
  assert (Hr2 : JS.readObject h2 o2 = Some (raceStateLiteral s)).
  { unfold JS.readObject. rewrite Ho2. reflexivity. }
  assert (Hlt : h2 !! lapTimes s = Some (JS.ArrayCell xs)).
  { unfold JS.readArray in Harr.
    destruct (h !! lapTimes s) as [[ys|]|] eqn:E; try discriminate.
    injection Harr as ->. rewrite Hold by (rewrite E; eauto). exact E. }
  split; [|split; [|split]].
  - repeat split; assumption.
  - intros k v. unfold JS.setProp. rewrite Hr1. cbn [mbind option_bind].
    eexists. split; [reflexivity|]. split.
    + unfold JS.readObject. rewrite lookup_insert_ne by exact Hne.
      rewrite Ho2. reflexivity.
    + intros l Hl. apply lookup_insert_ne. intros E. apply Hl. symmetry. exact E.
  - unfold JS.getProp. rewrite Hr1, Hr2. cbn [mbind option_bind].
    rewrite raceStateLiteral_lapTimes. cbn [default].
    split; [reflexivity|]. split; [reflexivity|].
    assert (Hra : JS.readArray h2 (lapTimes s) = Some xs)
      by (unfold JS.readArray; rewrite Hlt; reflexivity).
    split; [exact Hra|]. intros x. unfold JS.push. rewrite Hra.
    cbn [mbind option_bind]. eexists. split; [reflexivity|].
    unfold JS.readArray. rewrite lookup_insert_eq. reflexivity.
  - intros g props Hg. unfold GameScene.getRaceState, JS.spread.
    rewrite Hg. cbn [mbind option_bind].
    eexists _, _. split; [rewrite <- surjective_pairing; reflexivity|].
    split; [apply alloc_fresh|]. split; [apply alloc_readObject|].
    intros l Hl. apply alloc_old. exact Hl.
Qed.

(** Two snapshots of the system after its first lap. *)
Lemma C2_getRaceState_shallow_snapshot_witness :
  let s := afterFirstLap.1 in
  let h := afterFirstLap.2 in
  (getRaceState s h).1 <> (getRaceState s (getRaceState s h).2).1.
Proof.
  intros s h.
  assert (Harr : JS.readArray h (lapTimes s) = Some [5]) by (vm_compute; reflexivity).
  exact (proj1 (proj1 (C2_getRaceState_shallow_snapshot s h [5] Harr))).
Defined.
End SnapshotFacts.

(** * GameLoop: start and stop, callback removal, the accumulator over frames *)

Section GameLoopMore.
Import GameLoop.

Lemma fixedCalls_app l1 l2 : fixedCalls (l1 ++ l2) = (fixedCalls l1 + fixedCalls l2)%nat.
Proof. unfold fixedCalls. rewrite fixedArgs_app. apply length_app. Qed.

Lemma fixedCalls_fixedRounds n cbs step :
  fixedCalls (fixedRounds n cbs step) = (n * length cbs)%nat.
Proof. unfold fixedCalls. rewrite fixedArgs_fixedRounds. apply length_replicate. Qed.

Lemma fixedCalls_invokeAll_other ph cbs arg :
  ph <> FixedUpdate -> fixedCalls (invokeAll ph cbs arg) = 0%nat.
Proof. intros H. unfold fixedCalls. rewrite fixedArgs_invokeAll_other by exact H. reflexivity. Qed.

(** What a frame of a running loop leaves, given the outcome of its
    fixed-update loop. *)
Lemma onFrame_running fuel g timestamp handle acc2 fixed :
  isRunning g = true ->
  fixedUpdateLoop fuel (fixedTimeStep g) (fixedUpdateCallbacks g)
    (accumulatedTime g
     + Qmin (timestamp / 1000 - lastTime g) (maxDeltaTime g) * timeScale g)
    = Some (acc2, fixed) ->
  exists g',
    onFrame fuel g timestamp handle
    = Some (g', fixed
                ++ invokeAll Update (updateCallbacks g)
                     (Qmin (timestamp / 1000 - lastTime g) (maxDeltaTime g) * timeScale g)
                ++ invokeAll Render (renderCallbacks g)
                     (Qmin (timestamp / 1000 - lastTime g) (maxDeltaTime g) * timeScale g)
                ++ [RequestAnimationFrame]) /\
    isRunning g' = true /\
    lastTime g' = timestamp / 1000 /\
    accumulatedTime g' = acc2 /\
    fixedTimeStep g' = fixedTimeStep g /\
    maxDeltaTime g' = maxDeltaTime g /\
    timeScale g' = timeScale g /\
    fixedUpdateCallbacks g' = fixedUpdateCallbacks g /\
    updateCallbacks g' = updateCallbacks g /\
    renderCallbacks g' = renderCallbacks g.
Proof.
  intros Hrun Hloop. unfold onFrame. rewrite Hrun. cbn [negb]. cbv zeta.
  destruct (Qleb 1 _); rewrite Hloop; eexists; (split; [reflexivity|]);
    cbn; rewrite ?Hrun; repeat split; reflexivity.
Qed.

Lemma onFrame_fuel_le fuel fuel' g timestamp handle r :
  (fuel <= fuel')%nat ->
  onFrame fuel g timestamp handle = Some r ->
  onFrame fuel' g timestamp handle = Some r.
Proof.
  intros Hle. unfold onFrame. destruct (negb (isRunning g)); [tauto|]. cbv zeta.
  destruct (Qleb 1 _);
    (destruct (fixedUpdateLoop fuel _ _ _) as [[a c]|] eqn:E; [|discriminate]);
    rewrite (fixedUpdateLoop_fuel_le _ _ _ _ _ _ Hle E); tauto.
Qed.

Lemma onFrames_fuel_le fuel fuel' g frames r :
  (fuel <= fuel')%nat ->
  onFrames fuel g frames = Some r ->
  onFrames fuel' g frames = Some r.
Proof.
  intros Hle. revert g r. induction frames as [|[ts h] rest IH]; intros g r; cbn [onFrames].
  - tauto.
  - destruct (onFrame fuel g ts h) as [[g1 c1]|] eqn:E; [|discriminate].
    rewrite (onFrame_fuel_le _ _ _ _ _ _ Hle E).
    destruct (onFrames fuel g1 rest) as [[g2 c2]|] eqn:E2; [|discriminate].
    rewrite (IH _ _ E2). tauto.
Qed.

Lemma onFrames_not_running fuel g frames :
  isRunning g = false -> onFrames fuel g frames = Some (g, []).
Proof.
  intros Hrun. induction frames as [|[ts h] rest IH]; cbn [onFrames]; [reflexivity|].
  unfold onFrame. rewrite Hrun. cbn [negb]. rewrite IH. reflexivity.
Qed.

Lemma invokeAll_without ph arg target l :
  invokeAll ph (without target l) arg = callsWithout target (invokeAll ph l arg).
Proof.
  unfold invokeAll, without, callsWithout.
  induction l as [|cb l IH]; [reflexivity|].
  cbn [List.filter map callee].
  destruct (negb (cb =? target)%nat); cbn [map]; rewrite IH; reflexivity.
Qed.

Lemma fixedUpdateLoop_without fuel step cbs acc target :
  fixedUpdateLoop fuel step (without target cbs) acc
  = match fixedUpdateLoop fuel step cbs acc with
    | Some (acc', calls) => Some (acc', callsWithout target calls)
    | None => None
    end.
Proof.
  revert acc. induction fuel as [|fuel IH]; intros acc; cbn [fixedUpdateLoop].
  - destruct (Qleb step acc); reflexivity.
  - destruct (Qleb step acc); [|reflexivity].
    rewrite IH. destruct (fixedUpdateLoop fuel step cbs (acc - step)) as [[a c]|];
      [|reflexivity].
    rewrite invokeAll_without. unfold callsWithout. rewrite List.filter_app. reflexivity.
Qed.

Lemma callsWithout_app target l1 l2 :
  callsWithout target (l1 ++ l2) = callsWithout target l1 ++ callsWithout target l2.
Proof. apply List.filter_app. Qed.

Lemma callsWithout_callee target calls :
  List.Forall (fun c => callee c <> Some target) (callsWithout target calls).
Proof.
  apply List.Forall_forall. intros c Hin.
  apply List.filter_In in Hin. destruct Hin as [_ Hc].
  destruct (callee c) as [cb|]; [|discriminate].
  intros [= ->]. rewrite Nat.eqb_refl in Hc. discriminate.
Qed.

(** X1.  A loop that is not running ignores frames: after [stop()], and
    before the first [start()], any sequence of frames invokes no callback,
    requests no animation frame and leaves the loop as it was.  [stop()]
    twice is [stop()] once, and [start()] on a running loop changes
    nothing (it does not reset the last time and requests no second
    frame). *)
Theorem stopped_loop_ignores_frames (g : GameLoop.t) (fuel : nat)
    (frames : list (Q * nat)) (now now' : Q) (handle handle' : nat) :
  onFrames fuel (stop g) frames = Some (stop g, []) /\
  onFrames fuel new frames = Some (new, []) /\
  stop (stop g) = stop g /\
  start (start g now handle) now' handle' = start g now handle.
Proof.
  assert (Hs : isRunning (stop g) = false).
  { unfold stop. destruct (isRunning g) eqn:E; cbn; [reflexivity|exact E]. }
  split; [apply onFrames_not_running, Hs|].
  split; [apply onFrames_not_running; reflexivity|].
  split.
  - unfold stop at 1. rewrite Hs. reflexivity.
  - assert (Hr : isRunning (start g now handle) = true).
    { unfold start. destruct (isRunning g) eqn:E; cbn; [exact E|reflexivity]. }
    unfold start at 1. rewrite Hr. reflexivity.
Qed.

(** X2.  [removeCallback(cb)] takes [cb] out of all three callback lists and
    nothing else: a frame of the loop without [cb] makes exactly the calls
    of the frame of the loop with it, in the same order and with the same
    arguments, less those that went to [cb], and leaves the same loop state
    less [cb].  So after the removal no frame invokes [cb], however often
    and in whichever lists it had been registered. *)
Theorem removeCallback_onFrame (g : GameLoop.t) (cb : callback)
    (fuel : nat) (timestamp : Q) (handle : nat) :
  onFrame fuel (removeCallback g cb) timestamp handle
  = match onFrame fuel g timestamp handle with
    | Some (g', calls) => Some (removeCallback g' cb, callsWithout cb calls)
    | None => None
    end /\
  match onFrame fuel (removeCallback g cb) timestamp handle with
  | Some (_, calls) => List.Forall (fun c => callee c <> Some cb) calls
  | None => True
  end.
Proof.
  assert (Heq : onFrame fuel (removeCallback g cb) timestamp handle
  = match onFrame fuel g timestamp handle with
    | Some (g', calls) => Some (removeCallback g' cb, callsWithout cb calls)
    | None => None
    end).
  { unfold onFrame. cbn [removeCallback isRunning lastTime maxDeltaTime timeScale
                          frameCount fpsTime fps accumulatedTime fixedTimeStep
                          fixedUpdateCallbacks updateCallbacks renderCallbacks].
    destruct (isRunning g) eqn:Hrun; cbn [negb]; [|reflexivity]. cbv zeta.
    rewrite fixedUpdateLoop_without.
    destruct (Qleb 1 _);
      (destruct (fixedUpdateLoop fuel _ _ _) as [[a c]|]; [|reflexivity]);
      rewrite !callsWithout_app, <- !invokeAll_without; reflexivity. }
  split; [exact Heq|].
  rewrite Heq. destruct (onFrame fuel g timestamp handle) as [[g' calls]|]; [|exact I].
  apply callsWithout_callee.
Qed.

(** X3.  The cap on the frame delta bounds the work of a frame: on a
    running loop with a positive step, a time scale and a cap that are not
    negative and an accumulator in [0, step), one frame runs [n] rounds of
    the fixed-update callbacks with [n * step <= accumulator + cap * scale],
    whatever the timestamp; the accumulator it leaves is again below the
    step, and is not negative when the timestamp has not gone back. *)
Theorem onFrame_tick_bound (g : GameLoop.t) (timestamp : Q) (handle : nat) :
  isRunning g = true ->
  0 < fixedTimeStep g ->
  0 <= timeScale g ->
  0 <= maxDeltaTime g ->
  0 <= accumulatedTime g ->
  let raw := timestamp / 1000 - lastTime g in
  let acc1 := accumulatedTime g + Qmin raw (maxDeltaTime g) * timeScale g in
  exists (n : nat) (g' : GameLoop.t) (calls : list Call),
    (forall fuel, (enoughFuel (fixedTimeStep g) acc1 <= fuel)%nat ->
       onFrame fuel g timestamp handle = Some (g', calls)) /\
    fixedCalls calls = (n * length (fixedUpdateCallbacks g))%nat /\
    inject_Z (Z.of_nat n) * fixedTimeStep g
      <= accumulatedTime g + maxDeltaTime g * timeScale g /\
    accumulatedTime g' < fixedTimeStep g /\
    (0 <= raw -> 0 <= accumulatedTime g').
Proof.
  intros Hrun Hstep Hscale Hmax Hacc raw acc1.
  destruct (fixedUpdateLoop_spec (enoughFuel (fixedTimeStep g) acc1) (fixedTimeStep g)
              (fixedUpdateCallbacks g) acc1 Hstep (enoughFuel_bound _ _ Hstep))
    as (n & acc' & Hloop & Heq & Hlt & Hn).
  destruct (onFrame_running _ g timestamp handle _ _ Hrun Hloop)
    as (g' & Hres & _ & _ & Hacc' & _).
  exists n, g', (fixedRounds n (fixedUpdateCallbacks g) (fixedTimeStep g)
                ++ invokeAll Update (updateCallbacks g) (Qmin raw (maxDeltaTime g) * timeScale g)
                ++ invokeAll Render (renderCallbacks g) (Qmin raw (maxDeltaTime g) * timeScale g)
                ++ [RequestAnimationFrame]).
  assert (Hmin : Qmin raw (maxDeltaTime g) <= maxDeltaTime g) by apply Q.le_min_r.
  assert (Hprod : Qmin raw (maxDeltaTime g) * timeScale g
                  <= maxDeltaTime g * timeScale g).
  { apply Qmult_le_compat_r; assumption. }
  split; [|split; [|split; [|split]]].
  - intros fuel Hfuel. exact (onFrame_fuel_le _ _ _ _ _ _ Hfuel Hres).
  - rewrite !fixedCalls_app, fixedCalls_fixedRounds.
    rewrite !fixedCalls_invokeAll_other by congruence. cbn. lia.
  - destruct n as [|n].
    + change (inject_Z (Z.of_nat 0)) with 0.
      assert (0 <= maxDeltaTime g * timeScale g) by (apply Qmult_le_0_compat; assumption).
      lra.
    + assert (H := Hn ltac:(lia)). unfold acc1 in H. lra.
  - rewrite Hacc'. exact Hlt.
  - intros Hraw. rewrite Hacc'.
    assert (Hmin0 : 0 <= Qmin raw (maxDeltaTime g)).
    { apply Q.min_glb; assumption. }
    assert (0 <= Qmin raw (maxDeltaTime g) * timeScale g)
      by (apply Qmult_le_0_compat; assumption).
    destruct n as [|n].
    + change (inject_Z (Z.of_nat 0)) with 0 in Heq. unfold acc1 in Heq. lra.
    + assert (H1 := Hn ltac:(lia)). lra.
Qed.

(** X4.  No simulated time is lost or invented over a run of frames: on a
    running loop with a positive step, the frames all complete, the loop
    keeps running with the same step, and
    [accumulator left + rounds * step == accumulator before + the scaled,
    capped frame deltas], where [rounds] counts the fixed-update rounds of
    all the frames together. *)
Theorem onFrames_time_conserved (g : GameLoop.t) (frames : list (Q * nat)) :
  isRunning g = true ->
  0 < fixedTimeStep g ->
  exists (fuel0 n : nat) (g' : GameLoop.t) (calls : list Call),
    (forall fuel, (fuel0 <= fuel)%nat -> onFrames fuel g frames = Some (g', calls)) /\
    fixedCalls calls = (n * length (fixedUpdateCallbacks g))%nat /\
    accumulatedTime g' + inject_Z (Z.of_nat n) * fixedTimeStep g
      == accumulatedTime g
         + scaledTime (lastTime g) (maxDeltaTime g) (timeScale g) frames /\
    isRunning g' = true /\ fixedTimeStep g' = fixedTimeStep g.
Proof.
  revert g. induction frames as [|[ts h] rest IH]; intros g Hrun Hstep.
  - exists 0%nat, 0%nat, g, []. cbn [onFrames scaledTime].
    split; [reflexivity|]. split; [reflexivity|].
    split; [|split; [exact Hrun|reflexivity]].
    change (inject_Z (Z.of_nat 0)) with 0. lra.
  - set (acc1 := accumulatedTime g
                 + Qmin (ts / 1000 - lastTime g) (maxDeltaTime g) * timeScale g).
    destruct (fixedUpdateLoop_spec (enoughFuel (fixedTimeStep g) acc1) (fixedTimeStep g)
                (fixedUpdateCallbacks g) acc1 Hstep (enoughFuel_bound _ _ Hstep))
      as (n1 & acc' & Hloop & Heq & _ & _).
    destruct (onFrame_running _ g ts h _ _ Hrun Hloop)
      as (g1 & Hres & Hrun1 & Hlast & Hacc' & Hstep1 & Hmax1 & Hscale1 & Hcbs1 & _).
    destruct (IH g1 Hrun1 ltac:(rewrite Hstep1; exact Hstep))
      as (fuel2 & n2 & g2 & calls2 & Hruns & Hcount & Htime & Hrun2 & Hstep2).
    exists (Nat.max (enoughFuel (fixedTimeStep g) acc1) fuel2), (n1 + n2)%nat, g2.
    eexists. split; [|split; [|split; [|split]]].
    + intros fuel Hfuel. cbn [onFrames].
      assert (H1 : (enoughFuel (fixedTimeStep g) acc1 <= fuel)%nat) by lia.
      assert (H2 : (fuel2 <= fuel)%nat) by lia.
      rewrite (onFrame_fuel_le _ _ _ _ _ _ H1 Hres).
      rewrite (Hruns fuel H2). reflexivity.
    + rewrite !fixedCalls_app, fixedCalls_fixedRounds.
      rewrite !fixedCalls_invokeAll_other by congruence.
      rewrite Hcount, Hcbs1. cbn. lia.
    + cbn [scaledTime]. rewrite Hlast, Hmax1, Hscale1, Hacc', Hstep1 in Htime.
      rewrite Nat2Z.inj_add, inject_Z_plus. fold acc1 in Htime |- *.
      unfold acc1 in Heq |- *. lra.
    + exact Hrun2.
    + rewrite Hstep2. exact Hstep1.
Qed.

(** X5.  [setTimeScale] with a scale that is zero or negative freezes the
    simulation instead of running it backwards: on a running loop whose
    accumulator is below the step, a frame then invokes no fixed-update
    callback and leaves the accumulator at its value, while the update and
    render callbacks still run, with a delta equal to 0. *)
Theorem setTimeScale_nonpositive_freezes (g : GameLoop.t) (scale : Q)
    (fuel : nat) (timestamp : Q) (handle : nat) :
  scale <= 0 ->
  isRunning g = true ->
  accumulatedTime g < fixedTimeStep g ->
  exists (g' : GameLoop.t) (arg : Q),
    onFrame fuel (setTimeScale g scale) timestamp handle
    = Some (g', invokeAll Update (updateCallbacks g) arg
                ++ invokeAll Render (renderCallbacks g) arg
                ++ [RequestAnimationFrame]) /\
    arg == 0 /\
    accumulatedTime g' == accumulatedTime g /\
    timeScale g' == 0.
Proof.
  intros Hscale Hrun Hacc.
  assert (Hts : Qmax 0 scale == 0) by (apply Q.max_l; exact Hscale).
  set (g0 := setTimeScale g scale).
  set (dt := Qmin (timestamp / 1000 - lastTime g0) (maxDeltaTime g0)).
  assert (Harg : dt * timeScale g0 == 0).
  { assert (Hg0 : timeScale g0 == 0) by exact Hts. rewrite Hg0. lra. }
  assert (Hloop : fixedUpdateLoop fuel (fixedTimeStep g0) (fixedUpdateCallbacks g0)
                    (accumulatedTime g0 + dt * timeScale g0)
                  = Some (accumulatedTime g0 + dt * timeScale g0, [])).
  { assert (Hlt : accumulatedTime g0 + dt * timeScale g0 < fixedTimeStep g0).
    { rewrite Harg. unfold g0. cbn [setTimeScale accumulatedTime fixedTimeStep]. lra. }
    apply Qleb_false in Hlt. destruct fuel; cbn [fixedUpdateLoop]; rewrite Hlt; reflexivity. }
  destruct (onFrame_running fuel g0 timestamp handle _ _ Hrun Hloop)
    as (g' & Hres & _ & _ & Hacc' & _ & _ & Hscale' & _).
  exists g', (dt * timeScale g0). split; [exact Hres|].
  split; [exact Harg|]. split.
  - rewrite Hacc', Harg. unfold g0. cbn [setTimeScale accumulatedTime]. lra.
  - rewrite Hscale'. unfold g0. cbn [setTimeScale timeScale]. exact Hts.
Qed.

End GameLoopMore.

Lemma onFrame_tick_bound_witness :
  exists n g' calls,
    GameLoop.onFrame 6 GameLoop.loop50 5000 2%nat = Some (g', calls) /\
    GameLoop.fixedCalls calls = (n * 1)%nat /\
    inject_Z (Z.of_nat n) * (1 / 60) <= 0 + (1 # 10) * 1.
Proof.
  destruct (onFrame_tick_bound GameLoop.loop50 5000 2%nat eq_refl eq_refl
              ltac:(vm_compute; discriminate) ltac:(vm_compute; discriminate)
              ltac:(vm_compute; discriminate))
    as (n & g' & calls & Hrun & Hcount & Hbound & _).
  exists n, g', calls. split; [|split; [exact Hcount|exact Hbound]].
  apply Hrun. vm_compute. lia.
Defined.

Lemma onFrames_time_conserved_witness :
  exists fuel0 n g' calls,
    GameLoop.onFrames fuel0 GameLoop.loop50 [(50, 2%nat); (70, 3%nat)] = Some (g', calls) /\
    GameLoop.fixedCalls calls = (n * 1)%nat /\
    GameLoop.accumulatedTime g' + inject_Z (Z.of_nat n) * (1 / 60)
      == 0 + GameLoop.scaledTime (0 / 1000) (1 # 10) 1 [(50, 2%nat); (70, 3%nat)].
Proof.
  destruct (onFrames_time_conserved GameLoop.loop50 [(50, 2%nat); (70, 3%nat)]
              eq_refl eq_refl)
    as (fuel0 & n & g' & calls & Hrun & Hcount & Htime & _).
  exists fuel0, n, g', calls. split; [|split; [exact Hcount|exact Htime]].
  apply Hrun. apply Nat.le_refl.
Defined.

Lemma setTimeScale_nonpositive_freezes_witness :
  exists g' arg,
    GameLoop.onFrame 0 (GameLoop.setTimeScale GameLoop.loop50 (-2)) 50 2%nat
    = Some (g', [GameLoop.RequestAnimationFrame]) /\
    arg == 0 /\ GameLoop.accumulatedTime g' == 0.
Proof.
  destruct (setTimeScale_nonpositive_freezes GameLoop.loop50 (-2) 0 50 2%nat
              ltac:(vm_compute; discriminate) eq_refl eq_refl)
    as (g' & arg & Hres & Harg & Hacc & _).
  exists g', arg. split; [exact Hres|]. split; [exact Harg|exact Hacc].
Defined.

(** * VehiclePhysics: control clamping, steering convergence, the capped
      step, wheels and suspension, gears and engine speed *)

Section VehicleMore.
Import VehiclePhysics.

Variables sqrtQ sinQ cosQ : Q -> Q.
Variable piQ : Q.

Lemma Qmin_gt_r (x y : Q) : y < x -> Qmin x y = y.
Proof.
  intros H. unfold Qmin, GenericMinMax.gmin.
  apply Qgt_alt in H. rewrite H. reflexivity.
Qed.

Lemma setControlsTimes_config (n : nat) (v : t) (controls : Controls) :
  config (setControlsTimes n v controls) = config v.
Proof.
  revert v. induction n as [|n IH]; intros v; cbn [setControlsTimes]; [reflexivity|].
  rewrite IH. reflexivity.
Qed.

Lemma wheelsOnGround_zero (ws : list Wheel) :
  wheelsOnGround ws = 0%nat -> List.Forall (fun w => onGround w = false) ws.
Proof.
  unfold wheelsOnGround. induction ws as [|w ws IH]; intros H; [constructor|].
  cbn [List.filter] in H. destruct (onGround w) eqn:E; [discriminate|].
  constructor; [exact E|exact (IH H)].
Qed.

Lemma totalSuspensionForce_airborne (u : Vector3.t) (ws : list Wheel) :
  List.Forall (fun w => onGround w = false) ws ->
  totalSuspensionForce u ws = Vector3.zero.
Proof.
  unfold totalSuspensionForce. generalize Vector3.zero.
  induction ws as [|w ws IH]; intros acc H; [reflexivity|].
  inversion H as [|? ? Hw Hws]; subst. cbn [fold_left]. rewrite Hw. apply IH, Hws.
Qed.

Lemma update_wheels (v : t) (deltaTime : Q) (ground : option (Q -> Q -> Q)) :
  exists k : Q,
    wheels (state (update sqrtQ sinQ cosQ piQ v deltaTime ground))
    = map (fun w =>
             if onGround w then
               {| wheelPosition := wheelPosition w; onGround := onGround w;
                  suspensionForce := suspensionForce w;
                  wheelRotation := wheelRotation w + k |}
             else w)
          (map (suspensionOfWheel (config v) (state v) ground) (wheels (state v))).
Proof. eexists. unfold update, applyForces, updateSuspension. cbn. reflexivity. Qed.

Lemma suspensionOfWheel_force (c : Config) (s : State)
    (ground : option (Q -> Q -> Q)) (w : Wheel) :
  let w' := suspensionOfWheel c s ground w in
  wheelPosition w' = wheelPosition w /\
  0 <= suspensionForce w' /\
  (onGround w' = false -> suspensionForce w' = 0 /\ wheelRotation w' = wheelRotation w).
Proof.
  unfold suspensionOfWheel. cbv zeta.
  destruct (Qltb _ _); cbn.
  - split; [reflexivity|]. split; [apply Q.le_max_l|discriminate].
  - split; [reflexivity|]. split; [lra|]. intros _. split; reflexivity.
Qed.

Lemma update_angularVelocity (v : t) (deltaTime : Q) (ground : option (Q -> Q -> Q)) :
  angularVelocity (state (update sqrtQ sinQ cosQ piQ v deltaTime ground))
  = angularVelocity (state (applyForces sqrtQ (updateSuspension v ground)
                              (Qmin deltaTime (1 # 10)))).
Proof. reflexivity. Qed.

(** Without a wheel on the ground [applyForces] reads neither the throttle
    nor the steering. *)
Lemma applyForces_airborne (v1 v2 : t) (dt : Q) :
  wheelsOnGround (wheels (state v1)) = 0%nat ->
  config v2 = config v1 ->
  wheels (state v2) = wheels (state v1) ->
  rotation (state v2) = rotation (state v1) ->
  velocity (state v2) = velocity (state v1) ->
  brake (state v2) = brake (state v1) ->
  velocity (state (applyForces sqrtQ v2 dt)) = velocity (state (applyForces sqrtQ v1 dt)).
Proof.
  intros H Hc Hw Hr Hv Hb. unfold applyForces. cbv zeta. cbn [state velocity].
  rewrite Hc, Hw, Hr, Hv, Hb, H. reflexivity.
Qed.

Lemma applyForces_airborne_angular (v1 : t) (dt : Q) :
  wheelsOnGround (wheels (state v1)) = 0%nat ->
  Vector3.eqv (angularVelocity (state (applyForces sqrtQ v1 dt)))
              (Vector3.multiplyScalar (angularVelocity (state v1)) (95 # 100)).
Proof.
  intros H. unfold applyForces. cbv zeta. cbn [state angularVelocity].
  rewrite H. cbn [Nat.eqb negb]. rewrite andb_false_r.
  unfold Vector3.eqv. cbn. repeat split; ring.
Qed.

Lemma applyForces_free_fall (v1 : t) (dt : Q) :
  wheelsOnGround (wheels (state v1)) = 0%nat ->
  ~ mass (config v1) == 0 ->
  Vector3.lengthSq (velocity (state v1)) <= 1 # 10 ->
  Vector3.eqv (velocity (state (applyForces sqrtQ v1 dt)))
              (Vector3.add (velocity (state v1)) (Vector3.mk 0 (- g981 * dt) 0)).
Proof.
  intros H Hm Hslow. unfold applyForces. cbv zeta. cbn [state velocity].
  rewrite (totalSuspensionForce_airborne _ _ (wheelsOnGround_zero _ H)).
  rewrite H. cbn [Nat.eqb negb].
  apply Qltb_false in Hslow. rewrite Hslow. rewrite !andb_false_r.
  unfold Vector3.eqv. cbn. repeat split; field; exact Hm.
Qed.

(** The gear loop keeps the last threshold that the speed exceeds; the
    thresholds rise, so it is the highest one. *)
Lemma selectGear_nested (speed : Q) :
  selectGear speed
  = if Qltb 150 speed then 6%nat
    else if Qltb 120 speed then 5%nat
    else if Qltb 90 speed then 4%nat
    else if Qltb 60 speed then 3%nat
    else if Qltb 30 speed then 2%nat
    else 1%nat.
Proof.
  assert (Hw : forall a b, a == b -> Qltb a speed = Qltb b speed).
  { intros a b Hab. destruct (Qltb b speed) eqn:E.
    - apply Qltb_true. apply Qltb_true in E. lra.
    - apply Qltb_false. apply Qltb_false in E. lra. }
  unfold selectGear. cbn [gearRatios length Nat.sub seq fold_left].
  rewrite (Hw (inject_Z (Z.of_nat 1) * 30) 30) by reflexivity.
  rewrite (Hw (inject_Z (Z.of_nat 2) * 30) 60) by reflexivity.
  rewrite (Hw (inject_Z (Z.of_nat 3) * 30) 90) by reflexivity.
  rewrite (Hw (inject_Z (Z.of_nat 4) * 30) 120) by reflexivity.
  rewrite (Hw (inject_Z (Z.of_nat 5) * 30) 150) by reflexivity.
  destruct (Qltb 30 speed) eqn:E1; destruct (Qltb 60 speed) eqn:E2;
    destruct (Qltb 90 speed) eqn:E3; destruct (Qltb 120 speed) eqn:E4;
    destruct (Qltb 150 speed) eqn:E5; try reflexivity;
    repeat match goal with
           | H : Qltb _ _ = true |- _ => apply Qltb_true in H
           | H : Qltb _ _ = false |- _ => apply Qltb_false in H
           end; lra.
Qed.

Ltac gear_cases s :=
  repeat match goal with
         | |- context [Qltb ?a s] =>
             let E := fresh "E" in
             destruct (Qltb a s) eqn:E;
             [apply Qltb_true in E|apply Qltb_false in E]
         end.

Lemma selectGear_range (speed : Q) : (1 <= selectGear speed <= 6)%nat.
Proof. rewrite selectGear_nested. gear_cases speed; lia. Qed.

(** X6.  [setControls] keeps the pedals in range: a throttle given is
    clamped to [-1, 1] and a brake given to [0, 1] (a negative brake is 0),
    a value already in range is taken as it is, a field left undefined
    keeps its old value, and the call touches neither the configuration nor
    the position, the rotation, the velocities or the wheels. *)
Theorem setControls_pedals_in_range (v : t) (controls : Controls) :
  let s := state v in
  let s' := state (setControls v controls) in
  match c_throttle controls with
  | Some x => -1 <= throttle s' /\ throttle s' <= 1 /\
              (-1 <= x -> x <= 1 -> throttle s' == x)
  | None => throttle s' = throttle s
  end /\
  match c_brake controls with
  | Some x => 0 <= brake s' /\ brake s' <= 1 /\
              (0 <= x -> x <= 1 -> brake s' == x) /\ (x <= 0 -> brake s' == 0)
  | None => brake s' = brake s
  end /\
  config (setControls v controls) = config v /\
  position s' = position s /\ rotation s' = rotation s /\
  velocity s' = velocity s /\ angularVelocity s' = angularVelocity s /\
  wheels s' = wheels s.
Proof.
  cbv zeta. unfold setControls. cbn.
  split; [|split; [|repeat split]].
  - destruct (c_throttle controls) as [x|]; [|reflexivity].
    destruct (Q.min_spec 1 x) as [[H1 H2]|[H1 H2]];
      destruct (Q.max_spec (-1) (Qmin 1 x)) as [[M1 M2]|[M1 M2]];
      repeat split; intros; lra.
  - destruct (c_brake controls) as [x|]; [|reflexivity].
    destruct (Q.min_spec 1 x) as [[H1 H2]|[H1 H2]];
      destruct (Q.max_spec 0 (Qmin 1 x)) as [[M1 M2]|[M1 M2]];
      repeat split; intros; lra.
Qed.

(** X7.  Repeated [setControls] calls with the same steering input close in
    on the clamped target by exactly [steeringSpeed * 0.016] per call and
    then stay on it: after [n] calls the distance of the steering to the
    target is [max(0, initial distance - n * steeringSpeed * 0.016)]. *)
Theorem setControls_steering_distance (v : t) (controls : Controls) (x : Q) (n : nat) :
  0 <= steeringSpeed (config v) ->
  c_steering controls = Some x ->
  let T := Qmax (-1) (Qmin 1 x) in
  let d := steeringSpeed (config v) * steeringFrameTime in
  Qabs (steering (state (setControlsTimes n v controls)) - T)
  == Qmax 0 (Qabs (steering (state v) - T) - inject_Z (Z.of_nat n) * d).
Proof.
  intros Hs Hx T d. revert v Hs d.
  induction n as [|n IH]; intros v Hs d.
  - cbn [setControlsTimes]. change (inject_Z (Z.of_nat 0)) with 0.
    destruct (Qabs_cases (steering (state v) - T)) as [[B1 B2]|[B1 B2]];
      destruct (Q.max_spec 0 (Qabs (steering (state v) - T) - 0 * d)) as [[M1 M2]|[M1 M2]];
      lra.
  - cbn [setControlsTimes].
    assert (Hc : config (setControls v controls) = config v) by reflexivity.
    assert (IH' := IH (setControls v controls) ltac:(rewrite Hc; exact Hs)).
    cbv zeta in IH'. rewrite Hc in IH'. fold d in IH'.
    assert (Hstep : steering (state (setControls v controls))
                    = approachSteering (config v) (steering (state v)) x).
    { unfold setControls. cbn. rewrite Hx. reflexivity. }
    assert (Hdist := approachSteering_distance (config v) (steering (state v)) x Hs).
    cbv zeta in Hdist. fold T in Hdist. fold d in Hdist.
    rewrite <- Hstep in Hdist.
    assert (Hd : 0 <= d).
    { apply Qmult_le_0_compat; [exact Hs|]. unfold steeringFrameTime. lra. }
    assert (HS : inject_Z (Z.of_nat (S n)) == inject_Z (Z.of_nat n) + 1).
    { rewrite Nat2Z.inj_succ. unfold Z.succ. rewrite inject_Z_plus. reflexivity. }
    assert (Hn : 0 <= inject_Z (Z.of_nat n)).
    { change 0 with (inject_Z 0). rewrite <- Zle_Qle. lia. }
    assert (Hnd : 0 <= inject_Z (Z.of_nat n) * d) by (apply Qmult_le_0_compat; assumption).
    set (a1 := Qabs (steering (state (setControls v controls)) - T)) in *.
    set (a0 := Qabs (steering (state v) - T)) in *.
    set (an := Qabs (steering (state (setControlsTimes n (setControls v controls) controls)) - T)) in *.
    set (m := inject_Z (Z.of_nat n)) in *.
    destruct (Q.max_spec 0 (a1 - m * d)) as [[M1 M2]|[M1 M2]];
      destruct (Q.max_spec 0 (a0 - d)) as [[N1 N2]|[N1 N2]];
      destruct (Q.max_spec 0 (a0 - inject_Z (Z.of_nat (S n)) * d)) as [[P1 P2]|[P1 P2]];
      rewrite P2, IH', M2; rewrite ?HS in P1; nra.
Qed.

(** X8.  The cap on the step: a call of [update] with any [deltaTime]
    above 0.1 s leaves exactly the vehicle that a call with 0.1 s leaves. *)
Theorem update_caps_deltaTime (v : t) (deltaTime : Q) (ground : option (Q -> Q -> Q)) :
  1 # 10 < deltaTime ->
  update sqrtQ sinQ cosQ piQ v deltaTime ground
  = update sqrtQ sinQ cosQ piQ v (1 # 10) ground.
Proof.
  intros H. unfold update.
  rewrite (Qmin_gt_r _ _ H).
  change (Qmin (1 # 10) (1 # 10)) with (1 # 10). reflexivity.
Qed.

(** X9.  For a vehicle whose suspension height is not zero (the
    compression ratio divides by it), whatever the ground and the step,
    after [update] every wheel carries a suspension force that is not
    negative, a wheel off the ground carries none, and the wheels are the
    same wheels at the same places of the chassis (their number and local
    positions do not change). *)
Theorem update_wheels_invariant (v : t) (deltaTime : Q) (ground : option (Q -> Q -> Q)) :
  ~ suspensionHeight (config v) == 0 ->
  let ws' := wheels (state (update sqrtQ sinQ cosQ piQ v deltaTime ground)) in
  map wheelPosition ws' = map wheelPosition (wheels (state v)) /\
  length ws' = length (wheels (state v)) /\
  List.Forall (fun w => 0 <= suspensionForce w /\
                        (onGround w = false -> suspensionForce w = 0)) ws'.
Proof.
  intros _. cbv zeta. destruct (update_wheels v deltaTime ground) as [k ->].
  generalize (wheels (state v)) as ws.
  induction ws as [|w ws (IH1 & IH2 & IH3)]; [repeat split; constructor|].
  cbn [map length].
  destruct (suspensionOfWheel_force (config v) (state v) ground w) as (Hp & Hf & Hoff).
  cbv zeta in Hp, Hf, Hoff.
  split; [|split].
  - rewrite IH1. f_equal.
    destruct (onGround (suspensionOfWheel _ _ _ w)); [cbn|]; exact Hp.
  - rewrite IH2. reflexivity.
  - constructor; [|exact IH3].
    destruct (onGround (suspensionOfWheel _ _ _ w)) eqn:E; cbn.
    + split; [exact Hf|discriminate].
    + split; [exact Hf|]. intros _. exact (proj1 (Hoff eq_refl)).
Qed.

(** X10.  A vehicle that [update] finds with no wheel on the ground gets no
    suspension force, no engine force, no steering torque and no steering
    return: every wheel ends off the ground with force 0 and its rotation
    angle unchanged, the steering keeps its value, the angular velocity is
    only damped by 0.95, the new velocity does not depend on the throttle,
    and below the drag threshold (squared speed at most 0.1) the vehicle is
    in free fall: its velocity changes by [(0, -9.81 * dt, 0)], brake or
    not. *)
Theorem update_airborne (v : t) (deltaTime : Q) (ground : option (Q -> Q -> Q)) (th : Q) :
  groundedWheels v ground = 0%nat ->
  let dt := Qmin deltaTime (1 # 10) in
  let v' := update sqrtQ sinQ cosQ piQ v deltaTime ground in
  List.Forall (fun w => onGround w = false /\ suspensionForce w = 0) (wheels (state v')) /\
  map wheelRotation (wheels (state v')) = map wheelRotation (wheels (state v)) /\
  steering (state v') = steering (state v) /\
  Vector3.eqv (angularVelocity (state v'))
              (Vector3.multiplyScalar (angularVelocity (state v)) (95 # 100)) /\
  velocity (state (update sqrtQ sinQ cosQ piQ (withThrottle v th) deltaTime ground))
    = velocity (state v') /\
  (~ mass (config v) == 0 -> Vector3.lengthSq (velocity (state v)) <= 1 # 10 ->
   Vector3.eqv (velocity (state v'))
               (Vector3.add (velocity (state v)) (Vector3.mk 0 (- g981 * dt) 0))).
Proof.
  intros Hair dt v'.
  assert (Hoff : List.Forall (fun w => onGround w = false)
                   (map (suspensionOfWheel (config v) (state v) ground) (wheels (state v)))).
  { apply wheelsOnGround_zero. exact Hair. }
  assert (Hair' : groundedWheels (withThrottle v th) ground = 0%nat) by exact Hair.
  assert (Hoff' : List.Forall (fun w => onGround w = false)
                   (map (suspensionOfWheel (config v) (state v) ground) (wheels (state v))))
    by exact Hoff.
  split; [|split; [|split; [|split; [|split]]]].
  - unfold v'. destruct (update_wheels v deltaTime ground) as [k ->].
    revert Hoff. generalize (wheels (state v)) as ws.
    induction ws as [|w ws IH]; intros H; [constructor|].
    cbn [map] in *. inversion H as [|? ? Hw Hws]; subst.
    constructor; [|exact (IH Hws)].
    cbv beta. rewrite Hw. split; [exact Hw|].
    apply (suspensionOfWheel_force (config v) (state v) ground w). exact Hw.
  - unfold v'. destruct (update_wheels v deltaTime ground) as [k ->].
    revert Hoff. generalize (wheels (state v)) as ws.
    induction ws as [|w ws IH]; intros H; [reflexivity|].
    cbn [map] in *. inversion H as [|? ? Hw Hws]; subst.
    rewrite (IH Hws). f_equal. rewrite Hw.
    apply (suspensionOfWheel_force (config v) (state v) ground w). exact Hw.
  - unfold v'. rewrite update_steering, Hair.
    unfold steeringReturnStep. cbn [Nat.eqb negb]. rewrite andb_false_r. reflexivity.
  - unfold v'. rewrite update_angularVelocity.
    exact (applyForces_airborne_angular (updateSuspension v ground) _ Hair).
  - unfold v'. rewrite !update_velocity.
    exact (applyForces_airborne (updateSuspension v ground)
             (updateSuspension (withThrottle v th) ground) _
             Hair eq_refl eq_refl eq_refl eq_refl eq_refl).
  - intros Hm Hslow. unfold v'. rewrite update_velocity.
    exact (applyForces_free_fall (updateSuspension v ground) _ Hair Hm Hslow).
Qed.

(** X11.  The gear is the number of 30 km/h thresholds below the speed, plus
    one: gear 1 up to 30 km/h, gear [k + 1] above [30 * k] and up to
    [30 * (k + 1)] km/h, gear 6 above 150 km/h.  It is always between 1 and
    6 and never falls when the speed rises. *)
Theorem selectGear_thresholds (speed : Q) :
  (1 <= selectGear speed <= 6)%nat /\
  (speed <= 30 -> selectGear speed = 1%nat) /\
  (forall k : nat, (1 <= k <= 4)%nat ->
     inject_Z (Z.of_nat k) * 30 < speed ->
     speed <= inject_Z (Z.of_nat (S k)) * 30 ->
     selectGear speed = S k) /\
  (150 < speed -> selectGear speed = 6%nat) /\
  (forall speed', speed <= speed' -> (selectGear speed <= selectGear speed')%nat).
Proof.
  rewrite selectGear_nested.
  split; [|split; [|split; [|split]]].
  - gear_cases speed; lia.
  - intros H. gear_cases speed; try reflexivity; lra.
  - intros k Hk Hlo Hhi.
    assert (Hk' : k = 1%nat \/ k = 2%nat \/ k = 3%nat \/ k = 4%nat) by lia.
    destruct Hk' as [-> | [-> | [-> | ->]]];
      change (inject_Z (Z.of_nat 1)) with 1 in *;
      change (inject_Z (Z.of_nat 2)) with 2 in *;
      change (inject_Z (Z.of_nat 3)) with 3 in *;
      change (inject_Z (Z.of_nat 4)) with 4 in *;
      change (inject_Z (Z.of_nat 5)) with 5 in *;
      gear_cases speed; try reflexivity; lra.
  - intros H. gear_cases speed; try reflexivity; lra.
  - intros speed' H. rewrite selectGear_nested.
    gear_cases speed; gear_cases speed'; try lia; lra.
Qed.

(** X12.  For a vehicle whose mass, suspension height and wheel radius
    are not zero (the acceleration, the compression ratio and the wheel
    speed divide by them, and by [Math.PI]), after every [update] the
    metrics it publishes are in range, whatever the square root, sine and
    cosine are: the engine speed lies in [800, 8000], the gear in 1..6 and
    is the gear of the published speed, the published speed is 3.6 times
    the length of the new velocity, and [getPerformanceMetrics] counts as
    wheels on the ground exactly the wheels the suspension pass found
    there.  At a published speed of 0 the engine idles at 800 in gear 1. *)
Theorem update_metrics_in_range (v : t) (deltaTime : Q) (ground : option (Q -> Q -> Q)) :
  ~ mass (config v) == 0 -> ~ suspensionHeight (config v) == 0 ->
  ~ wheelRadius (config v) == 0 -> ~ piQ == 0 ->
  let v' := update sqrtQ sinQ cosQ piQ v deltaTime ground in
  let m := getPerformanceMetrics v' in
  800 <= m_rpm m /\ m_rpm m <= 8000 /\
  (1 <= m_gear m <= 6)%nat /\
  m_gear m = selectGear (m_speedKmh m) /\
  m_speedKmh m = Vector3.length sqrtQ (velocity (state v')) * (36 # 10) /\
  m_wheelsOnGround m = groundedWheels v ground /\
  (m_wheelsOnGround m <= length (wheels (state v)))%nat /\
  (m_speedKmh m == 0 -> m_rpm m == 800 /\ m_gear m = 1%nat).
Proof.
  intros _ _ _ _. cbv zeta.
  assert (Hrpm : exists r, m_rpm (getPerformanceMetrics
                   (update sqrtQ sinQ cosQ piQ v deltaTime ground))
                 = Qmax 800 (Qmin 8000
                     (m_speedKmh (getPerformanceMetrics
                        (update sqrtQ sinQ cosQ piQ v deltaTime ground)) / (36 # 10) * 60
                      / r * nth (m_gear (getPerformanceMetrics
                        (update sqrtQ sinQ cosQ piQ v deltaTime ground)) - 1) gearRatios 0
                      * finalDrive))).
  { eexists. reflexivity. }
  destruct Hrpm as [r Hrpm].
  assert (Hgear : m_gear (getPerformanceMetrics (update sqrtQ sinQ cosQ piQ v deltaTime ground))
                  = selectGear (m_speedKmh (getPerformanceMetrics
                      (update sqrtQ sinQ cosQ piQ v deltaTime ground)))) by reflexivity.
  assert (Hcount : m_wheelsOnGround (getPerformanceMetrics
                      (update sqrtQ sinQ cosQ piQ v deltaTime ground))
                   = groundedWheels v ground).
  { unfold getPerformanceMetrics. cbn [m_wheelsOnGround].
    destruct (update_wheels v deltaTime ground) as [k ->].
    unfold groundedWheels, updateSuspension. cbn [state wheels set_wheels].
    generalize (map (suspensionOfWheel (config v) (state v) ground) (wheels (state v))) as ws.
    induction ws as [|w ws IH]; [reflexivity|].
    cbn [map List.filter]. destruct (onGround w) eqn:E; cbn [onGround]; rewrite ?E;
      cbn [length]; rewrite IH; reflexivity. }
  set (m := getPerformanceMetrics (update sqrtQ sinQ cosQ piQ v deltaTime ground)) in *.
  split; [|split; [|split; [|split; [|split; [|split; [|split]]]]]].
  - rewrite Hrpm. apply Q.le_max_l.
  - rewrite Hrpm. apply Q.max_lub; [lra|apply Q.le_min_l].
  - rewrite Hgear. apply selectGear_range.
  - exact Hgear.
  - reflexivity.
  - exact Hcount.
  - rewrite Hcount. unfold groundedWheels, updateSuspension. cbn [state wheels set_wheels].
    etransitivity; [apply List.filter_length_le|]. rewrite length_map. apply Nat.le_refl.
  - intros H0.
    assert (Hg : m_gear m = 1%nat).
    { rewrite Hgear, selectGear_nested. gear_cases (m_speedKmh m); try reflexivity; lra. }
    split; [|exact Hg].
    rewrite Hrpm, Hg. cbn [Nat.sub nth gearRatios].
    set (e := m_speedKmh m / (36 # 10) * 60 / r * (266 # 100) * finalDrive).
    assert (He : e == 0).
    { unfold e. rewrite H0. unfold Qdiv. ring. }
    destruct (Q.min_spec 8000 e) as [[H1 H2]|[H1 H2]];
      destruct (Q.max_spec 800 (Qmin 8000 e)) as [[M1 M2]|[M1 M2]]; lra.
Qed.

(** [getTransform] draws the steering on the front wheels only: for a
    vehicle whose wheels sit where the constructor put them (as they do
    after any [setControls] and [update]) and a positive wheel base, the
    four wheels are reported with the current steering, the current
    steering, 0 and 0, and with their positions unchanged. *)
Theorem getTransform_front_wheels_steer (c : Config) (v : t) :
  0 < wheelBase c ->
  map wheelPosition (wheels (state v)) = map wheelPosition (wheels (initialState c)) ->
  map wt_steering (tr_wheels (getTransform v))
  = [steering (state v); steering (state v); 0; 0] /\
  map wt_position (tr_wheels (getTransform v))
  = map wheelPosition (wheels (initialState c)).
Proof.
  intros Hwb Hpos. unfold getTransform. cbn [tr_wheels].
  rewrite !map_map. cbn [wt_steering wt_position].
  split.
  - transitivity (map (fun p => if Qltb 0 (Vector3.z p) then steering (state v) else 0)
                      (map wheelPosition (wheels (state v)))).
    { rewrite map_map. reflexivity. }
    rewrite Hpos. cbn.
    assert (Hh : wheelBase c / 2 == wheelBase c * (1 # 2)) by (unfold Qdiv; reflexivity).
    assert (Hn : - wheelBase c / 2 == - wheelBase c * (1 # 2)) by (unfold Qdiv; reflexivity).
    assert (H1 : Qltb 0 (wheelBase c / 2) = true) by (apply Qltb_true; lra).
    assert (H2 : Qltb 0 (- wheelBase c / 2) = false) by (apply Qltb_false; lra).
    rewrite H1, H2. reflexivity.
  - exact Hpos.
Qed.

End VehicleMore.

Lemma setControls_steering_distance_witness :
  Qabs (VehiclePhysics.steering (VehiclePhysics.state
          (VehiclePhysics.setControlsTimes 25 VehiclePhysics.defaultVehicle
             VehiclePhysics.steerRight)) - Qmax (-1) (Qmin 1 1))
  == Qmax 0 (Qabs (0 - Qmax (-1) (Qmin 1 1))
             - inject_Z (Z.of_nat 25) * ((5 # 2) * VehiclePhysics.steeringFrameTime)).
Proof.
  exact (setControls_steering_distance VehiclePhysics.defaultVehicle
           VehiclePhysics.steerRight 1 25 ltac:(vm_compute; discriminate) eq_refl).
Defined.

Lemma update_caps_deltaTime_witness :
  VehiclePhysics.updateA VehiclePhysics.defaultVehicle 5
  = VehiclePhysics.updateA VehiclePhysics.defaultVehicle (1 # 10).
Proof.
  exact (update_caps_deltaTime MathApprox.sqrtA MathApprox.sinA MathApprox.cosA
           MathApprox.piA VehiclePhysics.defaultVehicle 5 VehiclePhysics.flatGround
           eq_refl).
Defined.

Lemma update_wheels_invariant_witness :
  length (VehiclePhysics.wheels (VehiclePhysics.state
            (VehiclePhysics.updateA VehiclePhysics.defaultVehicle (1 # 60))))
  = length (VehiclePhysics.wheels (VehiclePhysics.state VehiclePhysics.defaultVehicle)).
Proof.
  exact (proj1 (proj2
           (update_wheels_invariant MathApprox.sqrtA MathApprox.sinA MathApprox.cosA
              MathApprox.piA VehiclePhysics.defaultVehicle (1 # 60)
              VehiclePhysics.flatGround ltac:(discriminate)))).
Defined.

Lemma update_metrics_in_range_witness :
  800 <= VehiclePhysics.m_rpm (VehiclePhysics.getPerformanceMetrics
           (VehiclePhysics.updateA VehiclePhysics.defaultVehicle (1 # 60))).
Proof.
  exact (proj1
           (update_metrics_in_range MathApprox.sqrtA MathApprox.sinA MathApprox.cosA
              MathApprox.piA VehiclePhysics.defaultVehicle (1 # 60)
              VehiclePhysics.flatGround ltac:(discriminate) ltac:(discriminate)
              ltac:(discriminate) ltac:(discriminate))).
Defined.

Lemma update_airborne_witness :
  VehiclePhysics.groundedWheels VehiclePhysics.airborneVehicle VehiclePhysics.flatGround
    = 0%nat /\
  Vector3.eqv
    (VehiclePhysics.velocity (VehiclePhysics.state
       (VehiclePhysics.updateA VehiclePhysics.airborneVehicle (1 # 60))))
    (Vector3.add Vector3.zero
       (Vector3.mk 0 (- VehiclePhysics.g981 * Qmin (1 # 60) (1 # 10)) 0)).
Proof.
  split; [reflexivity|].
  refine (proj2 (proj2 (proj2 (proj2 (proj2
            (update_airborne MathApprox.sqrtA MathApprox.sinA MathApprox.cosA
               MathApprox.piA VehiclePhysics.airborneVehicle (1 # 60)
               VehiclePhysics.flatGround 1 eq_refl))))) _ _).
  - vm_compute. discriminate.
  - vm_compute. discriminate.
Defined.

Lemma getTransform_front_wheels_steer_witness :
  let v := VehiclePhysics.setControls VehiclePhysics.defaultVehicle VehiclePhysics.steerRight in
  map VehiclePhysics.wt_steering (VehiclePhysics.tr_wheels (VehiclePhysics.getTransform v))
  = [VehiclePhysics.steering (VehiclePhysics.state v);
     VehiclePhysics.steering (VehiclePhysics.state v); 0; 0].
Proof.
  exact (proj1 (getTransform_front_wheels_steer
                  (VehiclePhysics.defaultConfig MathApprox.piA)
                  (VehiclePhysics.setControls VehiclePhysics.defaultVehicle
                     VehiclePhysics.steerRight)
                  eq_refl eq_refl)).
Defined.

(** * CollisionSystem: the default response against walls and twice over,
      what a pass never changes, when a pass completes, the broad phase *)

Section CollisionMore.
Import CollisionSystem.
Variable sqrtQ : Q -> Q.

Lemma frame_set_velocity (o : Object3D) (v : Vector3.t) :
  frame (set_velocity o v) = frame o.
Proof. unfold frame, set_velocity. cbn. destruct (physics o); reflexivity. Qed.

Lemma velocityPresent_set_velocity (o : Object3D) (v : Vector3.t) :
  velocityPresent (set_velocity o v) = true.
Proof. unfold velocityPresent, set_velocity. cbn. destruct (physics o); reflexivity. Qed.

Lemma insert_same_frame (os : list Object3D) (i : nat) (o o' : Object3D) :
  os !! i = Some o -> frame o' = frame o ->
  map frame (<[i := o']> os) = map frame os.
Proof.
  intros Hi Hc.
  change (frame <$> <[i := o']> os = frame <$> os).
  rewrite list_fmap_insert, Hc. apply list_insert_id.
  rewrite list_lookup_fmap, Hi. reflexivity.
Qed.

Lemma defaultCollisionResponse_frame (os os' : list Object3D) (s o : nat)
    (p n : Vector3.t) :
  defaultCollisionResponse os s o p n = Some os' ->
  map frame os' = map frame os.
Proof.
  unfold defaultCollisionResponse. intros H.
  destruct (os !! s) as [oS|] eqn:ES; cbn in H; [|discriminate].
  destruct (os !! o) as [oO|] eqn:EO; cbn in H; [|discriminate].
  destruct (physics oS) as [pS|]; [|injection H as <-; reflexivity].
  destruct (physics oO) as [pO|]; [|injection H as <-; reflexivity].
  destruct (velocity pS) as [v1|]; cbn in H; [|discriminate].
  destruct (mass_or_infinity (mass pO)) as [m2|].
  - destruct (velocity pO) as [v2|]; cbn in H; [|discriminate].
    match type of H with
    | context [<[s := ?x]> os] => set (os1 := <[s := x]> os) in *
    end.
    assert (H1 : map frame os1 = map frame os)
      by (apply (insert_same_frame os s oS); [exact ES | apply frame_set_velocity]).
    destruct (os1 !! o) as [oO1|] eqn:EO1; cbn in H; [|discriminate].
    injection H as <-.
    rewrite (insert_same_frame os1 o oO1); [exact H1 | exact EO1 | apply frame_set_velocity].
  - injection H as <-.
    apply (insert_same_frame os s oS); [exact ES | apply frame_set_velocity].
Qed.

Lemma Forall_insert_present (os : list Object3D) (i : nat) (o : Object3D) :
  List.Forall (fun x => velocityPresent x = true) os ->
  velocityPresent o = true ->
  List.Forall (fun x => velocityPresent x = true) (<[i := o]> os).
Proof.
  intros Hall Ho. apply List.Forall_forall. intros x Hin.
  apply list_elem_of_In, list_elem_of_lookup in Hin. destruct Hin as [k Hk].
  destruct (decide (k = i)) as [->|Hne].
  - destruct (decide (i < length os)%nat) as [Hlt|Hge].
    + rewrite list_lookup_insert_eq in Hk by exact Hlt. congruence.
    + rewrite list_insert_ge in Hk by lia.
      apply (proj1 (List.Forall_forall _ _) Hall).
      apply list_elem_of_In, list_elem_of_lookup. eauto.
  - rewrite list_lookup_insert_ne in Hk by congruence.
    apply (proj1 (List.Forall_forall _ _) Hall).
    apply list_elem_of_In, list_elem_of_lookup. eauto.
Qed.

Lemma lookup_present (os : list Object3D) (i : nat) (o : Object3D) :
  List.Forall (fun x => velocityPresent x = true) os ->
  os !! i = Some o -> velocityPresent o = true.
Proof.
  intros Hall Hi. apply (proj1 (List.Forall_forall _ _) Hall).
  apply list_elem_of_In, list_elem_of_lookup. eauto.
Qed.

Lemma defaultCollisionResponse_total (os : list Object3D) (s o : nat) (p n : Vector3.t) :
  (s < length os)%nat -> (o < length os)%nat ->
  List.Forall (fun x => velocityPresent x = true) os ->
  exists os', defaultCollisionResponse os s o p n = Some os' /\
              length os' = length os /\
              List.Forall (fun x => velocityPresent x = true) os'.
Proof.
  intros Hs Ho Hall. unfold defaultCollisionResponse.
  destruct (lookup_lt_is_Some_2 os s Hs) as [oS ES].
  destruct (lookup_lt_is_Some_2 os o Ho) as [oO EO].
  rewrite ES, EO. cbn [mbind option_bind].
  assert (HpS := lookup_present _ _ _ Hall ES).
  assert (HpO := lookup_present _ _ _ Hall EO).
  unfold velocityPresent in HpS, HpO.
  destruct (physics oS) as [pS|]; [|eauto].
  destruct (physics oO) as [pO|]; [|eauto].
  destruct (velocity pS) as [v1|]; [|discriminate].
  destruct (velocity pO) as [v2|]; [|discriminate].
  cbn [mbind option_bind default].
  destruct (mass_or_infinity (mass pO)) as [m2|].
  - match goal with
    | |- context [<[s := ?x]> os] => set (oS' := x)
    end.
    assert (Hlo : (o < length (<[s := oS']> os))%nat) by (rewrite length_insert; exact Ho).
    destruct (lookup_lt_is_Some_2 _ o Hlo) as [oO1 EO1].
    rewrite EO1. cbn [mbind option_bind]. eexists. split; [reflexivity|].
    split; [rewrite !length_insert; reflexivity|].
    apply Forall_insert_present; [|apply velocityPresent_set_velocity].
    apply Forall_insert_present; [exact Hall|apply velocityPresent_set_velocity].
  - eexists. split; [reflexivity|].
    split; [rewrite length_insert; reflexivity|].
    apply Forall_insert_present; [exact Hall|apply velocityPresent_set_velocity].
Qed.

Lemma trigger_total (N : nat) (w : list Object3D * list Call) (s o : nat)
    (p n : Vector3.t) :
  safeTable N w -> (s < N)%nat -> (o < N)%nat ->
  exists w', trigger w s o p n = Some w' /\ safeTable N w'.
Proof.
  intros [Hlen Hall] Hs Ho. unfold trigger.
  destruct (lookup_lt_is_Some_2 w.1 s ltac:(lia)) as [oS ES]. rewrite ES.
  cbn [mbind option_bind].
  destruct (onCollision (collider oS)) as [[|id]|].
  - destruct (defaultCollisionResponse_total w.1 s o p n ltac:(lia) ltac:(lia) Hall)
      as (os' & -> & Hlen' & Hall').
    cbn [mbind option_bind]. eexists. split; [reflexivity|].
    split; cbn [fst]; [lia|exact Hall'].
  - eexists. split; [reflexivity|]. split; cbn [fst]; assumption.
  - eexists. split; [reflexivity|]. split; assumption.
Qed.

Lemma checkDynamic_total (N i j : nat) (w : list Object3D * list Call) :
  safeTable N w -> (i < N)%nat -> (j < N)%nat ->
  exists w', checkDynamic sqrtQ i w j = Some w' /\ safeTable N w'.
Proof.
  intros Hw Hi Hj. unfold checkDynamic.
  destruct (lookup_lt_is_Some_2 w.1 i ltac:(destruct Hw; lia)) as [objA EA].
  destruct (lookup_lt_is_Some_2 w.1 j ltac:(destruct Hw; lia)) as [objB EB].
  rewrite EA, EB. cbn [mbind option_bind].
  destruct (overlap objA objB); [|eauto].
  destruct (trigger_total N w i j (contactPoint objA objB)
              (contactNormal sqrtQ objA objB) Hw Hi Hj) as (w1 & -> & Hw1).
  cbn [mbind option_bind].
  apply trigger_total; assumption.
Qed.

Lemma checkStatic_total (N i k : nat) (w : list Object3D * list Call) :
  safeTable N w -> (i < N)%nat -> (k < N)%nat ->
  exists w', checkStatic sqrtQ i w k = Some w' /\ safeTable N w'.
Proof.
  intros Hw Hi Hk. unfold checkStatic.
  destruct (lookup_lt_is_Some_2 w.1 i ltac:(destruct Hw; lia)) as [objA EA].
  destruct (lookup_lt_is_Some_2 w.1 k ltac:(destruct Hw; lia)) as [objS ES].
  rewrite EA, ES. cbn [mbind option_bind].
  destruct (overlap objA objS); [|eauto].
  apply trigger_total; assumption.
Qed.

Lemma foldM_total {A B : Type} (Inv : A -> Prop) (P : B -> Prop)
    (f : A -> B -> option A) (l : list B) (a : A) :
  (forall x b, Inv x -> P b -> exists x', f x b = Some x' /\ Inv x') ->
  List.Forall P l -> Inv a ->
  exists a', foldM f l a = Some a' /\ Inv a'.
Proof.
  intros Hstep. unfold foldM. revert a.
  induction l as [|b l IH]; intros a Hl Ha.
  - exists a. split; [reflexivity|exact Ha].
  - inversion Hl as [|? ? Hb Hl']; subst. cbn [fold_left mbind option_bind].
    destruct (Hstep a b Ha Hb) as (x' & -> & Hx'). apply IH; assumption.
Qed.

Lemma checkFrom_total (N : nat) (cs statics : list nat) (w : list Object3D * list Call) :
  List.Forall (fun i => (i < N)%nat) cs ->
  List.Forall (fun i => (i < N)%nat) statics ->
  safeTable N w ->
  exists w', checkFrom sqrtQ cs statics w = Some w' /\ safeTable N w'.
Proof.
  intros Hcs Hst. revert w. induction cs as [|i later IH]; intros w Hw.
  - exists w. split; [reflexivity|exact Hw].
  - inversion Hcs as [|? ? Hi Hlater]; subst. cbn [checkFrom].
    destruct (foldM_total (safeTable N) (fun j => (j < N)%nat) (checkDynamic sqrtQ i) later w
                (fun x b Hx Hb => checkDynamic_total N i b x Hx Hi Hb) Hlater Hw)
      as (w1 & -> & Hw1).
    cbn [mbind option_bind].
    destruct (foldM_total (safeTable N) (fun j => (j < N)%nat) (checkStatic sqrtQ i) statics w1
                (fun x b Hx Hb => checkStatic_total N i b x Hx Hi Hb) Hst Hw1)
      as (w2 & -> & Hw2).
    cbn [mbind option_bind]. apply IH; assumption.
Qed.

(** The first loop of [update] rewrites colliders only, and only those of
    the indices it is given. *)
Lemma updateColliders_spec (idxs : list nat) (os : list Object3D) :
  length (updateColliders sqrtQ os idxs) = length os /\
  map worldBox (updateColliders sqrtQ os idxs) = map worldBox os /\
  map physics (updateColliders sqrtQ os idxs) = map physics os /\
  (forall k, ~ In k idxs -> updateColliders sqrtQ os idxs !! k = os !! k).
Proof.
  unfold updateColliders. revert os.
  induction idxs as [|i idxs IH]; intros os; cbn [fold_left].
  - repeat split.
  - destruct (os !! i) as [o|] eqn:E.
    + destruct (IH (<[i := updateCollider sqrtQ o]> os)) as (H1 & H2 & H3 & H4).
      split; [rewrite H1; apply length_insert|].
      split; [rewrite H2|split; [rewrite H3|]].
      * change (worldBox <$> <[i := updateCollider sqrtQ o]> os = worldBox <$> os).
        rewrite list_fmap_insert. apply list_insert_id.
        rewrite list_lookup_fmap, E. reflexivity.
      * change (physics <$> <[i := updateCollider sqrtQ o]> os = physics <$> os).
        rewrite list_fmap_insert. apply list_insert_id.
        rewrite list_lookup_fmap, E. reflexivity.
      * intros k Hk. rewrite H4 by (intros Hin; apply Hk; right; exact Hin).
        apply list_lookup_insert_ne. intros ->. apply Hk. left. reflexivity.
    + destruct (IH os) as (H1 & H2 & H3 & H4).
      repeat split; try assumption.
      intros k Hk. apply H4. intros Hin. apply Hk. right. exact Hin.
Qed.

Lemma updateColliders_present (idxs : list nat) (os : list Object3D) :
  List.Forall (fun x => velocityPresent x = true) os ->
  List.Forall (fun x => velocityPresent x = true) (updateColliders sqrtQ os idxs).
Proof.
  intros Hall.
  destruct (updateColliders_spec idxs os) as (_ & _ & Hph & _).
  apply List.Forall_forall. intros x Hin.
  apply list_elem_of_In, list_elem_of_lookup in Hin. destruct Hin as [k Hk].
  assert (Hp : (physics <$> os) !! k = Some (physics x)).
  { change (physics <$> os) with (map physics os). rewrite <- Hph.
    change (map physics (updateColliders sqrtQ os idxs))
      with (physics <$> updateColliders sqrtQ os idxs).
    rewrite list_lookup_fmap, Hk. reflexivity. }
  rewrite list_lookup_fmap in Hp.
  destruct (os !! k) as [y|] eqn:Ey; cbn in Hp; [|discriminate].
  injection Hp as Hp.
  assert (Hy := lookup_present _ _ _ Hall Ey).
  unfold velocityPresent in *. rewrite <- Hp. exact Hy.
Qed.

Lemma trigger_passInv (os0 : list Object3D) (dyn every : list nat)
    (w w' : list Object3D * list Call) (s o : nat) (p n : Vector3.t) :
  passInv os0 dyn every w -> In s dyn -> In o every ->
  trigger w s o p n = Some w' -> passInv os0 dyn every w'.
Proof.
  intros [Hmap Hcalls] Hs Ho. unfold trigger. intros H.
  destruct (w.1 !! s) as [oS|]; cbn in H; [|discriminate].
  assert (Hnew : List.Forall (fun c => In (self c) dyn /\ In (other c) every)
                   (w.2 ++ [mkCall s o p n])).
  { apply List.Forall_app. split; [exact Hcalls|].
    constructor; [split; assumption|constructor]. }
  destruct (onCollision (collider oS)) as [[|id]|].
  - destruct (defaultCollisionResponse w.1 s o p n) as [os'|] eqn:E;
      cbn in H; [|discriminate].
    injection H as <-. split; cbn [fst snd]; [|exact Hnew].
    rewrite (defaultCollisionResponse_frame _ _ _ _ _ _ E). exact Hmap.
  - injection H as <-. split; cbn [fst snd]; [exact Hmap|exact Hnew].
  - injection H as <-. split; assumption.
Qed.

Lemma checkDynamic_passInv (os0 : list Object3D) (dyn every : list nat) (i j : nat)
    (w w' : list Object3D * list Call) :
  passInv os0 dyn every w -> In i dyn -> In j dyn -> In i every -> In j every ->
  checkDynamic sqrtQ i w j = Some w' -> passInv os0 dyn every w'.
Proof.
  intros Hinv Hi Hj Hi' Hj'. unfold checkDynamic. intros H.
  destruct (w.1 !! i) as [objA|]; cbn in H; [|discriminate].
  destruct (w.1 !! j) as [objB|]; cbn in H; [|discriminate].
  destruct (overlap objA objB); [|injection H as <-; exact Hinv].
  destruct (trigger w i j _ _) as [w1|] eqn:E1; cbn in H; [|discriminate].
  eapply trigger_passInv; [|exact Hj|exact Hi'|exact H].
  eapply trigger_passInv; [exact Hinv|exact Hi|exact Hj'|exact E1].
Qed.

Lemma checkStatic_passInv (os0 : list Object3D) (dyn every : list nat) (i k : nat)
    (w w' : list Object3D * list Call) :
  passInv os0 dyn every w -> In i dyn -> In k every ->
  checkStatic sqrtQ i w k = Some w' -> passInv os0 dyn every w'.
Proof.
  intros Hinv Hi Hk. unfold checkStatic. intros H.
  destruct (w.1 !! i) as [objA|]; cbn in H; [|discriminate].
  destruct (w.1 !! k) as [objS|]; cbn in H; [|discriminate].
  destruct (overlap objA objS); [|injection H as <-; exact Hinv].
  eapply trigger_passInv; [exact Hinv|exact Hi|exact Hk|exact H].
Qed.

Lemma foldM_inv_in {A B : Type} (Inv : A -> Prop) (f : A -> B -> option A)
    (l : list B) (a a' : A) :
  (forall x b x', In b l -> Inv x -> f x b = Some x' -> Inv x') ->
  Inv a -> foldM f l a = Some a' -> Inv a'.
Proof.
  unfold foldM. revert a.
  induction l as [|b l IH]; intros a Hstep Ha Hrun.
  - cbn in Hrun. injection Hrun as <-. exact Ha.
  - cbn [fold_left mbind option_bind] in Hrun.
    destruct (f a b) as [x|] eqn:E.
    + apply (IH x); [|apply (Hstep a b x); [left; reflexivity|exact Ha|exact E]|exact Hrun].
      intros y c y' Hc. apply Hstep. right. exact Hc.
    + exfalso. clear -Hrun. induction l as [|c l IHl]; cbn in Hrun; [discriminate|].
      apply IHl. exact Hrun.
Qed.

Lemma checkFrom_passInv (os0 : list Object3D) (dyn every cs statics : list nat)
    (w w' : list Object3D * list Call) :
  (forall i, In i cs -> In i dyn /\ In i every) ->
  (forall k, In k statics -> In k every) ->
  passInv os0 dyn every w ->
  checkFrom sqrtQ cs statics w = Some w' -> passInv os0 dyn every w'.
Proof.
  intros Hcs Hst. revert w. induction cs as [|i later IH]; intros w Hinv H.
  - injection H as <-. exact Hinv.
  - cbn [checkFrom] in H.
    destruct (foldM (checkDynamic sqrtQ i) later w) as [w1|] eqn:E1;
      cbn in H; [|discriminate].
    destruct (foldM (checkStatic sqrtQ i) statics w1) as [w2|] eqn:E2;
      cbn in H; [|discriminate].
    destruct (Hcs i ltac:(left; reflexivity)) as [Hi Hi'].
    assert (Hinv1 : passInv os0 dyn every w1).
    { apply (foldM_inv_in (passInv os0 dyn every) _ _ _ _
               (fun x b x' Hb Hx Hf =>
                  checkDynamic_passInv os0 dyn every i b x x' Hx Hi
                    (proj1 (Hcs b (or_intror Hb))) Hi' (proj2 (Hcs b (or_intror Hb))) Hf)
               Hinv E1). }
    assert (Hinv2 : passInv os0 dyn every w2).
    { apply (foldM_inv_in (passInv os0 dyn every) _ _ _ _
               (fun x b x' Hb Hx Hf =>
                  checkStatic_passInv os0 dyn every i b x x' Hx Hi (Hst b Hb) Hf)
               Hinv1 E2). }
    apply (IH (fun j Hj => Hcs j (or_intror Hj)) w2 Hinv2 H).
Qed.

Lemma lookup_same_frame (os os0 : list Object3D) (i : nat) (a : Object3D) :
  map frame os = map frame os0 -> os0 !! i = Some a ->
  exists a', os !! i = Some a' /\ frame a' = frame a.
Proof.
  intros Hmap Hi.
  assert (H : (frame <$> os) !! i = Some (frame a)).
  { change (frame <$> os) with (map frame os). rewrite Hmap.
    change (map frame os0) with (frame <$> os0).
    rewrite list_lookup_fmap, Hi. reflexivity. }
  rewrite list_lookup_fmap in H.
  destruct (os !! i) as [a'|]; cbn in H; [|discriminate].
  exists a'. split; [reflexivity|]. congruence.
Qed.

(** X13.  Against a wall (an [other] whose physics data carry no mass, or
    mass 0) the default response writes one thing: the velocity of [self]
    becomes half its reflection about the normal.  The wall and every other
    object are left as they are, nothing but that velocity changes, and for
    a unit normal the normal component of the velocity is reversed and
    halved and the speed is exactly halved. *)
Theorem defaultCollisionResponse_wall (os : list Object3D) (s o : nat)
    (oS oO : Object3D) (pS pO : Physics) (v1 p n : Vector3.t) :
  os !! s = Some oS -> os !! o = Some oO ->
  physics oS = Some pS -> velocity pS = Some v1 ->
  physics oO = Some pO -> mass_or_infinity (mass pO) = None ->
  exists os',
    defaultCollisionResponse os s o p n = Some os' /\
    velocityOf os' s = Some (Vector3.multiplyScalar (Vector3.reflect v1 n) (5 # 10)) /\
    (forall k, k <> s -> os' !! k = os !! k) /\
    map frame os' = map frame os /\
    (Vector3.dot n n == 1 ->
     Vector3.dot (Vector3.multiplyScalar (Vector3.reflect v1 n) (5 # 10)) n
       == - (1 # 2) * Vector3.dot v1 n /\
     Vector3.lengthSq (Vector3.multiplyScalar (Vector3.reflect v1 n) (5 # 10))
       == (1 # 4) * Vector3.lengthSq v1).
Proof.
  intros HS HO HpS Hv1 HpO Hm.
  assert (Hls : (s < length os)%nat) by (apply lookup_lt_is_Some; eauto).
  assert (Hrun : defaultCollisionResponse os s o p n
                 = Some (<[s := set_velocity oS
                                  (Vector3.multiplyScalar (Vector3.reflect v1 n) (5 # 10))]> os)).
  { unfold defaultCollisionResponse. rewrite HS, HO. cbn [mbind option_bind].
    rewrite HpS, HpO, Hv1. cbn [mbind option_bind]. rewrite Hm. reflexivity. }
  eexists. split; [exact Hrun|]. split; [|split; [|split]].
  - unfold velocityOf. rewrite list_lookup_insert_eq by exact Hls.
    cbn [mbind option_bind]. unfold set_velocity. rewrite HpS. reflexivity.
  - intros k Hk. apply list_lookup_insert_ne. congruence.
  - exact (defaultCollisionResponse_frame _ _ _ _ _ _ Hrun).
  - intros Hn. unfold Vector3.dot, Vector3.lengthSq, Vector3.reflect, Vector3.dot in *.
    cbn [Vector3.sub Vector3.multiplyScalar Vector3.x Vector3.y Vector3.z] in *.
    destruct v1 as [a b c], n as [nx ny nz].
    cbn [Vector3.x Vector3.y Vector3.z] in *.
    set (N := nx * nx + ny * ny + nz * nz) in *.
    set (D := a * nx + b * ny + c * nz).
    split.
    + transitivity (- (1 # 2) * D + D * (1 - N)); [unfold N, D; ring|].
      rewrite Hn. ring.
    + transitivity ((1 # 4) * (a * a + b * b + c * c) + D * D * (N - 1));
        [unfold N, D; ring|].
      rewrite Hn. ring.
Qed.

(** X14.  The default response run twice on a pair, once for each side
    with the normal negated, as [update] runs it for two dynamic colliders
    that both use it: for a unit normal and positive masses the second run
    undoes the exchange of the first, and both objects end with 0.64 times
    the velocity they had, whatever the masses. *)
Theorem defaultCollisionResponse_twice (os : list Object3D) (s o : nat)
    (oS oO : Object3D) (v1 v2 : Vector3.t) (m1 m2 : Q) (p n : Vector3.t) :
  s <> o ->
  os !! s = Some oS -> os !! o = Some oO ->
  physics oS = Some (mkPhysics (Some v1) (Some m1)) ->
  physics oO = Some (mkPhysics (Some v2) (Some m2)) ->
  0 < m1 -> 0 < m2 ->
  Vector3.dot n n == 1 ->
  exists os1 os2 u1 u2,
    defaultCollisionResponse os s o p n = Some os1 /\
    defaultCollisionResponse os1 o s p (Vector3.negate n) = Some os2 /\
    velocityOf os2 s = Some u1 /\ velocityOf os2 o = Some u2 /\
    Vector3.eqv u1 (Vector3.multiplyScalar v1 (64 # 100)) /\
    Vector3.eqv u2 (Vector3.multiplyScalar v2 (64 # 100)).
Proof.
  intros Hne HS HO HpS HpO Hm1 Hm2 Hn.
  assert (Hls : (s < length os)%nat) by (apply lookup_lt_is_Some; eauto).
  assert (Hlo : (o < length os)%nat) by (apply lookup_lt_is_Some; eauto).
  unfold defaultCollisionResponse at 1.
  rewrite HS, HO. cbn [mbind option_bind]. rewrite HpS, HpO.
  cbn [mbind option_bind velocity mass default opt_num_or].
  rewrite (mass_or_infinity_pos m2 Hm2), !(num_or_pos _ _ Hm1).
  match goal with
  | |- context [<[s := ?x]> os] => set (oS' := x)
  end.
  assert (HO1 : <[s := oS']> os !! o = Some oO)
    by (rewrite list_lookup_insert_ne; [exact HO | exact Hne]).
  rewrite HO1. cbn [mbind option_bind].
  match goal with
  | |- context [<[o := ?x]> (<[s := oS']> os)] => set (oO' := x)
  end.
  set (os1 := <[o := oO']> (<[s := oS']> os)).
  assert (HS' : os1 !! s = Some oS').
  { unfold os1. rewrite list_lookup_insert_ne by congruence.
    apply list_lookup_insert_eq. exact Hls. }
  assert (HO' : os1 !! o = Some oO').
  { unfold os1. apply list_lookup_insert_eq. rewrite length_insert. exact Hlo. }
  exists os1.
  unfold defaultCollisionResponse.
  rewrite HS', HO'. cbn [mbind option_bind].
  unfold oS' at 1, oO' at 1, set_velocity. rewrite HpS, HpO.
  cbn [physics mbind option_bind velocity mass default opt_num_or].
  rewrite (mass_or_infinity_pos m1 Hm1), !(num_or_pos _ _ Hm2).
  match goal with
  | |- context [<[o := ?x]> os1] => set (oO'' := x)
  end.
  assert (HS1 : <[o := oO'']> os1 !! s = Some oS')
    by (rewrite list_lookup_insert_ne; [exact HS' | congruence]).
  rewrite HS1. cbn [mbind option_bind].
  match goal with
  | |- context [<[s := ?x]> (<[o := oO'']> os1)] => set (oS'' := x)
  end.
  assert (Hl1 : length os1 = length os) by (unfold os1; rewrite !length_insert; reflexivity).
  eexists _, _, _. split; [reflexivity|]. split; [reflexivity|].
  unfold velocityOf.
  rewrite list_lookup_insert_eq by (rewrite length_insert, Hl1; exact Hls).
  rewrite list_lookup_insert_ne by congruence.
  rewrite list_lookup_insert_eq by (rewrite Hl1; exact Hlo).
  cbn [mbind option_bind].
  unfold oS'', oO'', oS', oO', set_velocity. rewrite HpS, HpO.
  cbn [physics velocity mbind option_bind].
  split; [reflexivity|]. split; [reflexivity|].
  clearbody os1. clear oS' oO' oS'' oO'' HS' HO' HS1 HO1.
  unfold Vector3.eqv, Vector3.dot, id in *.
  destruct v1 as [a1 b1 c1], v2 as [a2 b2 c2], n as [nx ny nz].
  cbn [Vector3.add Vector3.sub Vector3.multiplyScalar Vector3.negate
       Vector3.x Vector3.y Vector3.z] in *.
  set (N := nx * nx + ny * ny + nz * nz) in *.
  set (r := (a1 - a2) * nx + (b1 - b2) * ny + (c1 - c2) * nz).
  assert (Hm : ~ m1 + m2 == 0) by lra.
  assert (Hm' : ~ m2 + m1 == 0) by lra.
  split; [split; [|split]|split; [|split]].
  - transitivity (a1 * (64 # 100) + (256 # 100) * m2 / (m1 + m2) * r * nx * (N - 1));
      [unfold N, r; field; lra|]. rewrite Hn. field. exact Hm.
  - transitivity (b1 * (64 # 100) + (256 # 100) * m2 / (m1 + m2) * r * ny * (N - 1));
      [unfold N, r; field; lra|]. rewrite Hn. field. exact Hm.
  - transitivity (c1 * (64 # 100) + (256 # 100) * m2 / (m1 + m2) * r * nz * (N - 1));
      [unfold N, r; field; lra|]. rewrite Hn. field. exact Hm.
  - transitivity (a2 * (64 # 100) - (256 # 100) * m1 / (m1 + m2) * r * nx * (N - 1));
      [unfold N, r; field; lra|]. rewrite Hn. field. exact Hm.
  - transitivity (b2 * (64 # 100) - (256 # 100) * m1 / (m1 + m2) * r * ny * (N - 1));
      [unfold N, r; field; lra|]. rewrite Hn. field. exact Hm.
  - transitivity (c2 * (64 # 100) - (256 # 100) * m1 / (m1 + m2) * r * nz * (N - 1));
      [unfold N, r; field; lra|]. rewrite Hn. field. exact Hm.
Qed.

Lemma forallb_Forall_present (os : list Object3D) :
  forallb velocityPresent os = true ->
  List.Forall (fun x => velocityPresent x = true) os.
Proof. intros H. apply List.Forall_forall. apply forallb_forall. exact H. Qed.

Lemma update_passInv (cs cs' : CollisionSystem.t) (deltaTime : Q) (calls : list Call) :
  update sqrtQ cs deltaTime = Some (cs', calls) ->
  colliders cs' = colliders cs /\ staticColliders cs' = staticColliders cs /\
  passInv (updateColliders sqrtQ (objects cs) (colliders cs))
          (colliders cs) (colliders cs ++ staticColliders cs)
          (objects cs', calls).
Proof.
  unfold update. intros H.
  destruct (checkFrom sqrtQ (colliders cs) (staticColliders cs)
              (updateColliders sqrtQ (objects cs) (colliders cs), []))
    as [w|] eqn:E; cbn in H; [|discriminate].
  injection H as <- <-. split; [reflexivity|]. split; [reflexivity|].
  cbn [objects set_objects]. rewrite <- surjective_pairing.
  refine (checkFrom_passInv _ _ _ _ _ _ _ _ _ _ E).
  - intros i Hi. split; [exact Hi|]. apply in_or_app. left. exact Hi.
  - intros k Hk. apply in_or_app. right. exact Hk.
  - split; [reflexivity|constructor].
Qed.

(** X15.  The default response raises exactly when both objects carry
    physics data and a velocity it has to read is missing: that of [self],
    or that of an [other] with a mass.  An object without physics data on
    either side makes it return with nothing done. *)
Theorem defaultCollisionResponse_fails_iff (os : list Object3D) (s o : nat)
    (oS oO : Object3D) (p n : Vector3.t) :
  os !! s = Some oS -> os !! o = Some oO ->
  (defaultCollisionResponse os s o p n = None <->
   exists pS pO,
     physics oS = Some pS /\ physics oO = Some pO /\
     (velocity pS = None \/
      (mass_or_infinity (mass pO) <> None /\ velocity pO = None))) /\
  (physics oS = None \/ physics oO = None ->
   defaultCollisionResponse os s o p n = Some os).
Proof.
  intros HS HO.
  assert (Hlo : (o < length os)%nat) by (apply lookup_lt_is_Some; eauto).
  unfold defaultCollisionResponse. rewrite HS, HO. cbn [mbind option_bind].
  destruct (physics oS) as [pS|]; [|split; [split; [discriminate|]|reflexivity]].
  2: { intros (? & ? & [=] & _). }
  destruct (physics oO) as [pO|]; [|split; [split; [discriminate|]|reflexivity]].
  2: { intros (? & ? & _ & [=] & _). }
  split; [|intros [[=]|[=]]].
  destruct (velocity pS) as [v1|] eqn:EvS; cbn [mbind option_bind].
  - destruct (mass_or_infinity (mass pO)) as [m2|] eqn:Em.
    + destruct (velocity pO) as [v2|] eqn:EvO; cbn [mbind option_bind default].
      * match goal with
        | |- context [<[s := ?x]> os] => set (oS' := x)
        end.
        assert (Hl : (o < length (<[s := oS']> os))%nat)
          by (rewrite length_insert; exact Hlo).
        destruct (lookup_lt_is_Some_2 _ o Hl) as [oO1 ->]. cbn [mbind option_bind].
        split; [discriminate|].
        intros (pS' & pO' & HpS' & HpO' & Hcase).
        injection HpS' as <-. injection HpO' as <-.
        destruct Hcase as [H|[_ H]]; congruence.
      * split; [|reflexivity]. intros _. exists pS, pO.
        split; [reflexivity|]. split; [reflexivity|]. right.
        split; [congruence|exact EvO].
    + split; [discriminate|].
      intros (pS' & pO' & HpS' & HpO' & Hcase).
      injection HpS' as <-. injection HpO' as <-.
      destruct Hcase as [H|[H _]]; congruence.
  - split; [|reflexivity]. intros _. exists pS, pO.
    split; [reflexivity|]. split; [reflexivity|]. left. exact EvS.
Qed.

(** X16.  One pass of [update] changes velocities and nothing else: the
    two collider lists, the number of objects, every object's geometry and
    mass are as before, the colliders are those the refreshing loop
    computed, and every callback invocation has a dynamic collider as
    [self] and a registered collider as [other]. *)
Theorem update_changes_only_velocities (cs cs' : CollisionSystem.t)
    (deltaTime : Q) (calls : list Call) :
  update sqrtQ cs deltaTime = Some (cs', calls) ->
  colliders cs' = colliders cs /\ staticColliders cs' = staticColliders cs /\
  length (objects cs') = length (objects cs) /\
  map worldBox (objects cs') = map worldBox (objects cs) /\
  map (fun x => option_map mass (physics x)) (objects cs')
    = map (fun x => option_map mass (physics x)) (objects cs) /\
  map collider (objects cs')
    = map collider (updateColliders sqrtQ (objects cs) (colliders cs)) /\
  List.Forall (fun c => In (self c) (colliders cs) /\
                        In (other c) (colliders cs ++ staticColliders cs)) calls.
Proof.
  intros H. destruct (update_passInv _ _ _ _ H) as (Hc & Hs & Hframe & Hcalls).
  cbn [fst snd] in Hframe, Hcalls.
  destruct (updateColliders_spec (colliders cs) (objects cs)) as (Hlen & Hbox & Hph & _).
  split; [exact Hc|]. split; [exact Hs|].
  split; [|split; [|split; [|split; [|exact Hcalls]]]].
  - rewrite <- Hlen, <- (length_map frame), Hframe. apply length_map.
  - rewrite <- Hbox.
    transitivity (map (fun f : Box3 * Collider * option (option Q) => f.1.1)
                      (map frame (objects cs'))).
    { rewrite map_map. reflexivity. }
    rewrite Hframe, map_map. reflexivity.
  - transitivity (map (fun f : Box3 * Collider * option (option Q) => f.2)
                      (map frame (objects cs'))).
    { rewrite map_map. reflexivity. }
    rewrite Hframe, map_map.
    transitivity (map (option_map mass)
                      (map physics (updateColliders sqrtQ (objects cs) (colliders cs)))).
    { rewrite map_map. reflexivity. }
    rewrite Hph, map_map. reflexivity.
  - transitivity (map (fun f : Box3 * Collider * option (option Q) => f.1.2)
                      (map frame (objects cs'))).
    { rewrite map_map. reflexivity. }
    rewrite Hframe, map_map. reflexivity.
Qed.

(** X17.  [update] refreshes the bounds of the dynamic colliders only and
    calls back dynamic colliders only: an object that is not in
    [colliders] keeps the box, the bounding sphere and the mass it was
    registered with, never is the [self] of a callback, and is left wholly
    unchanged if it has no physics data. *)
Theorem update_leaves_static_objects (cs cs' : CollisionSystem.t)
    (deltaTime : Q) (calls : list Call) (k : nat) (x : Object3D) :
  update sqrtQ cs deltaTime = Some (cs', calls) ->
  ~ In k (colliders cs) ->
  objects cs !! k = Some x ->
  exists x',
    objects cs' !! k = Some x' /\ frame x' = frame x /\
    (physics x = None -> x' = x) /\
    List.Forall (fun c => self c <> k) calls.
Proof.
  intros H Hk Hx. destruct (update_passInv _ _ _ _ H) as (_ & _ & Hframe & Hcalls).
  cbn [fst snd] in Hframe, Hcalls.
  destruct (updateColliders_spec (colliders cs) (objects cs)) as (_ & _ & _ & Hsame).
  rewrite <- (Hsame k Hk) in Hx.
  destruct (lookup_same_frame _ _ _ _ Hframe Hx) as (x' & Hx' & Hf).
  exists x'. split; [exact Hx'|]. split; [exact Hf|]. split.
  - intros Hnone. unfold frame in Hf. rewrite Hnone in Hf.
    destruct x' as [b' [p'|] c'], x as [b ph c]; cbn in *; [discriminate|].
    injection Hf as -> ->. rewrite Hnone. reflexivity.
  - apply List.Forall_forall. intros c Hc Heq.
    apply Hk. rewrite <- Heq.
    exact (proj1 (proj1 (List.Forall_forall _ _) Hcalls c Hc)).
Qed.

(** X18.  A pass of [update] completes, raising no error, whenever every
    registered index names an object of the table and every object with
    physics data has a velocity; the callbacks then all ran. *)
Theorem update_completes (cs : CollisionSystem.t) (deltaTime : Q) :
  indicesValid cs = true ->
  forallb velocityPresent (objects cs) = true ->
  exists cs' calls,
    update sqrtQ cs deltaTime = Some (cs', calls) /\
    forallb velocityPresent (objects cs') = true /\
    indicesValid cs' = true.
Proof.
  intros Hidx Hall. unfold update.
  set (N := length (objects cs)).
  assert (Hvalid : List.Forall (fun i => (i < N)%nat) (colliders cs ++ staticColliders cs)).
  { apply List.Forall_forall. intros i Hi.
    unfold indicesValid in Hidx.
    apply (proj1 (forallb_forall _ _) Hidx) in Hi. apply Nat.ltb_lt in Hi. exact Hi. }
  apply List.Forall_app in Hvalid. destruct Hvalid as [Hdyn Hst].
  destruct (updateColliders_spec (colliders cs) (objects cs)) as (Hlen & _).
  destruct (checkFrom_total N (colliders cs) (staticColliders cs)
              (updateColliders sqrtQ (objects cs) (colliders cs), []) Hdyn Hst)
    as (w & -> & Hlen' & Hall').
  { split; cbn [fst]; [exact Hlen|].
    apply updateColliders_present, forallb_Forall_present, Hall. }
  cbn [mbind option_bind]. eexists _, _. split; [reflexivity|]. split.
  - cbn [objects set_objects]. apply forallb_forall.
    apply List.Forall_forall. exact Hall'.
  - unfold indicesValid. cbn [objects colliders staticColliders set_objects].
    rewrite Hlen'. exact Hidx.
Qed.

End CollisionMore.

Lemma defaultCollisionResponse_wall_witness :
  exists os',
    CollisionSystem.defaultCollisionResponse
      (CollisionSystem.objects CollisionSystem.wallScene) 0 1
      Vector3.zero (Vector3.mk 1 0 0) = Some os' /\
    CollisionSystem.velocityOf os' 0
    = Some (Vector3.multiplyScalar
              (Vector3.reflect (Vector3.mk 3 0 0) (Vector3.mk 1 0 0)) (5 # 10)).
Proof.
  destruct (defaultCollisionResponse_wall
              (CollisionSystem.objects CollisionSystem.wallScene) 0 1
              _ _ _ _ (Vector3.mk 3 0 0) Vector3.zero (Vector3.mk 1 0 0)
              eq_refl eq_refl eq_refl eq_refl eq_refl eq_refl)
    as (os' & Hrun & Hv & _).
  exists os'. split; [exact Hrun|exact Hv].
Defined.

Lemma defaultCollisionResponse_twice_witness :
  exists os1 os2 u1 u2,
    CollisionSystem.defaultCollisionResponse
      (CollisionSystem.objects CollisionSystem.pairDefault) 0 1
      Vector3.zero (Vector3.mk 1 0 0) = Some os1 /\
    CollisionSystem.defaultCollisionResponse os1 1 0
      Vector3.zero (Vector3.negate (Vector3.mk 1 0 0)) = Some os2 /\
    CollisionSystem.velocityOf os2 0 = Some u1 /\
    CollisionSystem.velocityOf os2 1 = Some u2 /\
    Vector3.eqv u1 (Vector3.multiplyScalar (Vector3.mk 3 0 0) (64 # 100)) /\
    Vector3.eqv u2 (Vector3.multiplyScalar (Vector3.mk 0 0 0) (64 # 100)).
Proof.
  eapply (defaultCollisionResponse_twice
            (CollisionSystem.objects CollisionSystem.pairDefault) 0 1);
    [discriminate|reflexivity|reflexivity|reflexivity|reflexivity|reflexivity|reflexivity
    |reflexivity].
Defined.

Lemma defaultCollisionResponse_fails_iff_witness :
  CollisionSystem.defaultCollisionResponse
    (CollisionSystem.objects CollisionSystem.wallScene) 1 0
    Vector3.zero (Vector3.mk 1 0 0) = None.
Proof.
  apply (proj1 (defaultCollisionResponse_fails_iff
                  (CollisionSystem.objects CollisionSystem.wallScene) 1 0
                  _ _ Vector3.zero (Vector3.mk 1 0 0) eq_refl eq_refl)).
  eexists _, _. split; [reflexivity|]. split; [reflexivity|]. left. reflexivity.
Defined.

Lemma update_changes_only_velocities_witness :
  exists cs' calls,
    CollisionSystem.update MathApprox.sqrtA CollisionSystem.wallScene (1 # 60)
      = Some (cs', calls) /\
    map CollisionSystem.worldBox (CollisionSystem.objects cs')
      = map CollisionSystem.worldBox (CollisionSystem.objects CollisionSystem.wallScene) /\
    List.Forall (fun c => In (CollisionSystem.self c) [0%nat]) calls.
Proof.
  destruct (CollisionSystem.update MathApprox.sqrtA CollisionSystem.wallScene (1 # 60))
    as [[cs' calls]|] eqn:E; [|vm_compute in E; discriminate].
  exists cs', calls. split; [reflexivity|].
  destruct (update_changes_only_velocities MathApprox.sqrtA _ _ _ _ E)
    as (_ & _ & _ & Hbox & _ & _ & Hcalls).
  split; [exact Hbox|].
  revert Hcalls. apply List.Forall_impl. intros c [H _]. exact H.
Defined.

Lemma update_leaves_static_objects_witness :
  exists cs' calls x',
    CollisionSystem.update MathApprox.sqrtA CollisionSystem.wallScene (1 # 60)
      = Some (cs', calls) /\
    CollisionSystem.objects cs' !! 1%nat = Some x' /\
    List.Forall (fun c => CollisionSystem.self c <> 1%nat) calls.
Proof.
  destruct (CollisionSystem.update MathApprox.sqrtA CollisionSystem.wallScene (1 # 60))
    as [[cs' calls]|] eqn:E; [|vm_compute in E; discriminate].
  destruct (update_leaves_static_objects MathApprox.sqrtA _ _ _ _ 1%nat _ E
              ltac:(cbn; intros [H|[]]; discriminate) eq_refl)
    as (x' & Hx' & _ & _ & Hcalls).
  exists cs', calls, x'. split; [reflexivity|]. split; [exact Hx'|exact Hcalls].
Defined.

Lemma update_completes_witness :
  exists cs' calls,
    CollisionSystem.update MathApprox.sqrtA CollisionSystem.pairDefault (1 # 60)
    = Some (cs', calls).
Proof.
  destruct (update_completes MathApprox.sqrtA CollisionSystem.pairDefault (1 # 60)
              eq_refl eq_refl) as (cs' & calls & H & _).
  exists cs', calls. exact H.
Defined.

(** * CheckpointSystem: updates outside a race, restarts, progress, lap
      times as a measure of simulated time, the end of a race *)

Section CheckpointMore.
Import CheckpointSystem.

Ltac cps_simpl :=
  cbn [checkpoints startFinishLine currentCheckpoint laps totalLaps lapTimes
       currentLapTime bestLapTime raceStartTime raceTime isRaceStarted
       isRaceFinished onLapCompleted onCheckpointPassed onRaceFinished
       set_times set_progress raceFinished fst snd mbind option_bind] in *.

Lemma sumQ_app (xs ys : list Q) : sumQ (xs ++ ys) == sumQ xs + sumQ ys.
Proof.
  unfold sumQ. induction xs as [|x xs IH]; cbn [app fold_right]; [lra|].
  rewrite IH. lra.
Qed.

(** One update while the race is on, with the lap-time array in the
    store. *)
Lemma update_running (s : t) (h : JS.Heap) (k : Tick) (xs : list Q) :
  isRaceStarted s = true -> isRaceFinished s = false ->
  JS.readArray h (lapTimes s) = Some xs ->
  let next := ((currentCheckpoint s + 1) mod length (checkpoints s))%nat in
  let wraps := passes s k && Nat.eqb next 0 in
  exists s' h' ev new,
    update s h (now k) (deltaTime k) (vehiclePosition k) = Some (s', h', ev) /\
    checkpoints s' = checkpoints s /\ totalLaps s' = totalLaps s /\
    lapTimes s' = lapTimes s /\ onRaceFinished s' = onRaceFinished s /\
    isRaceStarted s' = true /\
    currentCheckpoint s' = (if passes s k then next else currentCheckpoint s) /\
    laps s' = (if wraps then laps s + 1 else laps s)%Z /\
    isRaceFinished s' = wraps && Z.leb (totalLaps s) (laps s + 1) /\
    JS.readArray h' (lapTimes s) = Some (xs ++ new) /\
    (length new <= 1)%nat /\
    (forall l, l <> lapTimes s -> h' !! l = h !! l) /\
    sumQ new + currentLapTime s' == currentLapTime s + deltaTime k /\
    length (List.filter isRaceFinishedEvent ev)
    = (if isRaceFinished s' && onRaceFinished s then 1 else 0)%nat.
Proof.
  intros Hst Hfin Harr. cbv zeta.
  unfold passes, isRunning. rewrite Hst, Hfin. cbn [negb andb].
  unfold update. rewrite Hst, Hfin. cbn [negb orb]. cps_simpl.
  destruct (checkpoints s !! currentCheckpoint s) as [cp|] eqn:Hcp.
  2: { exists (set_times s ((now k - raceStartTime s) / 1000)
                 (currentLapTime s + deltaTime k)), h, [], [].
       cps_simpl. rewrite app_nil_r, Hfin.
       repeat match goal with |- _ /\ _ => split end;
         first [reflexivity | exact Hst | exact Harr | cbn; lia | cbn; lra]. }
  destruct (isVehicleAtCheckpoint (vehiclePosition k) cp) eqn:Hat.
  2: { exists (set_times s ((now k - raceStartTime s) / 1000)
                 (currentLapTime s + deltaTime k)), h, [], [].
       cps_simpl. rewrite app_nil_r, Hfin.
       repeat match goal with |- _ /\ _ => split end;
         first [reflexivity | exact Hst | exact Harr | cbn; lia | cbn; lra]. }
  cbn [andb].
  unfold checkpointPassed. cps_simpl. rewrite Hcp. cps_simpl.
  destruct (isStartFinish cp && Z.ltb 0 (laps s)) eqn:Ecl.
  - unfold lapCompleted, JS.push. cps_simpl. rewrite Harr. cps_simpl.
    set (h' := <[lapTimes s := JS.ArrayCell (xs ++ [currentLapTime s + deltaTime k])]> h).
    assert (Hread : JS.readArray h' (lapTimes s)
                    = Some (xs ++ [currentLapTime s + deltaTime k])).
    { unfold JS.readArray, h'. rewrite lookup_insert_eq. reflexivity. }
    assert (Hother : forall l, l <> lapTimes s -> h' !! l = h !! l).
    { intros l Hl. unfold h'. apply lookup_insert_ne. congruence. }
    rewrite Hread. cps_simpl. clearbody h'.
    set (next := ((currentCheckpoint s + 1) mod length (checkpoints s))%nat).
    clearbody next.
    destruct (Nat.eqb next 0) eqn:En; cps_simpl;
      [destruct (Z.leb (totalLaps s) (laps s + 1)) eqn:El; cps_simpl|];
      eexists _, h', _, [currentLapTime s + deltaTime k];
      (split; [reflexivity|]); cps_simpl;
      repeat match goal with |- _ /\ _ => split end;
      first [ reflexivity | exact Hst | exact Hfin | exact Hread | exact Hother
            | cbn; lia | cbn; lra
            | rewrite ?Hfin;
              destruct (onLapCompleted s), (onCheckpointPassed s), (onRaceFinished s);
              reflexivity ].
  - cps_simpl.
    set (next := ((currentCheckpoint s + 1) mod length (checkpoints s))%nat).
    clearbody next.
    destruct (Nat.eqb next 0) eqn:En; cps_simpl;
      [destruct (Z.leb (totalLaps s) (laps s + 1)) eqn:El; cps_simpl|];
      eexists _, h, _, [];
      (split; [reflexivity|]); cps_simpl; rewrite app_nil_r;
      repeat match goal with |- _ /\ _ => split end;
      first [ reflexivity | exact Hst | exact Hfin | exact Harr | cbn; lia | cbn; lra
            | rewrite ?Hfin;
              destruct (onCheckpointPassed s), (onRaceFinished s); reflexivity ].
Qed.

Lemma update_not_running (s : t) (h : JS.Heap) (clock dt : Q) (pos : Vector3.t) :
  isRunning s = false -> update s h clock dt pos = Some (s, h, []).
Proof.
  unfold isRunning, update. intros H.
  destruct (isRaceStarted s), (isRaceFinished s); try discriminate; reflexivity.
Qed.

Lemma run_not_running (s : t) (h : JS.Heap) (ticks : list Tick) :
  isRunning s = false -> run s h ticks = Some (s, h, []).
Proof.
  intros H. induction ticks as [|k rest IH]; cbn [run]; [reflexivity|].
  rewrite (update_not_running _ _ _ _ _ H). cbn [mbind option_bind].
  rewrite IH. reflexivity.
Qed.

Lemma isRunning_cases (s : t) :
  (isRunning s = true /\ isRaceStarted s = true /\ isRaceFinished s = false)
  \/ isRunning s = false.
Proof.
  unfold isRunning. destruct (isRaceStarted s), (isRaceFinished s); cbn; auto.
Qed.

(** A sequence of updates on a system whose lap-time array is in the
    store: it completes, appends to that array only, and the lap times
    recorded plus the lap time running add up to the time steps that found
    the race on. *)
Lemma run_spec (ticks : list Tick) :
  forall (s : t) (h : JS.Heap) (xs : list Q),
    JS.readArray h (lapTimes s) = Some xs ->
    exists s' h' ev xs',
      run s h ticks = Some (s', h', ev) /\
      checkpoints s' = checkpoints s /\ totalLaps s' = totalLaps s /\
      lapTimes s' = lapTimes s /\
      isRaceStarted s' = isRaceStarted s /\
      (laps s <= laps s')%Z /\
      JS.readArray h' (lapTimes s) = Some (xs ++ xs') /\
      (forall l, l <> lapTimes s -> h' !! l = h !! l) /\
      sumQ xs' + currentLapTime s' == currentLapTime s + activeTime s h ticks /\
      ((currentCheckpoint s < length (checkpoints s))%nat ->
       (currentCheckpoint s' < length (checkpoints s))%nat) /\
      (isRaceFinished s = true -> s' = s).
Proof.
  induction ticks as [|k rest IH]; intros s h xs Harr.
  - exists s, h, [], []. cbn [run activeTime]. rewrite app_nil_r.
    repeat match goal with |- _ /\ _ => split end;
      first [reflexivity | exact Harr | lia | cbn; lra | tauto].
  - cbn [run activeTime].
    destruct (isRunning_cases s) as [(Hrun & Hst & Hfin)|Hrun].
    + destruct (update_running s h k xs Hst Hfin Harr)
        as (s1 & h1 & ev1 & new & Hup & Hc1 & Ht1 & Hl1 & _ & Hs1 & Hcur1 & Hlaps1 & _
            & Harr1 & _ & Hoth1 & Hsum1 & _).
      cbv zeta in Hcur1, Hlaps1.
      rewrite Hup, Hrun. cbn [mbind option_bind].
      rewrite <- Hl1 in Harr1.
      destruct (IH s1 h1 (xs ++ new) Harr1)
        as (s2 & h2 & ev2 & xs2 & Hrun2 & Hc2 & Ht2 & Hl2 & Hs2 & Hlaps2 & Harr2 & Hoth2
            & Hsum2 & Hcur2 & _).
      rewrite Hrun2. cbn [mbind option_bind].
      exists s2, h2, (ev1 ++ ev2), (new ++ xs2).
      split; [reflexivity|].
      split; [congruence|]. split; [congruence|]. split; [congruence|].
      split; [congruence|].
      split; [destruct (passes s k && _); lia|].
      split; [rewrite Hl1 in Harr2; rewrite app_assoc; exact Harr2|].
      split; [intros l Hl; rewrite Hoth2 by congruence; apply Hoth1; exact Hl|].
      split; [rewrite sumQ_app; lra|].
      split; [|congruence].
      intros Hlt. rewrite <- Hc1. apply Hcur2. rewrite Hc1, Hcur1.
      destruct (passes s k); [|exact Hlt].
      apply Nat.mod_upper_bound. lia.
    + rewrite (update_not_running _ _ _ _ _ Hrun), Hrun. cbn [mbind option_bind].
      destruct (IH s h xs Harr)
        as (s2 & h2 & ev2 & xs2 & Hrun2 & Hc2 & Ht2 & Hl2 & Hs2 & Hlaps2 & Harr2 & Hoth2
            & Hsum2 & Hcur2 & Hfin2).
      rewrite Hrun2. cbn [mbind option_bind].
      exists s2, h2, ev2, xs2.
      repeat match goal with |- _ /\ _ => split end;
        first [reflexivity | assumption | lra].
Qed.

(** The same sequence, for when and how the race ends. *)
Lemma run_finish (ticks : list Tick) :
  forall (s : t) (h : JS.Heap) (xs : list Q) (total : Z),
    JS.readArray h (lapTimes s) = Some xs ->
    totalLaps s = total ->
    isRaceStarted s = true -> isRaceFinished s = false ->
    (0 <= laps s)%Z -> (laps s = 0 \/ laps s < total)%Z ->
    exists s' h' ev,
      run s h ticks = Some (s', h', ev) /\
      length (List.filter isRaceFinishedEvent ev)
      = (if isRaceFinished s' && onRaceFinished s then 1 else 0)%nat /\
      (isRaceFinished s' = true ->
       currentCheckpoint s' = 0%nat /\ laps s' = Z.max 1 total) /\
      (isRaceFinished s' = false -> (0 <= laps s' < Z.max 1 total)%Z).
Proof.
  induction ticks as [|k rest IH]; intros s h xs total Harr Htot Hst Hfin H0 HJ.
  - exists s, h, []. cbn [run]. rewrite Hfin.
    split; [reflexivity|]. split; [reflexivity|].
    split; [discriminate|]. intros _. lia.
  - cbn [run].
    destruct (update_running s h k xs Hst Hfin Harr)
      as (s1 & h1 & ev1 & new & Hup & Hc1 & Ht1 & Hl1 & Hcb1 & Hs1 & Hcur1 & Hlaps1 & Hfin1
          & Harr1 & _ & _ & _ & Hev1).
    cbv zeta in Hcur1, Hlaps1, Hfin1.
    rewrite Hup. cbn [mbind option_bind].
    rewrite <- Hl1 in Harr1.
    destruct (isRaceFinished s1) eqn:Ef.
    + assert (Hnr : isRunning s1 = false).
      { unfold isRunning. rewrite Ef. apply andb_false_r. }
      rewrite (run_not_running _ _ _ Hnr). cbn [mbind option_bind].
      exists s1, h1, (ev1 ++ []). rewrite app_nil_r, Ef.
      split; [reflexivity|]. split; [exact Hev1|].
      split; [|discriminate]. intros _.
      symmetry in Hfin1. apply andb_true_iff in Hfin1. destruct Hfin1 as [Hw Hle].
      rewrite Hw in Hlaps1. apply andb_true_iff in Hw. destruct Hw as [Hp Hn].
      rewrite Hp in Hcur1. apply Nat.eqb_eq in Hn. apply Z.leb_le in Hle.
      split; [congruence|]. lia.
    + assert (Hlaps1' : (0 <= laps s1)%Z /\ (laps s1 = 0 \/ laps s1 < total)%Z).
      { symmetry in Hfin1. apply andb_false_iff in Hfin1.
        destruct (passes s k && _) eqn:Hw.
        - destruct Hfin1 as [?|Hle]; [discriminate|]. apply Z.leb_gt in Hle. lia.
        - lia. }
      destruct (IH s1 h1 (xs ++ new) total Harr1 ltac:(congruence) Hs1 Ef
                  (proj1 Hlaps1') (proj2 Hlaps1'))
        as (s2 & h2 & ev2 & Hrun2 & Hev2 & Hfin2 & Hnot2).
      rewrite Hrun2. cbn [mbind option_bind].
      exists s2, h2, (ev1 ++ ev2).
      split; [reflexivity|]. split; [|split; assumption].
      rewrite List.filter_app, length_app, Hev1, Hev2, Hcb1. cbn [andb]. reflexivity.
Qed.

(** X20.  Updates outside a race do nothing: before [startRace()] and
    after the race has finished, any sequence of [update] calls returns
    with the system and the store as they were and fires no event, wherever
    the vehicle is. *)
Theorem updates_outside_race_are_ignored (s : t) (h : JS.Heap) (ticks : list Tick) :
  isRaceStarted s = false \/ isRaceFinished s = true ->
  run s h ticks = Some (s, h, []).
Proof.
  intros H. apply run_not_running. unfold isRunning.
  destruct H as [-> | ->]; [reflexivity|apply andb_false_r].
Qed.

(** X21.  [startRace()] gives the system a new, empty lap-time array and
    leaves every array and object that existed before as it was, the old
    lap-time array included; whatever is then driven, the old array is
    never written again.  So lap times handed out by an earlier race (in a
    race-finished event or a snapshot) stay what they were.  The best lap
    time is carried over into the new race. *)
Theorem startRace_leaves_old_lap_times (s : t) (h : JS.Heap) (now0 : Q)
    (ticks : list Tick) :
  let s0 := (startRace s h now0).1 in
  let h0 := (startRace s h now0).2 in
  h !! lapTimes s0 = None /\
  JS.readArray h0 (lapTimes s0) = Some [] /\
  bestLapTime s0 = bestLapTime s /\
  exists s' h' ev,
    run s0 h0 ticks = Some (s', h', ev) /\
    lapTimes s' = lapTimes s0 /\
    forall l c, h !! l = Some c -> h0 !! l = Some c /\ h' !! l = Some c.
Proof.
  cbv zeta.
  assert (Hfresh : h !! lapTimes (startRace s h now0).1 = None).
  { exact (alloc_fresh h (JS.ArrayCell [])). }
  assert (Harr : JS.readArray (startRace s h now0).2 (lapTimes (startRace s h now0).1)
                 = Some []).
  { apply (startRace_state s h now0). }
  assert (Hold : forall l c, h !! l = Some c -> (startRace s h now0).2 !! l = Some c).
  { intros l c Hl.
    change ((startRace s h now0).2) with ((JS.alloc h (JS.ArrayCell [])).2).
    rewrite alloc_old by eauto. exact Hl. }
  split; [exact Hfresh|]. split; [exact Harr|]. split; [reflexivity|].
  destruct (run_spec ticks _ _ _ Harr)
    as (s' & h' & ev & xs' & Hrun & _ & _ & Hl & _ & _ & _ & Hoth & _).
  exists s', h', ev. split; [exact Hrun|]. split; [exact Hl|].
  intros l c Hlc. split; [exact (Hold l c Hlc)|].
  rewrite Hoth; [exact (Hold l c Hlc)|].
  intros ->. rewrite Hfresh in Hlc. discriminate.
Qed.

(** X22.  With its lap-time array in the store, the system takes any
    sequence of [update] calls without raising an error.  The checkpoint
    list, the lap target and the identity of the lap-time array do not
    change; the lap counter never falls; lap times are only appended; no
    other array or object of the store is written; and a current
    checkpoint index that is in range stays in range. *)
Theorem run_only_appends_lap_times (s : t) (h : JS.Heap) (xs : list Q)
    (ticks : list Tick) :
  JS.readArray h (lapTimes s) = Some xs ->
  exists s' h' ev xs',
    run s h ticks = Some (s', h', ev) /\
    checkpoints s' = checkpoints s /\ totalLaps s' = totalLaps s /\
    lapTimes s' = lapTimes s /\
    (laps s <= laps s')%Z /\
    JS.readArray h' (lapTimes s') = Some (xs ++ xs') /\
    (forall l, l <> lapTimes s -> h' !! l = h !! l) /\
    ((currentCheckpoint s < length (checkpoints s))%nat ->
     (currentCheckpoint s' < length (checkpoints s'))%nat).
Proof.
  intros Harr.
  destruct (run_spec ticks s h xs Harr)
    as (s' & h' & ev & xs' & Hrun & Hc & Ht & Hl & _ & Hlaps & Harr' & Hoth & _ & Hcur & _).
  exists s', h', ev, xs'.
  split; [exact Hrun|]. split; [exact Hc|]. split; [exact Ht|]. split; [exact Hl|].
  split; [exact Hlaps|]. split; [rewrite Hl; exact Harr'|]. split; [exact Hoth|].
  rewrite Hc. exact Hcur.
Qed.

(** X23.  Lap times measure simulated time and lose none of it: over any
    sequence of [update] calls, the lap times recorded during the sequence
    plus the lap time running at its end equal the lap time running at its
    start plus the time steps of the calls that found the race on.  (The
    step of the call that closes a lap counts for the lap it closes.) *)
Theorem lap_times_add_up (s : t) (h : JS.Heap) (xs : list Q) (ticks : list Tick) :
  JS.readArray h (lapTimes s) = Some xs ->
  exists s' h' ev xs',
    run s h ticks = Some (s', h', ev) /\
    JS.readArray h' (lapTimes s') = Some (xs ++ xs') /\
    sumQ xs' + currentLapTime s' == currentLapTime s + activeTime s h ticks.
Proof.
  intros Harr.
  destruct (run_spec ticks s h xs Harr)
    as (s' & h' & ev & xs' & Hrun & _ & _ & Hl & _ & _ & Harr' & _ & Hsum & _).
  exists s', h', ev, xs'.
  split; [exact Hrun|]. split; [rewrite Hl; exact Harr'|exact Hsum].
Qed.

(** X24.  A race ends once and in one place: from [startRace()] on,
    whatever is driven, the race-finished callback is invoked once if the
    race is finished and never otherwise; a finished race stands at
    checkpoint 0 with [laps] equal to the lap target (1 if the target is
    lower), and an unfinished one has fewer laps than that. *)
Theorem race_finishes_once (s : t) (h : JS.Heap) (now0 : Q) (ticks : list Tick) :
  exists s' h' ev,
    run (startRace s h now0).1 (startRace s h now0).2 ticks = Some (s', h', ev) /\
    length (List.filter isRaceFinishedEvent ev)
    = (if isRaceFinished s' && onRaceFinished s then 1 else 0)%nat /\
    (isRaceFinished s' = true ->
     currentCheckpoint s' = 0%nat /\ laps s' = Z.max 1 (totalLaps s)) /\
    (isRaceFinished s' = false -> (0 <= laps s' < Z.max 1 (totalLaps s))%Z).
Proof.
  destruct (startRace_state s h now0) as (_ & _ & Hlaps & Hst & Hfin & Harr).
  cbv zeta in Hlaps, Hst, Hfin, Harr.
  apply (run_finish ticks _ _ [] (totalLaps s) Harr eq_refl Hst Hfin).
  - rewrite Hlaps. lia.
  - left. exact Hlaps.
Qed.

End CheckpointMore.

Lemma updates_outside_race_are_ignored_witness :
  CheckpointSystem.run (CheckpointSystem.initialised CheckpointSystem.track4 2).1
    (CheckpointSystem.initialised CheckpointSystem.track4 2).2 CheckpointSystem.ticks9
  = Some ((CheckpointSystem.initialised CheckpointSystem.track4 2).1,
          (CheckpointSystem.initialised CheckpointSystem.track4 2).2, []).
Proof.
  apply updates_outside_race_are_ignored. left. reflexivity.
Defined.

Lemma run_only_appends_lap_times_witness :
  exists s' h' ev xs',
    CheckpointSystem.run (CheckpointSystem.started CheckpointSystem.track4 2).1
      (CheckpointSystem.started CheckpointSystem.track4 2).2 CheckpointSystem.ticks9
    = Some (s', h', ev) /\
    JS.readArray h' (CheckpointSystem.lapTimes s') = Some ([] ++ xs').
Proof.
  destruct (run_only_appends_lap_times (CheckpointSystem.started CheckpointSystem.track4 2).1
              (CheckpointSystem.started CheckpointSystem.track4 2).2 []
              CheckpointSystem.ticks9 eq_refl)
    as (s' & h' & ev & xs' & Hrun & _ & _ & _ & _ & Harr & _).
  exists s', h', ev, xs'. split; [exact Hrun|exact Harr].
Defined.

Lemma lap_times_add_up_witness :
  exists s' h' ev xs',
    CheckpointSystem.run (CheckpointSystem.started CheckpointSystem.track4 2).1
      (CheckpointSystem.started CheckpointSystem.track4 2).2 CheckpointSystem.ticks9
    = Some (s', h', ev) /\
    CheckpointSystem.sumQ xs' + CheckpointSystem.currentLapTime s'
    == 0 + CheckpointSystem.activeTime (CheckpointSystem.started CheckpointSystem.track4 2).1
             (CheckpointSystem.started CheckpointSystem.track4 2).2 CheckpointSystem.ticks9.
Proof.
  destruct (lap_times_add_up (CheckpointSystem.started CheckpointSystem.track4 2).1
              (CheckpointSystem.started CheckpointSystem.track4 2).2 []
              CheckpointSystem.ticks9 eq_refl)
    as (s' & h' & ev & xs' & Hrun & _ & Hsum).
  exists s', h', ev, xs'. split; [exact Hrun|exact Hsum].
Defined.

(** * The track builder's checkpoints, the stand-alone collision tests, and
      the scene's copies of the lap times *)

Section TrackFacts.
Import TrackBuilder.

(** The shape of the checkpoint list while a layout places its
    checkpoints: the start/finish line, then plain checkpoints that know
    their own place. *)
Lemma addCheckpoint_spec (b : t) (i : Z) (pos : option Q) :
  segments (addCheckpoint b i pos) = segments b /\
  ((invalidIndex b i = true /\
    checkpoints (addCheckpoint b i pos) = checkpoints b /\
    console (addCheckpoint b i pos)
    = console b ++ ["Invalid segment index for checkpoint"]) \/
   (invalidIndex b i = false /\
    console (addCheckpoint b i pos) = console b /\
    exists e, checkpoints (addCheckpoint b i pos) = checkpoints b ++ [e] /\
              index e = Some (length (checkpoints b)) /\
              segmentIndex e = Some i /\ isStartFinish e = None)).
Proof.
  unfold addCheckpoint. destruct (invalidIndex b i) eqn:E.
  - split; [reflexivity|]. left. repeat split.
  - assert (Hlt : (Z.to_nat i < length (segments b))%nat).
    { unfold invalidIndex in E. apply orb_false_iff in E. destruct E as [E1 E2].
      apply Z.ltb_ge in E1. apply Z.leb_gt in E2. lia. }
    destruct (lookup_lt_is_Some_2 _ _ Hlt) as [seg ->].
    split; [reflexivity|]. right. split; [reflexivity|]. split; [reflexivity|].
    eexists. split; [reflexivity|]. repeat split.
Qed.

Lemma invalidIndex_segments (b b' : t) (i : Z) :
  segments b' = segments b -> invalidIndex b' i = invalidIndex b i.
Proof. unfold invalidIndex. intros ->. reflexivity. Qed.

Lemma placed_shape (ids : list Z) :
  forall (b : t) (line : Entry) (rest : list Entry),
    checkpoints b = line :: rest ->
    isStartFinish line = Some true ->
    (forall k e, rest !! k = Some e -> index e = Some (S k) /\ isStartFinish e = None) ->
    let b' := fold_left (fun b' i => addCheckpoint b' i (Some (1 # 2))) ids b in
    segments b' = segments b /\
    exists rest',
      checkpoints b' = line :: rest' /\
      (forall k e, rest' !! k = Some e -> index e = Some (S k) /\ isStartFinish e = None) /\
      length rest'
      = (length rest + length (List.filter (fun i => negb (invalidIndex b i)) ids))%nat /\
      length (console b')
      = (length (console b) + length (List.filter (invalidIndex b) ids))%nat.
Proof.
  induction ids as [|i ids IH]; intros b line rest Hcps Hline Hrest; cbn [fold_left List.filter].
  - split; [reflexivity|]. exists rest. cbn [length]. repeat split; try assumption; try lia.
    + apply (Hrest k e H).
    + apply (Hrest k e H).
  - destruct (addCheckpoint_spec b i (Some (1 # 2)))
      as (Hseg & [(Hinv & Hsame & Hcon)|(Hinv & Hcon & e & Hadd & Hidx & _ & Hsf)]).
    + destruct (IH (addCheckpoint b i (Some (1 # 2))) line rest
                  ltac:(rewrite Hsame; exact Hcps) Hline Hrest)
        as (Hseg' & rest' & Hcps' & Hrest' & Hlen & Hlog).
      split; [congruence|]. exists rest'.
      split; [exact Hcps'|]. split; [exact Hrest'|].
      rewrite Hinv. cbn [negb length].
      rewrite (List.filter_ext _ _ (fun j => f_equal negb (invalidIndex_segments b _ j Hseg)))
        in Hlen.
      rewrite (List.filter_ext _ _ (fun j => invalidIndex_segments b _ j Hseg)) in Hlog.
      rewrite Hcon, length_app in Hlog. cbn [length] in Hlog.
      split; lia.
    + rewrite Hcps in Hadd. cbn [app] in Hadd. rewrite Hcps in Hidx. cbn [length] in Hidx.
      destruct (IH (addCheckpoint b i (Some (1 # 2))) line (rest ++ [e]) Hadd Hline)
        as (Hseg' & rest' & Hcps' & Hrest' & Hlen & Hlog).
      { intros k e' Hk. destruct (decide (k < length rest)%nat) as [Hlt|Hge].
        - rewrite lookup_app_l in Hk by exact Hlt. exact (Hrest k e' Hk).
        - rewrite lookup_app_r in Hk by lia.
          destruct (k - length rest)%nat as [|m] eqn:Ek; cbn in Hk; [|discriminate].
          injection Hk as <-. replace k with (length rest) by lia.
          split; [exact Hidx|exact Hsf]. }
      split; [congruence|]. exists rest'.
      split; [exact Hcps'|]. split; [exact Hrest'|].
      rewrite Hinv. cbn [negb length].
      rewrite (List.filter_ext _ _ (fun j => f_equal negb (invalidIndex_segments b _ j Hseg)))
        in Hlen.
      rewrite (List.filter_ext _ _ (fun j => invalidIndex_segments b _ j Hseg)) in Hlog.
      rewrite length_app in Hlen. cbn [length] in Hlen. rewrite Hcon in Hlog.
      split; lia.
Qed.

(** X25.  The layouts put the start/finish line where the lap counter
    needs it.  On a builder that has segments and no checkpoints yet,
    placing the line on segment 0 and then checkpoints on any list of
    segments gives a checkpoint list whose entry 0, and no other, is a
    start/finish line for the checkpoint system; every other entry carries
    its own place in the list as [index]; a segment index out of range adds
    no checkpoint but one console error; the segments are untouched. *)
Theorem placeCheckpoints_line_first (b : t) (ids : list Z) :
  checkpoints b = [] -> segments b <> [] ->
  let b' := placeCheckpoints b ids in
  CheckpointSystem.startFinishFirst (GameScene.checkpointsOfTrack b') /\
  (forall k e, getCheckpoints b' !! k = Some e -> k <> 0%nat -> index e = Some k) /\
  length (getCheckpoints b')
  = S (length (List.filter (fun i => negb (invalidIndex b i)) ids)) /\
  length (console b')
  = (length (console b) + length (List.filter (invalidIndex b) ids))%nat /\
  segments b' = segments b.
Proof.
  intros Hempty Hsegs. cbv zeta. unfold placeCheckpoints.
  destruct (segments b) as [|seg0 segs] eqn:Es; [congruence|].
  set (b0 := addStartFinishLine b 0 (Some (1 # 2))).
  assert (Hb0 : exists line, checkpoints b0 = [line] /\ isStartFinish line = Some true
                             /\ segments b0 = segments b /\ console b0 = console b).
  { unfold b0, addStartFinishLine, invalidIndex. rewrite Es, Hempty. cbn.
    eexists. repeat split. }
  destruct Hb0 as (line & Hcps0 & Hline & Hseg0 & Hcon0).
  destruct (placed_shape ids b0 line [] Hcps0 Hline ltac:(intros k e Hk; discriminate))
    as (Hseg & rest' & Hcps' & Hrest' & Hlen & Hlog).
  cbv zeta in Hseg, Hcps', Hlen, Hlog.
  rewrite (List.filter_ext _ _ (fun j => f_equal negb (invalidIndex_segments b _ j Hseg0)))
    in Hlen.
  rewrite (List.filter_ext _ _ (fun j => invalidIndex_segments b _ j Hseg0)) in Hlog.
  unfold getCheckpoints, GameScene.checkpointsOfTrack, getCheckpoints. rewrite Hcps'.
  split; [|split; [|split; [|split]]].
  - intros k cp Hk. destruct k as [|k]; cbn in Hk.
    + injection Hk as <-. unfold GameScene.checkpointOfEntry. cbn. rewrite Hline. reflexivity.
    + change (map GameScene.checkpointOfEntry rest' !! k = Some cp) in Hk.
      change (map GameScene.checkpointOfEntry rest')
        with (GameScene.checkpointOfEntry <$> rest') in Hk.
      rewrite list_lookup_fmap in Hk.
      destruct (rest' !! k) as [e|] eqn:Ee; cbn in Hk; [|discriminate].
      injection Hk as <-. unfold GameScene.checkpointOfEntry. cbn.
      rewrite (proj2 (Hrest' k e Ee)). reflexivity.
  - intros k e Hk Hk0. destruct k as [|k]; [congruence|]. cbn in Hk.
    exact (proj1 (Hrest' k e Hk)).
  - cbn [length]. cbn [length] in Hlen. lia.
  - rewrite Hlog, Hcon0. reflexivity.
  - rewrite Hseg, Hseg0, Es. reflexivity.
Qed.

(** X26.  A builder without segments refuses every checkpoint: whatever
    [addStartFinishLine] and [addCheckpoint] calls follow [clear()], each
    logs one console error and adds nothing, so the checkpoint list handed
    to the checkpoint system is empty. *)
Theorem cleared_builder_places_nothing (b : t) (ids : list Z) :
  let b' := placeCheckpoints (clear b) ids in
  getCheckpoints b' = [] /\ segments b' = [] /\
  GameScene.checkpointsOfTrack b' = [] /\
  length (console b') = (length (console b) + 1 + length ids)%nat.
Proof.
  cbv zeta. unfold placeCheckpoints, GameScene.checkpointsOfTrack, getCheckpoints.
  assert (Hgen : forall (l : list Z) (n : nat) (b1 : t),
             checkpoints b1 = [] -> segments b1 = [] ->
             length (console b1) = n ->
             let b2 := fold_left (fun b' j => addCheckpoint b' j (Some (1 # 2))) l b1 in
             checkpoints b2 = [] /\ segments b2 = [] /\
             length (console b2) = (n + length l)%nat).
  { clear. induction l as [|j l IH]; intros n b1 Hc Hs Hl; cbn [fold_left length].
    - repeat split; try assumption. lia.
    - assert (Hinv : invalidIndex b1 j = true).
      { unfold invalidIndex. rewrite Hs. cbn [length].
        destruct (Z.ltb_spec j 0); [reflexivity|]. cbn. apply Z.leb_le. lia. }
      destruct (IH (S n) (addCheckpoint b1 j (Some (1 # 2)))) as (H1 & H2 & H3).
      + unfold addCheckpoint. rewrite Hinv. exact Hc.
      + unfold addCheckpoint. rewrite Hinv. exact Hs.
      + unfold addCheckpoint. rewrite Hinv. unfold logError. cbn [console].
        rewrite length_app. cbn [length]. lia.
      + repeat split; try assumption. lia. }
  destruct (Hgen ids (length (console b) + 1)%nat
              (addStartFinishLine (clear b) 0 (Some (1 # 2)))) as (H1 & H2 & H3).
  - reflexivity.
  - reflexivity.
  - change (length (console b ++ ["Invalid segment index for start/finish line"])
            = (length (console b) + 1)%nat).
    rewrite length_app. cbn [length]. lia.
  - cbv zeta in H1, H2, H3. rewrite H1, H2, H3. repeat split.
Qed.

End TrackFacts.

Section DetectionFacts.
Import CollisionDetection.
Variable sqrtQ : Q -> Q.

Lemma Qltb_wd (a a' b b' : Q) : a == a' -> b == b' -> Qltb a b = Qltb a' b'.
Proof.
  intros Ha Hb. destruct (Qltb a' b') eqn:E.
  - apply Qltb_true. apply Qltb_true in E. lra.
  - apply Qltb_false. apply Qltb_false in E. lra.
Qed.

(** X27.  The two proximity tests of the code base agree.  For a checkpoint
    list that has an entry at the index asked for, and a square root that
    is exact at the distance at hand, [checkCheckpointCollision] reports a
    hit exactly when [CheckpointSystem.isVehicleAtCheckpoint] holds, and
    the hit names that entry, that index and a distance below 10.  Without
    a vehicle, without a list, or with no entry at the index it returns
    null. *)
Theorem checkCheckpointCollision_agrees (p : Vector3.t)
    (cps : list CheckpointSystem.Checkpoint) (i : nat) (cp : CheckpointSystem.Checkpoint) :
  cps !! i = Some cp ->
  let d2 := Vector3.distanceToSquared p (CheckpointSystem.position cp) in
  0 <= sqrtQ d2 -> sqrtQ d2 * sqrtQ d2 == d2 ->
  checkCheckpointCollision sqrtQ (Some p) (Some cps) i
  = (if CheckpointSystem.isVehicleAtCheckpoint p cp
     then Some (mkCheckpointHit cp i (sqrtQ d2)) else None) /\
  (CheckpointSystem.isVehicleAtCheckpoint p cp = true -> sqrtQ d2 < 10) /\
  checkCheckpointCollision sqrtQ None (Some cps) i = None /\
  checkCheckpointCollision sqrtQ (Some p) None i = None /\
  (forall j, cps !! j = None -> checkCheckpointCollision sqrtQ (Some p) (Some cps) j = None).
Proof.
  intros Hi d2 H0 Hsq.
  assert (Hagree := isVehicleAtCheckpoint_distance sqrtQ p cp H0 Hsq).
  split; [|split; [|split; [|split]]].
  - unfold checkCheckpointCollision. rewrite Hi.
    destruct cps as [|c0 cps']; [discriminate|]. cbn [length Nat.eqb].
    cbv zeta. rewrite Hagree. reflexivity.
  - intros Hat. rewrite <- Hagree in Hat. apply Qltb_true in Hat. exact Hat.
  - reflexivity.
  - reflexivity.
  - intros j Hj. unfold checkCheckpointCollision. rewrite Hj.
    destruct (length cps =? 0)%nat; reflexivity.
Qed.

(** X28.  [isPointInPolygon] on an axis-parallel rectangle of the XZ plane
    is the half-open box test: a point is inside exactly when
    [x0 <= x < x1] and [z0 <= z < z1].  The sides at [x0] and [z0] belong to
    the rectangle, those at [x1] and [z1] do not; the height of the point
    and of the corners plays no part. *)
Theorem isPointInPolygon_rectangle (p : Vector3.t) (x0 x1 z0 z1 y : Q) :
  x0 <= x1 -> z0 <= z1 ->
  isPointInPolygon p (rectangle x0 x1 z0 z1 y)
  = Qleb x0 (Vector3.x p) && Qltb (Vector3.x p) x1
    && Qleb z0 (Vector3.z p) && Qltb (Vector3.z p) z1.
Proof.
  intros Hx Hz. unfold isPointInPolygon, rectangle, intersect.
  cbn [length seq fold_left nth Nat.sub snd Vector3.x Vector3.z].
  destruct p as [px py pz]. cbn [Vector3.x Vector3.z].
  rewrite (Qltb_wd px px ((x0 - x0) * (pz - z0) / (z1 - z0) + x0) x0)
    by (try reflexivity; unfold Qdiv; ring).
  rewrite (Qltb_wd px px ((x1 - x1) * (pz - z1) / (z0 - z1) + x1) x1)
    by (try reflexivity; unfold Qdiv; ring).
  destruct (Qltb pz z0) eqn:E0; destruct (Qltb pz z1) eqn:E1;
    destruct (Qltb px x0) eqn:E2; destruct (Qltb px x1) eqn:E3;
    destruct (Qleb x0 px) eqn:E4; destruct (Qleb z0 pz) eqn:E5;
    cbn; try reflexivity; exfalso;
    repeat match goal with
           | H : Qltb _ _ = true |- _ => apply Qltb_true in H
           | H : Qltb _ _ = false |- _ => apply Qltb_false in H
           | H : Qleb _ _ = true |- _ => apply Qleb_true in H
           | H : Qleb _ _ = false |- _ => apply Qleb_false in H
           end; lra.
Qed.

(** X29.  A polygon without an area that the test can see contains no
    point: [isPointInPolygon] returns false on the empty list, on a single
    corner, and on two corners that lie on one line parallel to an axis
    of the XZ plane (the segment between them is then crossed twice at
    the same abscissa, or not at all). *)
Theorem isPointInPolygon_degenerate (p : Vector3.t) (polygon : list Vector3.t) :
  (length polygon <= 1)%nat \/
  (exists a b, polygon = [a; b] /\
               (Vector3.x a == Vector3.x b \/ Vector3.z a == Vector3.z b)) ->
  isPointInPolygon p polygon = false.
Proof.
  intros [Hlen | (a & b & -> & Hline)].
  - destruct polygon as [|a [|b rest]]; [reflexivity| |cbn in Hlen; lia].
    unfold isPointInPolygon, intersect. cbn [length seq fold_left nth Nat.sub snd].
    destruct (Qltb (Vector3.z p) (Vector3.z a)); reflexivity.
  - unfold isPointInPolygon, intersect. cbn [length seq fold_left nth Nat.sub snd].
    destruct a as [ax ay az], b as [bx by' bz], p as [px py pz].
    cbn [Vector3.x Vector3.z] in *.
    destruct Hline as [Hx | Hz].
    + rewrite (Qltb_wd px px ((bx - ax) * (pz - az) / (bz - az) + ax) ax)
        by (try reflexivity; rewrite Hx; unfold Qdiv; ring).
      rewrite (Qltb_wd px px ((ax - bx) * (pz - bz) / (az - bz) + bx) ax)
        by (try reflexivity; rewrite Hx; unfold Qdiv; ring).
      destruct (Qltb pz az); destruct (Qltb pz bz); destruct (Qltb px ax); reflexivity.
    + rewrite (Qltb_wd pz pz az bz) by (try reflexivity; exact Hz).
      destruct (Qltb pz bz); reflexivity.
Qed.

End DetectionFacts.

Lemma placeCheckpoints_line_first_witness :
  CheckpointSystem.startFinishFirst
    (GameScene.checkpointsOfTrack
       (TrackBuilder.placeCheckpoints TrackBuilder.straightRow TrackBuilder.ovalCheckpoints)) /\
  length (TrackBuilder.getCheckpoints
            (TrackBuilder.placeCheckpoints TrackBuilder.straightRow
               TrackBuilder.ovalCheckpoints)) = 4%nat.
Proof.
  destruct (placeCheckpoints_line_first TrackBuilder.straightRow TrackBuilder.ovalCheckpoints
              eq_refl ltac:(discriminate)) as (H1 & _ & H3 & _).
  split; [exact H1|exact H3].
Defined.

Lemma checkCheckpointCollision_agrees_witness :
  CollisionDetection.checkCheckpointCollision MathApprox.sqrtA
    (Some (Vector3.mk 3 0 0)) (Some CheckpointSystem.track4) 0
  = Some (CollisionDetection.mkCheckpointHit (CheckpointSystem.checkpointAt 0 true) 0
            (MathApprox.sqrtA
               (Vector3.distanceToSquared (Vector3.mk 3 0 0)
                  (CheckpointSystem.position (CheckpointSystem.checkpointAt 0 true))))).
Proof.
  exact (proj1 (checkCheckpointCollision_agrees MathApprox.sqrtA (Vector3.mk 3 0 0)
                  CheckpointSystem.track4 0 (CheckpointSystem.checkpointAt 0 true)
                  eq_refl ltac:(vm_compute; discriminate) ltac:(vm_compute; reflexivity))).
Defined.

Lemma isPointInPolygon_rectangle_witness :
  CollisionDetection.isPointInPolygon (Vector3.mk 0 7 0)
    (CollisionDetection.rectangle 0 10 0 5 0) = true.
Proof.
  exact (isPointInPolygon_rectangle (Vector3.mk 0 7 0) 0 10 0 5 0
           ltac:(vm_compute; discriminate) ltac:(vm_compute; discriminate)).
Defined.

Lemma isPointInPolygon_degenerate_witness :
  CollisionDetection.isPointInPolygon (Vector3.mk 1 0 1)
    [Vector3.mk 0 0 0; Vector3.mk 0 0 2] = false.
Proof.
  apply isPointInPolygon_degenerate. right.
  exists (Vector3.mk 0 0 0), (Vector3.mk 0 0 2).
  split; [reflexivity|]. left. reflexivity.
Defined.

(** * GameScene: the lap times the scene keeps *)

Section SceneFacts.
Import GameScene.

Lemma setProp_ok (h : JS.Heap) (l : JS.loc) (k : string) (v : JS.Value)
    (o : gmap string JS.Value) :
  JS.readObject h l = Some o ->
  exists h',
    JS.setProp h l k v = Some h' /\
    JS.readObject h' l = Some (<[k := v]> o) /\
    (forall l', l' <> l -> h' !! l' = h !! l').
Proof.
  intros Ho. unfold JS.setProp. rewrite Ho. cbn [mbind option_bind].
  eexists. split; [reflexivity|]. split.
  - unfold JS.readObject. rewrite lookup_insert_eq. reflexivity.
  - intros l' Hl. apply lookup_insert_ne. congruence.
Qed.

Lemma array_is_no_object (h : JS.Heap) (a l : JS.loc) (xs : list Q)
    (o : gmap string JS.Value) :
  JS.readArray h a = Some xs -> JS.readObject h l = Some o -> a <> l.
Proof.
  unfold JS.readArray, JS.readObject. intros Ha Ho ->.
  destruct (h !! l) as [[|]|]; discriminate.
Qed.

Lemma readArray_lookup (h h' : JS.Heap) (a : JS.loc) :
  h' !! a = h !! a -> JS.readArray h' a = JS.readArray h a.
Proof. unfold JS.readArray. intros ->. reflexivity. Qed.

Lemma readObject_lookup (h h' : JS.Heap) (a : JS.loc) :
  h' !! a = h !! a -> JS.readObject h' a = JS.readObject h a.
Proof. unfold JS.readObject. intros ->. reflexivity. Qed.

Lemma readArray_is_Some (h : JS.Heap) (a : JS.loc) (xs : list Q) :
  JS.readArray h a = Some xs -> is_Some (h !! a).
Proof. unfold JS.readArray. destruct (h !! a); [eauto|discriminate]. Qed.

Lemma readObject_is_Some (h : JS.Heap) (a : JS.loc) (o : gmap string JS.Value) :
  JS.readObject h a = Some o -> is_Some (h !! a).
Proof. unfold JS.readObject. destruct (h !! a); [eauto|discriminate]. Qed.

Lemma fresh_differs (h : JS.Heap) (c : JS.Cell) (l : JS.loc) :
  is_Some (h !! l) -> l <> (JS.alloc h c).1.
Proof.
  intros [x Hx] ->. rewrite alloc_fresh in Hx. discriminate.
Qed.

(** The notification at the end of both handlers: the snapshot, if one is
    taken, is a new object with the properties of [raceState]. *)
Lemma notify_ok (g : GameScene.t) (notify : bool) (h : JS.Heap)
    (o : gmap string JS.Value) :
  JS.readObject h (raceState g) = Some o ->
  exists h' snaps,
    (if notify
     then snapshot ← getRaceState g h; Some (snapshot.2, [snapshot.1])
     else Some (h, []))
    = Some (h', snaps) /\
    length snaps = (if notify then 1 else 0)%nat /\
    (forall l, is_Some (h !! l) -> h' !! l = h !! l) /\
    List.Forall (fun sn => JS.readObject h' sn = Some o /\ h !! sn = None) snaps.
Proof.
  intros Ho. destruct notify.
  - unfold getRaceState, JS.spread. rewrite Ho. cbn [mbind option_bind].
    eexists _, _. split; [reflexivity|]. split; [reflexivity|]. split.
    + intros l Hl. apply alloc_old. exact Hl.
    + constructor; [|constructor]. split; [apply alloc_readObject|apply alloc_fresh].
  - exists h, []. split; [reflexivity|]. split; [reflexivity|].
    split; [reflexivity|constructor].
Qed.

(** X30.  The scene copies the lap times when a lap is completed and
    shares them when the race is finished.  [handleLapCompleted] stores in
    [raceState.lapTimes] a new array with the lap times the checkpoint
    system holds at that moment: a lap time pushed later onto the system's
    array does not show in it, nor in the snapshot passed to the state
    listener.  [handleRaceFinished] stores the array it is given, which is
    the system's own: scene, snapshot and checkpoint system then hold one
    and the same array. *)
Theorem handlers_copy_then_share (g : GameScene.t) (cs : CheckpointSystem.t)
    (notify : bool) (h : JS.Heap) (o : gmap string JS.Value) (xs : list Q)
    (lap : Z) (lapTime totalTime : Q) (best : option Q) :
  JS.readObject h (raceState g) = Some o ->
  JS.readArray h (CheckpointSystem.lapTimes cs) = Some xs ->
  (exists h1 snaps copy,
     handleLapCompleted g cs notify h lap lapTime best = Some (h1, snaps) /\
     JS.getProp h1 (raceState g) "lapTimes" = Some (JS.VRef copy) /\
     h !! copy = None /\
     JS.readArray h1 copy = Some xs /\
     JS.readArray h1 (CheckpointSystem.lapTimes cs) = Some xs /\
     (forall x h2, JS.push h1 (CheckpointSystem.lapTimes cs) x = Some h2 ->
        JS.readArray h2 copy = Some xs /\
        JS.readArray h2 (CheckpointSystem.lapTimes cs) = Some (xs ++ [x])) /\
     length snaps = (if notify then 1 else 0)%nat /\
     List.Forall (fun sn => JS.getProp h1 sn "lapTimes" = Some (JS.VRef copy)) snaps) /\
  (exists h1 snaps,
     handleRaceFinished g notify h totalTime (CheckpointSystem.lapTimes cs) best
     = Some (h1, snaps) /\
     JS.getProp h1 (raceState g) "lapTimes"
     = Some (JS.VRef (CheckpointSystem.lapTimes cs)) /\
     JS.readArray h1 (CheckpointSystem.lapTimes cs) = Some xs /\
     length snaps = (if notify then 1 else 0)%nat /\
     List.Forall (fun sn => JS.getProp h1 sn "lapTimes"
                            = Some (JS.VRef (CheckpointSystem.lapTimes cs))) snaps).
Proof.
  intros Ho Harr.
  set (r := raceState g) in *. set (a := CheckpointSystem.lapTimes cs) in *.
  assert (Har : a <> r) by exact (array_is_no_object _ _ _ _ _ Harr Ho).
  split.
  - unfold handleLapCompleted. fold r. fold a.
    destruct (setProp_ok h r "currentLap" (JS.VNum (inject_Z (lap + 1))) _ Ho)
      as (h1 & -> & Ho1 & Hk1). cbn [mbind option_bind].
    destruct (setProp_ok h1 r "lastLapTime" (JS.VNum lapTime) _ Ho1)
      as (h2 & -> & Ho2 & Hk2). cbn [mbind option_bind].
    destruct (setProp_ok h2 r "bestLapTime" (JS.ofOptNum best) _ Ho2)
      as (h3 & -> & Ho3 & Hk3). cbn [mbind option_bind].
    destruct (setProp_ok h3 r "lapCompleted" (JS.VBool true) _ Ho3)
      as (h4 & -> & Ho4 & Hk4). cbn [mbind option_bind].
    assert (Hsame : forall l, l <> r -> h4 !! l = h !! l).
    { intros l Hl. rewrite Hk4, Hk3, Hk2, Hk1 by exact Hl. reflexivity. }
    assert (Harr4 : JS.readArray h4 a = Some xs).
    { rewrite (readArray_lookup h h4 a (Hsame a Har)). exact Harr. }
    rewrite Harr4. cbn [mbind option_bind].
    set (copy := (JS.alloc h4 (JS.ArrayCell xs)).1).
    set (h4' := (JS.alloc h4 (JS.ArrayCell xs)).2).
    assert (Hcr : r <> copy) by (apply fresh_differs; exact (readObject_is_Some _ _ _ Ho4)).
    assert (Hca : a <> copy) by (apply fresh_differs; exact (readArray_is_Some _ _ _ Harr4)).
    assert (Hfresh : h !! copy = None).
    { rewrite <- (Hsame copy) by congruence. apply alloc_fresh. }
    assert (Ho4' : JS.readObject h4' r = JS.readObject h4 r).
    { apply readObject_lookup, alloc_old. exact (readObject_is_Some _ _ _ Ho4). }
    rewrite Ho4 in Ho4'.
    destruct (setProp_ok h4' r "lapTimes" (JS.VRef copy) _ Ho4')
      as (h5 & -> & Ho5 & Hk5). cbn [mbind option_bind].
    assert (Hcopy5 : JS.readArray h5 copy = Some xs).
    { rewrite (readArray_lookup h4' h5 copy) by (apply Hk5; congruence).
      apply alloc_readArray. }
    assert (Harr5 : JS.readArray h5 a = Some xs).
    { rewrite (readArray_lookup h4' h5 a) by (apply Hk5; congruence).
      rewrite (readArray_lookup h4 h4' a); [exact Harr4|].
      apply alloc_old. exact (readArray_is_Some _ _ _ Harr4). }
    destruct (notify_ok g notify h5 _ Ho5) as (hf & snaps & -> & Hlen & Hold & Hsn).
    assert (Hof : JS.readObject hf r = JS.readObject h5 r).
    { apply readObject_lookup, Hold. exact (readObject_is_Some _ _ _ Ho5). }
    rewrite Ho5 in Hof.
    assert (Hcopyf : JS.readArray hf copy = Some xs).
    { rewrite (readArray_lookup h5 hf copy); [exact Hcopy5|].
      apply Hold. exact (readArray_is_Some _ _ _ Hcopy5). }
    assert (Harrf : JS.readArray hf a = Some xs).
    { rewrite (readArray_lookup h5 hf a); [exact Harr5|].
      apply Hold. exact (readArray_is_Some _ _ _ Harr5). }
    exists hf, snaps, copy.
    split; [reflexivity|].
    split; [unfold JS.getProp; rewrite Hof; cbn [mbind option_bind];
            rewrite lookup_insert_eq; reflexivity|].
    split; [exact Hfresh|]. split; [exact Hcopyf|]. split; [exact Harrf|].
    split; [|split; [exact Hlen|]].
    + intros x hp Hpush. unfold JS.push in Hpush. rewrite Harrf in Hpush.
      cbn [mbind option_bind] in Hpush. injection Hpush as <-. split.
      * rewrite (readArray_lookup hf _ copy); [exact Hcopyf|].
        apply lookup_insert_ne. exact Hca.
      * unfold JS.readArray. rewrite lookup_insert_eq. reflexivity.
    + revert Hsn. apply List.Forall_impl. intros sn [Hsnap _].
      unfold JS.getProp. rewrite Hsnap. cbn [mbind option_bind].
      rewrite lookup_insert_eq. reflexivity.
  - unfold handleRaceFinished. fold r.
    destruct (setProp_ok h r "isRaceFinished" (JS.VBool true) _ Ho)
      as (h1 & -> & Ho1 & Hk1). cbn [mbind option_bind].
    destruct (setProp_ok h1 r "raceTime" (JS.VNum totalTime) _ Ho1)
      as (h2 & -> & Ho2 & Hk2). cbn [mbind option_bind].
    destruct (setProp_ok h2 r "lapTimes" (JS.VRef a) _ Ho2)
      as (h3 & -> & Ho3 & Hk3). cbn [mbind option_bind].
    destruct (setProp_ok h3 r "bestLapTime" (JS.ofOptNum best) _ Ho3)
      as (h4 & -> & Ho4 & Hk4). cbn [mbind option_bind].
    assert (Harr4 : JS.readArray h4 a = Some xs).
    { rewrite (readArray_lookup h h4 a); [exact Harr|].
      rewrite Hk4, Hk3, Hk2, Hk1 by exact Har. reflexivity. }
    destruct (notify_ok g notify h4 _ Ho4) as (hf & snaps & -> & Hlen & Hold & Hsn).
    assert (Hof : JS.readObject hf r = JS.readObject h4 r).
    { apply readObject_lookup, Hold. exact (readObject_is_Some _ _ _ Ho4). }
    rewrite Ho4 in Hof.
    exists hf, snaps. split; [reflexivity|].
    split; [unfold JS.getProp; rewrite Hof; cbn [mbind option_bind];
            rewrite lookup_insert_ne by discriminate;
            rewrite lookup_insert_eq; reflexivity|].
    split; [|split; [exact Hlen|]].
    + rewrite (readArray_lookup h4 hf a); [exact Harr4|].
      apply Hold. exact (readArray_is_Some _ _ _ Harr4).
    + revert Hsn. apply List.Forall_impl. intros sn [Hsnap _].
      unfold JS.getProp. rewrite Hsnap. cbn [mbind option_bind].
      rewrite lookup_insert_ne by discriminate.
      rewrite lookup_insert_eq. reflexivity.
Qed.

End SceneFacts.

Lemma handlers_copy_then_share_witness :
  exists h1 snaps copy,
    GameScene.handleLapCompleted GameScene.sceneAfterFirstLap.1
      CheckpointSystem.afterFirstLap.1 true GameScene.sceneAfterFirstLap.2 1 5 (Some 5)
    = Some (h1, snaps) /\
    JS.getProp h1 (GameScene.raceState GameScene.sceneAfterFirstLap.1) "lapTimes"
    = Some (JS.VRef copy) /\
    JS.readArray h1 copy = Some [5].
Proof.
  destruct (handlers_copy_then_share GameScene.sceneAfterFirstLap.1
              CheckpointSystem.afterFirstLap.1 true GameScene.sceneAfterFirstLap.2
              ∅ [5] 1 5 0 (Some 5))
    as ((h1 & snaps & copy & Hrun & Hprop & _ & Hcopy & _) & _).
  - vm_compute. reflexivity.
  - vm_compute. reflexivity.
  - exists h1, snaps, copy. split; [exact Hrun|]. split; [exact Hprop|exact Hcopy].
Defined.
